(** * Parallel fetch and batched resolve: a model of [fast_validate_ids.py]
      and [fast_get_coords.py]

    The two scripts share one shape: parse a file of identifiers, look every
    identifier up through a remote service (step 1, stage A of the
    specification: one call per identifier, collected in completion order),
    resolve the collected leaves in batches (step 2, stage B) and walk the
    identifiers again to write one report row each (step 3, stage C).

    Python values are embedded as follows.
    - [str] is a list of Unicode code points ([pystr]).
    - [int] is [Z]; identifiers handed back by the service (64-bit unsigned
      arrays in the client library) are [N]; counters are [nat].
    - [dict] is an association list in insertion order ([dict]), because
      step 2 iterates [values()] and therefore depends on that order.
    - An exception is a value: a call that may raise returns an [outcome],
      [Returned] or [Raised] with the message; [int] on text returns a sum.
    - A remote call acts on the state of the service, which is passed along:
      the state after a function tells which calls it made.
    - The nanometre coordinates and the resolution are numbers as JSON
      gives them, integers or binary64 floats ([pynum]); their quotient is
      the float the interpreter computes, with the rounding and the faults
      of true division and of [int].
    - The thread pool is not modelled; [as_completed] hands the results of
      the submitted tasks to one consumer in some order, which is the only
      way the pool can influence the maps. *)

From Stdlib Require Import ZArith NArith QArith String Ascii DecimalFacts DecimalN.
From Stdlib Require Import Qabs SpecFloat.
From stdpp Require Import base tactics option list sets gmap.

Local Open Scope N_scope.

(** ** Strings *)

Definition codepoint := N.
Definition pystr := list codepoint.

(** Literal text of the sources (ASCII only). *)
Definition lit (s : string) : pystr := map N_of_ascii (list_ascii_of_string s).

(** U+2192, written ["→"] in the sources. *)
Definition arrow : codepoint := 8594.

(** [str.isspace] on one character: the interpreter's whitespace table. *)
Definition py_isspace (c : codepoint) : bool :=
  ((9 <=? c) && (c <=? 13)) || ((28 <=? c) && (c <=? 32))
  || (c =? 133) || (c =? 160) || (c =? 5760)
  || ((8192 <=? c) && (c <=? 8202))
  || (c =? 8232) || (c =? 8233) || (c =? 8239) || (c =? 8287) || (c =? 12288).

Fixpoint py_lstrip (s : pystr) : pystr :=
  match s with
  | c :: s' => if py_isspace c then py_lstrip s' else s
  | [] => []
  end.

Definition py_rstrip (s : pystr) : pystr := rev (py_lstrip (rev s)).

(** [s.strip()] *)
Definition py_strip (s : pystr) : pystr := py_rstrip (py_lstrip s).

(** [s.startswith(p)] *)
Fixpoint py_startswith (p s : pystr) : bool :=
  match p, s with
  | [], _ => true
  | a :: p', b :: s' => (a =? b) && py_startswith p' s'
  | _ :: _, [] => false
  end.

(** [sep in s] *)
Fixpoint py_contains (sep s : pystr) : bool :=
  py_startswith sep s
  || match s with
     | [] => false
     | _ :: s' => py_contains sep s'
     end.

(** [s.split(sep)] for a non-empty [sep]: occurrences are found from left to
    right and do not overlap.  [skip] counts the characters of a separator
    that was just matched and is still to be consumed; [cur] is the current
    part, reversed. *)
Fixpoint split_go (sep : pystr) (skip : nat) (cur s : pystr) : list pystr :=
  match s with
  | [] => [rev cur]
  | c :: s' =>
      match skip with
      | S k => split_go sep k cur s'
      | O =>
          if py_startswith sep s
          then rev cur :: split_go sep (length sep - 1) [] s'
          else split_go sep 0 (c :: cur) s'
      end
  end.

Definition py_split (sep s : pystr) : list pystr := split_go sep 0 [] s.

(** [parts[-1]] of a split result (which is never empty). *)
Definition py_last (parts : list pystr) : pystr := List.last parts [].

Definition ascii_digit (c : codepoint) : bool := (48 <=? c) && (c <=? 57).

Definition nonempty (s : pystr) : bool :=
  match s with [] => false | _ :: _ => true end.

Section Unicode.

(** [str.isdigit] consults the interpreter's Unicode tables for characters
    outside ASCII; the tables are not part of the repository and are taken
    as a parameter: [other_digit c] says that [c] has the digit property. *)
Variable other_digit : codepoint -> bool.

Definition isdigit_cp (c : codepoint) : bool := ascii_digit c || other_digit c.

(** [s.isdigit()]: at least one character, and all of them digits. *)
Definition py_isdigit (s : pystr) : bool := nonempty s && forallb isdigit_cp s.

End Unicode.

(** ** Decimal text of integers *)

Fixpoint uint_cps (d : Decimal.uint) : pystr :=
  match d with
  | Decimal.Nil => []
  | Decimal.D0 d => 48 :: uint_cps d
  | Decimal.D1 d => 49 :: uint_cps d
  | Decimal.D2 d => 50 :: uint_cps d
  | Decimal.D3 d => 51 :: uint_cps d
  | Decimal.D4 d => 52 :: uint_cps d
  | Decimal.D5 d => 53 :: uint_cps d
  | Decimal.D6 d => 54 :: uint_cps d
  | Decimal.D7 d => 55 :: uint_cps d
  | Decimal.D8 d => 56 :: uint_cps d
  | Decimal.D9 d => 57 :: uint_cps d
  end.

Definition digit_uint (c : codepoint) (d : Decimal.uint) : Decimal.uint :=
  match c with
  | 48 => Decimal.D0 d | 49 => Decimal.D1 d | 50 => Decimal.D2 d
  | 51 => Decimal.D3 d | 52 => Decimal.D4 d | 53 => Decimal.D5 d
  | 54 => Decimal.D6 d | 55 => Decimal.D7 d | 56 => Decimal.D8 d
  | _ => Decimal.D9 d
  end.

Fixpoint cps_uint (s : pystr) : Decimal.uint :=
  match s with
  | [] => Decimal.Nil
  | c :: s' => digit_uint c (cps_uint s')
  end.

(** [str(n)] for a non-negative integer. *)
Definition py_str (n : N) : pystr := uint_cps (N.to_uint n).

(** [str(z)] for any integer, as an f-string field prints it. *)
Definition py_str_Z (z : Z) : pystr :=
  match z with
  | Zneg p => 45 :: py_str (Npos p)
  | _ => py_str (Z.to_N z)
  end.

(** A plain run of ASCII digits, the only strings whose [int] does not
    depend on the Unicode tables. *)
Definition ascii_digits (s : pystr) : bool := nonempty s && forallb ascii_digit s.

(** Value of a run of ASCII digits. *)
Definition digits_value (s : pystr) : N := N.of_uint (cps_uint s).

Section Int.
(** What [int(s)] does on any other string (signs, surrounding blanks,
    digits of other scripts): a value, or the message of the [ValueError].
    This too lies in the interpreter and is a parameter.  The optional limit
    of recent interpreters on the number of digits is not represented. *)
Variable int_other : pystr -> Z + pystr.

(** [int(s)] *)
Definition py_int (s : pystr) : Z + pystr :=
  if ascii_digits s then inl (Z.of_N (digits_value s)) else int_other s.
End Int.

(** ** Dictionaries in insertion order *)

Section Dict.
Context {K V : Type} `{EqDecision K}.

Definition dict := list (K * V).

(** [d.get(k)] *)
Fixpoint dict_get (d : dict) (k : K) : option V :=
  match d with
  | [] => None
  | (k', v) :: d' => if decide (k' = k) then Some v else dict_get d' k
  end.

(** [k in d] *)
Definition dict_in (k : K) (d : dict) : bool :=
  match dict_get d k with Some _ => true | None => false end.

(** [d[k] = v]: a present key keeps its place, a new key goes last. *)
Fixpoint dict_set (d : dict) (k : K) (v : V) : dict :=
  match d with
  | [] => [(k, v)]
  | (k', v') :: d' =>
      if decide (k' = k) then (k', v) :: d' else (k', v') :: dict_set d' k v
  end.

Definition dict_keys (d : dict) : list K := fst <$> d.

(** [list(d.values())] *)
Definition dict_values (d : dict) : list V := snd <$> d.

(** [d.update(other)], also the loop [for k, v in pairs: d[k] = v]. *)
Definition dict_update (d : dict) (other : list (K * V)) : dict :=
  fold_left (fun acc kv => dict_set acc kv.1 kv.2) other d.
End Dict.

Arguments dict : clear implicits.

(** ** Calls that may raise *)

Inductive outcome (A : Type) : Type :=
  | Returned (a : A)
  | Raised (msg : pystr).
Arguments Returned {A} a.
Arguments Raised {A} msg.

(** ** Stage A: collecting the completed tasks (both scripts)

    Every task returns the triple [(root_id, leaf, err)] of its worker.  The
    loop over [as_completed(futures)] receives the triples in completion
    order and files each under its identifier. *)

Definition task_result : Type := pystr * option N * option pystr.

Definition collect_one (maps : dict pystr N * dict pystr (option pystr))
    (r : task_result) : dict pystr N * dict pystr (option pystr) :=
  let '(root_id, sv, err) := r in
  match sv with
  | Some v => (dict_set maps.1 root_id v, maps.2)
  | None => (maps.1, dict_set maps.2 root_id err)
  end.

Definition collect (completed : list task_result)
    : dict pystr N * dict pystr (option pystr) :=
  fold_left collect_one completed ([], []).

(** [range(0, stop, step)] and the slices [l[i : i + step]] taken at its
    indices. *)
Definition py_range_step (stop step : nat) : list nat :=
  (fun k => (k * step)%nat) <$> seq 0 ((stop + step - 1) / step)%nat.

Definition py_chunks {A} (chunk_size : nat) (l : list A) : list (list A) :=
  (fun i => take chunk_size (drop i l)) <$> py_range_step (length l) chunk_size.

(** An f-string field holding a value that may be [None]. *)
Definition fmt_opt (o : option pystr) : pystr :=
  match o with Some s => s | None => lit "None" end.

(** ** [fast_validate_ids.py] *)

Module Validate.

Section Parser.
Variable other_digit : codepoint -> bool.

(** One turn of the loop [for line in f] of [parse_id_file]. *)
Definition parse_line (ids : list pystr) (raw : pystr) : list pystr :=
  let line := py_strip raw in
  if negb (nonempty line) then ids
  else if py_contains [arrow] line then
    let parts := py_split [arrow] line in
    let id_part := py_strip (py_last parts) in
    if nonempty id_part && py_isdigit other_digit id_part
    then ids ++ [id_part] else ids
  else if py_isdigit other_digit line then ids ++ [line]
  else ids.

Definition parse_id_file (file : list pystr) : list pystr :=
  fold_left parse_line file [].
End Parser.

Section Worker.
Variable int_other : pystr -> Z + pystr.
Context {St : Type}.
(** [client.chunkedgraph.get_leaves(root)], acting on the state of the
    service. *)
Variable get_leaves : Z -> St -> outcome (list N) * St.

Definition get_one_supervoxel (root_id : pystr) (s : St) : task_result * St :=
  match py_int int_other root_id with
  | inr e => ((root_id, None, Some e), s)
  | inl n =>
      match get_leaves n s with
      | (Returned (sv :: _), s') => ((root_id, Some sv, None), s')
      | (Returned [], s') => ((root_id, None, Some (lit "No supervoxels found")), s')
      | (Raised e, s') => ((root_id, None, Some e), s')
      end
  end.
End Worker.

Definition chunk_size : nat := 5000.

Section Resolve.
Context {St : Type}.
(** [client.chunkedgraph.get_roots(chunk)] *)
Variable get_roots : list N -> St -> outcome (list N) * St.

(** The loop of step 2; a fault of [get_roots] is not caught and ends
    the run. *)
Fixpoint step2_loop (chunks : list (list N)) (sv_to_root : dict N N) (s : St)
    : outcome (dict N N) * St :=
  match chunks with
  | [] => (Returned sv_to_root, s)
  | chunk :: rest =>
      match get_roots chunk s with
      | (Raised e, s') => (Raised e, s')
      | (Returned new_roots, s') =>
          step2_loop rest (dict_update sv_to_root (zip chunk new_roots)) s'
      end
  end.

Definition step2 (id_to_sv : dict pystr N) (s : St) : outcome (dict N N) * St :=
  let sv_list := dict_values id_to_sv in
  step2_loop (py_chunks chunk_size sv_list) [] s.
End Resolve.

(** The accumulators of step 3. *)
Record report := {
  lines : list pystr;
  changed_count : nat;
  unchanged_count : nat;
  error_count : nat;
  updated_ids : list pystr
}.

Definition report_empty : report :=
  {| lines := []; changed_count := 0; unchanged_count := 0;
     error_count := 0; updated_ids := [] |}.

Definition line_error (old_id reason : pystr) : pystr :=
  lit "# ERROR: " ++ old_id ++ lit " - " ++ reason.
Definition line_changed (old_id new_id : pystr) : pystr :=
  old_id ++ lit "    ->    " ++ new_id.
Definition line_unchanged (old_id : pystr) : pystr :=
  old_id ++ lit "    [OK - Current]".

Definition add_error (r : report) (old_id reason : pystr) : report :=
  {| lines := lines r ++ [line_error old_id reason];
     changed_count := changed_count r;
     unchanged_count := unchanged_count r;
     error_count := error_count r + 1;
     updated_ids := updated_ids r ++ [old_id] |}.

Definition add_changed (r : report) (old_id new_id : pystr) : report :=
  {| lines := lines r ++ [line_changed old_id new_id];
     changed_count := changed_count r + 1;
     unchanged_count := unchanged_count r;
     error_count := error_count r;
     updated_ids := updated_ids r ++ [new_id] |}.

Definition add_unchanged (r : report) (old_id : pystr) : report :=
  {| lines := lines r ++ [line_unchanged old_id];
     changed_count := changed_count r;
     unchanged_count := unchanged_count r + 1;
     error_count := error_count r;
     updated_ids := updated_ids r ++ [old_id] |}.

Section Assemble.
Variable id_to_sv : dict pystr N.
Variable errors : dict pystr (option pystr).
Variable sv_to_root : dict N N.

(** One turn of the loop [for old_id in all_ids] of step 3. *)
Definition step3_body (r : report) (old_id : pystr) : report :=
  match dict_get errors old_id with
  | Some err => add_error r old_id (fmt_opt err)
  | None =>
      match dict_get id_to_sv old_id with
      | Some sv =>
          match dict_get sv_to_root sv with
          | Some root =>
              let new_id := py_str root in
              if decide (new_id <> old_id)
              then add_changed r old_id new_id
              else add_unchanged r old_id
          | None => add_error r old_id (lit "lookup failed")
          end
      | None => add_error r old_id (lit "lookup failed")
      end
  end.

Definition step3 (all_ids : list pystr) : report :=
  fold_left step3_body all_ids report_empty.
End Assemble.

(** What a run leaves behind once the tasks of step 1 have completed in
    the order [completed]: [Returned] the report that is written, or
    [Raised] when a fault ended the run before anything was written. *)
Definition finish {St} (get_roots : list N -> St -> outcome (list N) * St)
    (all_ids : list pystr) (completed : list task_result) (s : St)
    : outcome report * St :=
  let '(id_to_sv, errors) := collect completed in
  match step2 get_roots id_to_sv s with
  | (Raised e, s') => (Raised e, s')
  | (Returned sv_to_root, s') =>
      (Returned (step3 id_to_sv errors sv_to_root all_ids), s')
  end.

End Validate.

(** ** Numbers of the interpreter

    A number decoded from the service's answers is an integer or a float.
    Floats are binary64, here the values of the Standard Library's
    [spec_float] with 53 bits of precision; the messages of the exceptions
    are those of CPython 3.11 and play no part in what follows. *)

Inductive pynum : Type :=
  | PyInt (z : Z)
  | PyFloat (f : spec_float).

(** [float(z)]: the nearest float, ties to even. *)
Definition b64_of_int (z : Z) : spec_float := binary_normalize 53 1024 z 0 false.

(** An integer operand met with a float is first made a float, which
    raises when the integer is beyond the floats. *)
Definition to_float (x : pynum) : outcome spec_float :=
  match x with
  | PyFloat f => Returned f
  | PyInt z =>
      match b64_of_int z with
      | S754_infinity _ => Raised (lit "int too large to convert to float")
      | f => Returned f
      end
  end.

(** [a / b] on two floats. *)
Definition b64_truediv (a b : spec_float) : outcome spec_float :=
  match b with
  | S754_zero _ => Raised (lit "float division by zero")
  | _ => Returned (SFdiv 53 1024 a b)
  end.

(** [a / b] on two integers, [b] not zero: the float nearest to the
    quotient of the integers, which is rounded once (the operands are not
    made floats first). *)
Definition b64_div_int (a b : Z) : spec_float :=
  let sign := xorb (a <? 0)%Z (b <? 0)%Z in
  match a with
  | Z0 => S754_zero sign
  | _ =>
      let '(q, e, l) := SFdiv_core_binary 53 1024 (Z.abs a) 0 (Z.abs b) 0 in
      binary_round_aux 53 1024 sign q e l
  end.

(** [a / b], true division. *)
Definition py_truediv (a b : pynum) : outcome spec_float :=
  match a, b with
  | PyInt x, PyInt y =>
      if (y =? 0)%Z then Raised (lit "division by zero")
      else match b64_div_int x y with
           | S754_infinity _ =>
               Raised (lit "integer division result too large for a float")
           | q => Returned q
           end
  | _, _ =>
      match to_float a with
      | Raised e => Raised e
      | Returned x =>
          match to_float b with
          | Raised e => Raised e
          | Returned y => b64_truediv x y
          end
      end
  end.

(** [int(f)] drops the fractional part and raises on an infinity or a
    NaN. *)
Definition b64_int (f : spec_float) : outcome Z :=
  match f with
  | S754_zero _ => Returned 0%Z
  | S754_finite sign m e =>
      let magnitude :=
        if (0 <=? e)%Z then (Zpos m * 2 ^ e)%Z else (Zpos m / 2 ^ (- e))%Z in
      Returned (if sign then (- magnitude)%Z else magnitude)
  | S754_infinity _ => Raised (lit "cannot convert float infinity to integer")
  | S754_nan => Raised (lit "cannot convert float NaN to integer")
  end.

(** ** [fast_get_coords.py] *)

Module Coords.

Section Parser.
Variable other_digit : codepoint -> bool.

(** One turn of the loop [for line in f] of [parse_id_file]. *)
Definition parse_line (ids : list pystr) (raw : pystr) : list pystr :=
  let line := py_strip raw in
  if negb (nonempty line) || py_startswith (lit "#") line then ids
  else if py_contains [arrow] line then
    let parts := py_split [arrow] line in
    let id_part := py_strip (py_last parts) in
    if nonempty id_part && py_isdigit other_digit id_part
    then ids ++ [id_part] else ids
  else if py_contains (lit "->") line then
    let parts := py_split (lit "->") line in
    let id_part := py_strip (py_last parts) in
    if nonempty id_part && py_isdigit other_digit id_part
    then ids ++ [id_part] else ids
  else if py_isdigit other_digit line then ids ++ [line]
  else ids.

Definition parse_id_file (file : list pystr) : list pystr :=
  fold_left parse_line file [].
End Parser.

Section Worker.
Variable int_other : pystr -> Z + pystr.
Context {St : Type}.
(** [client.chunkedgraph.get_leaves(root, stop_layer=layer)] *)
Variable get_leaves : Z -> Z -> St -> outcome (list N) * St.

Definition get_one_l2 (root_id : pystr) (s : St) : task_result * St :=
  match py_int int_other root_id with
  | inr e => ((root_id, None, Some e), s)
  | inl n =>
      match get_leaves n 2%Z s with
      | (Returned (l2 :: _), s') => ((root_id, Some l2, None), s')
      | (Returned [], s') => ((root_id, None, Some (lit "No L2 chunks found")), s')
      | (Raised e, s') => ((root_id, None, Some e), s')
      end
  end.
End Worker.

Definition chunk_size : nat := 100.

(** The attributes the cache holds for one L2 identifier; the only one
    requested is [rep_coord_nm], a triple of nanometre coordinates, which
    may be missing. *)
Record l2_attrs := { rep_coord_nm : option (pynum * pynum * pynum) }.

Section Fetch.
Context {St : Type}.
(** [client.l2cache.get_l2data(chunk, attributes=["rep_coord_nm"])]; the
    answer is keyed by the decimal text of the identifiers. *)
Variable get_l2data : list N -> St -> outcome (dict pystr l2_attrs) * St.

(** The loop of step 2; a fault is caught, reported on the console and
    the loop goes on with the next chunk. *)
Fixpoint step2_loop (chunks : list (list N)) (l2_data : dict pystr l2_attrs)
    (s : St) : dict pystr l2_attrs * St :=
  match chunks with
  | [] => (l2_data, s)
  | chunk :: rest =>
      match get_l2data chunk s with
      | (Returned chunk_data, s') =>
          step2_loop rest (dict_update l2_data chunk_data) s'
      | (Raised _, s') => step2_loop rest l2_data s'
      end
  end.

Definition step2 (id_to_l2 : dict pystr N) (s : St) : dict pystr l2_attrs * St :=
  let all_l2_ids := dict_values id_to_l2 in
  step2_loop (py_chunks chunk_size all_l2_ids) [] s.
End Fetch.

(** [int(a / b)] *)
Definition to_voxel (a b : pynum) : outcome Z :=
  match py_truediv a b with
  | Returned q => b64_int q
  | Raised e => Raised e
  end.

Record report := {
  lines : list pystr;
  success_count : nat;
  fail_count : nat
}.

Definition header : pystr := lit "root_id" ++ [9] ++ lit "x" ++ [9] ++ lit "y" ++ [9] ++ lit "z".

Definition report_start : report :=
  {| lines := [header]; success_count := 0; fail_count := 0 |}.

Definition row (root_id x y z : pystr) : pystr :=
  root_id ++ [9] ++ x ++ [9] ++ y ++ [9] ++ z.

Definition add_fail (r : report) (root_id mark : pystr) : report :=
  {| lines := lines r ++ [row root_id mark mark mark];
     success_count := success_count r;
     fail_count := fail_count r + 1 |}.

Definition add_coords (r : report) (root_id : pystr) (x y z : Z) : report :=
  {| lines := lines r ++ [row root_id (py_str_Z x) (py_str_Z y) (py_str_Z z)];
     success_count := success_count r + 1;
     fail_count := fail_count r |}.

Section Assemble.
Variable viewer_res : pynum * pynum * pynum.
Variable id_to_l2 : dict pystr N.
Variable errors : dict pystr (option pystr).
Variable l2_data : dict pystr l2_attrs.

(** The three conversions of one row, in the order of the source. *)
Definition convert (rep_coord : pynum * pynum * pynum) : outcome (Z * Z * Z) :=
  let '(r0, r1, r2) := rep_coord in
  let '(v0, v1, v2) := viewer_res in
  match to_voxel r0 v0 with
  | Raised e => Raised e
  | Returned x =>
      match to_voxel r1 v1 with
      | Raised e => Raised e
      | Returned y =>
          match to_voxel r2 v2 with
          | Raised e => Raised e
          | Returned z => Returned (x, y, z)
          end
      end
  end.

(** One turn of the loop [for root_id in all_ids] of step 3. *)
Definition step3_body (r : report) (root_id : pystr) : outcome report :=
  if dict_in root_id errors then Returned (add_fail r root_id (lit "ERROR"))
  else
    match dict_get id_to_l2 root_id with
    | Some l2_id =>
        let l2_key := py_str l2_id in
        match dict_get l2_data l2_key with
        | Some {| rep_coord_nm := Some rep_coord |} =>
            match convert rep_coord with
            | Returned (x, y, z) => Returned (add_coords r root_id x y z)
            | Raised e => Raised e
            end
        | _ => Returned (add_fail r root_id (lit "N/A"))
        end
    | None => Returned (add_fail r root_id (lit "N/A"))
    end.

Fixpoint step3_loop (ids : list pystr) (r : report) : outcome report :=
  match ids with
  | [] => Returned r
  | root_id :: rest =>
      match step3_body r root_id with
      | Returned r' => step3_loop rest r'
      | Raised e => Raised e
      end
  end.

Definition step3 (all_ids : list pystr) : outcome report :=
  step3_loop all_ids report_start.
End Assemble.

(** What a run leaves behind once the tasks of step 1 have completed in
    the order [completed]. *)
Definition finish {St} (get_l2data : list N -> St -> outcome (dict pystr l2_attrs) * St)
    (viewer_res : pynum * pynum * pynum) (all_ids : list pystr)
    (completed : list task_result) (s : St) : outcome report * St :=
  let '(id_to_l2, errors) := collect completed in
  let '(l2_data, s') := step2 get_l2data id_to_l2 s in
  (step3 viewer_res id_to_l2 errors l2_data all_ids, s').

End Coords.

(** ** Vocabulary of the statements *)

(** The outcome of one stage-A task as the specification names it. *)
Inductive lookup_outcome : Type :=
  | Resolved (leaf : N)
  | Failed (reason : pystr).

(** Reading a worker's triple as an outcome; a triple with both or neither
    of its two last fields set is not one. *)
Definition as_outcome (r : task_result) : option lookup_outcome :=
  match r with
  | (_, Some leaf, None) => Some (Resolved leaf)
  | (_, None, Some reason) => Some (Failed reason)
  | _ => None
  end.

Definition task_id (r : task_result) : pystr := r.1.1.
Definition task_leaf (r : task_result) : option N := r.1.2.

(** The bindings stage A files in each of its two maps, in completion
    order. *)
Definition leaf_bindings (completed : list task_result) : list (pystr * N) :=
  omap (fun r => match task_leaf r with
                 | Some v => Some (task_id r, v)
                 | None => None
                 end) completed.

Definition error_bindings (completed : list task_result)
    : list (pystr * option pystr) :=
  omap (fun r => match task_leaf r with
                 | Some _ => None
                 | None => Some (task_id r, r.2)
                 end) completed.

(** Calls issued one after the other on the service, each on the state the
    previous one left. *)
Fixpoint call_all {St A B} (f : A -> St -> B * St) (l : list A) (s : St)
    : list B * St :=
  match l with
  | [] => ([], s)
  | a :: l' =>
      let '(b, s1) := f a s in
      let '(bs, s2) := call_all f l' s1 in
      (b :: bs, s2)
  end.

(** A service without state: the answer depends on the request only. *)
Definition stateless {A B} (f : A -> B) : A -> unit -> B * unit :=
  fun a s => (f a, s).

Definition all_returned {A} (rs : list (outcome A)) : Prop :=
  Forall (fun r => match r with Returned _ => True | Raised _ => False end) rs.

(** The text after the last occurrence of [sep] in [s], when [sep] occurs:
    the occurrence that starts furthest to the right decides. *)
Fixpoint text_after_last (sep s : pystr) : option pystr :=
  match s with
  | [] => None
  | _ :: s' =>
      match text_after_last sep s' with
      | Some t => Some t
      | None => if py_startswith sep s then Some (drop (length sep) s) else None
      end
  end.

(** The grammar of section 4.1 of the specification for one trimmed line:
    nothing for a blank line or a comment; else the text after the last
    Unicode arrow; else the text after the last ASCII arrow; else the line
    itself; and in each case only if what is left, trimmed, is all digits. *)
Definition grammar_line (other_digit : codepoint -> bool) (line : pystr)
    : option pystr :=
  let digits (t : pystr) := if py_isdigit other_digit t then Some t else None in
  match line with
  | [] => None
  | 35 :: _ => None
  | _ =>
      match text_after_last [arrow] line with
      | Some t => digits (py_strip t)
      | None =>
          match text_after_last (lit "->") line with
          | Some t => digits (py_strip t)
          | None => digits line
          end
      end
  end.

(** What the specification makes of an answer of [get_leaves]. *)
Definition answer_outcome (empty_reason : pystr) (resp : outcome (list N))
    : lookup_outcome :=
  match resp with
  | Returned (leaf :: _) => Resolved leaf
  | Returned [] => Failed empty_reason
  | Raised e => Failed e
  end.

(** The report of a single identifier, and reports put end to end: step 3
    is the reports of the identifiers one after the other. *)
Definition validator_entry (id_to_sv : dict pystr N)
    (errors : dict pystr (option pystr)) (sv_to_root : dict N N)
    (old_id : pystr) : Validate.report :=
  Validate.step3_body id_to_sv errors sv_to_root Validate.report_empty old_id.

Definition validator_join (r1 r2 : Validate.report) : Validate.report :=
  {| Validate.lines := Validate.lines r1 ++ Validate.lines r2;
     Validate.changed_count := Validate.changed_count r1 + Validate.changed_count r2;
     Validate.unchanged_count := Validate.unchanged_count r1 + Validate.unchanged_count r2;
     Validate.error_count := Validate.error_count r1 + Validate.error_count r2;
     Validate.updated_ids := Validate.updated_ids r1 ++ Validate.updated_ids r2 |}.

Definition coords_none : Coords.report :=
  {| Coords.lines := []; Coords.success_count := 0; Coords.fail_count := 0 |}.

Definition coords_entry (viewer_res : pynum * pynum * pynum) (id_to_l2 : dict pystr N)
    (errors : dict pystr (option pystr)) (l2_data : dict pystr Coords.l2_attrs)
    (root_id : pystr) : outcome Coords.report :=
  Coords.step3_body viewer_res id_to_l2 errors l2_data coords_none root_id.

Definition coords_join (r1 r2 : Coords.report) : Coords.report :=
  {| Coords.lines := Coords.lines r1 ++ Coords.lines r2;
     Coords.success_count := Coords.success_count r1 + Coords.success_count r2;
     Coords.fail_count := Coords.fail_count r1 + Coords.fail_count r2 |}.

(** A report line that belongs to a given identifier. *)
Definition validator_row_of (old_id line : pystr) : Prop :=
  line = Validate.line_unchanged old_id
  ∨ (∃ new_id, line = Validate.line_changed old_id new_id)
  ∨ (∃ reason, line = Validate.line_error old_id reason).

Definition coords_row_of (root_id line : pystr) : Prop :=
  ∃ x y z, line = Coords.row root_id x y z.

Definition nonzero3 (v : Z * Z * Z) : Prop :=
  (v.1.1 ≠ 0 ∧ v.1.2 ≠ 0 ∧ v.2 ≠ 0)%Z.

(** A number that holds the integer [z]: the integer itself, or the float
    of that value. *)
Definition stands_for (x : pynum) (z : Z) : Prop :=
  x = PyInt z ∨ x = PyFloat (b64_of_int z).

(** The integers below [2^53] in magnitude: binary64 holds each of them. *)
Definition small (z : Z) : Prop := (Z.abs z < 2 ^ 53)%Z.

Definition stands_for3 (v : pynum * pynum * pynum) (z : Z * Z * Z) : Prop :=
  (stands_for v.1.1 z.1.1 ∧ small z.1.1)
  ∧ (stands_for v.1.2 z.1.2 ∧ small z.1.2)
  ∧ (stands_for v.2 z.2 ∧ small z.2).

(** Every coordinate of the cache holds three small integers. *)
Definition small_coords (l2_data : dict pystr Coords.l2_attrs) : Prop :=
  ∀ key attrs rep,
    (key, attrs) ∈ l2_data → Coords.rep_coord_nm attrs = Some rep →
    ∃ z, stands_for3 rep z.

(** The rational value of a float that has one. *)
Definition b64_value (f : spec_float) : option Q :=
  match f with
  | S754_zero _ => Some 0%Q
  | S754_finite sign m e =>
      let v := if (0 <=? e)%Z then inject_Z (Zpos m * 2 ^ e)
               else (Zpos m # Z.to_pos (2 ^ (- e)))%Q in
      Some (if sign then (- v)%Q else v)
  | S754_infinity _ | S754_nan => None
  end.

(** [n] is the rational [v] with its fractional part dropped. *)
Definition Q_truncation (v : Q) (n : Z) : Prop :=
  (inject_Z (Z.abs n) <= Qabs v)%Q
  ∧ (Qabs v < inject_Z (Z.abs n + 1))%Q
  ∧ (0 <= inject_Z n * v)%Q.

(** [n] is the float quotient [a / b] with its fractional part dropped. *)
Definition float_truncation (a b : pynum) (n : Z) : Prop :=
  ∃ q v, py_truediv a b = Returned q ∧ b64_value q = Some v ∧ Q_truncation v n.

(** [n] is the quotient of [a] by [b] with its fractional part dropped:
    the integer nearest to zero among the two that enclose [a / b]. *)
Definition truncation_of (a b n : Z) : Prop :=
  (Z.abs b * Z.abs n <= Z.abs a < Z.abs b * (Z.abs n + 1))%Z
  ∧ (0 <= n * (a * b))%Z.

(** All tasks of one identifier end alike: all with a leaf or all without. *)
Definition same_ending (completed : list task_result) : Prop :=
  ∀ r r', r ∈ completed → r' ∈ completed → task_id r = task_id r' →
    (is_Some (task_leaf r) ↔ is_Some (task_leaf r')).

(** What one answer of the attribute cache does to [l2_data] in step 2 of
    the coordinate fetcher: a returned dictionary is merged, a fault leaves
    the map as it was. *)
Definition absorb (l2_data : dict pystr Coords.l2_attrs)
    (answer : outcome (dict pystr Coords.l2_attrs)) : dict pystr Coords.l2_attrs :=
  match answer with
  | Returned chunk_data => dict_update l2_data chunk_data
  | Raised _ => l2_data
  end.

(** Services that answer a batch item by item.  Root resolution gives the
    root of every leaf in its place and faults, with one message, on any
    batch holding a leaf marked by [fails]; the attribute cache gives the
    attributes of the leaves it knows and never faults. *)
Definition itemwise_roots (root_of : N -> N) (fails : N -> bool) (msg : pystr)
    : list N -> unit -> outcome (list N) * unit :=
  stateless (fun chunk =>
    if existsb fails chunk then Raised msg else Returned (root_of <$> chunk)).

Definition itemwise_l2data (attrs_of : N -> option Coords.l2_attrs)
    : list N -> unit -> outcome (dict pystr Coords.l2_attrs) * unit :=
  stateless (fun chunk =>
    Returned (omap (fun l => match attrs_of l with
                             | Some a => Some (py_str l, a)
                             | None => None
                             end) chunk)).

(** The tasks of step 1 on a service without state, in the order of the
    input. *)
Definition validator_tasks (int_other : pystr -> Z + pystr)
    (get_leaves : Z -> outcome (list N)) (all_ids : list pystr)
    : list task_result :=
  (fun rid => (Validate.get_one_supervoxel int_other (stateless get_leaves) rid tt).1)
    <$> all_ids.

Definition coords_tasks (int_other : pystr -> Z + pystr)
    (get_leaves : Z -> Z -> outcome (list N)) (all_ids : list pystr)
    : list task_result :=
  (fun rid => (Coords.get_one_l2 int_other
                 (fun root layer => stateless (get_leaves root) layer) rid tt).1)
    <$> all_ids.

(** ** Concrete runs used below *)

(** No character outside ASCII is a digit, and [int] refuses every string
    that is not a run of ASCII digits: the tables restricted to ASCII. *)
Definition ascii_only_digit : codepoint -> bool := fun _ => false.
Definition ascii_only_int : pystr -> Z + pystr :=
  fun _ => inr (lit "invalid literal for int() with base 10").

(** A service whose first call answers and whose later calls time out; its
    state counts the calls received. *)
Definition flaky_get_leaves (root : Z) (calls : nat) : outcome (list N) * nat :=
  (match calls with
   | O => Returned [7]
   | S _ => Raised (lit "timed out")
   end, S calls).

(** The identifier [42] listed twice, and the two tasks run on the flaky
    service one after the other. *)
Definition twice_ids : list pystr := [lit "42"; lit "42"].

Definition twice_completed : list task_result :=
  let '(r1, s1) := Validate.get_one_supervoxel ascii_only_int flaky_get_leaves (lit "42") O in
  let '(r2, _) := Validate.get_one_supervoxel ascii_only_int flaky_get_leaves (lit "42") s1 in
  [r1; r2].

(** A file of the 101 identifiers [1] to [101].  Every identifier has one
    L2 leaf, its own number; with [shared] set, identifier [101] has the leaf
    of identifier [1] instead.  The attribute cache answers a batch item by
    item and times out on any batch that holds the leaf [poison]. *)
Definition demo_ids : list pystr :=
  (fun k => py_str (N.of_nat k)) <$> seq 1 101.

Definition demo_get_leaves (shared : bool) (root layer : Z) : outcome (list N) :=
  Returned [if shared && (root =? 101)%Z then 1 else Z.to_N root].

Definition demo_attrs (l : N) : Coords.l2_attrs :=
  {| Coords.rep_coord_nm :=
       Some (PyInt (Z.of_N l * 4), PyInt 800, PyInt 1600) |}.

Definition demo_get_l2data (poison : N) (chunk : list N) (s : unit)
    : outcome (dict pystr Coords.l2_attrs) * unit :=
  (if existsb (N.eqb poison) chunk
   then Raised (lit "504 Gateway Timeout")
   else Returned ((fun l => (py_str l, demo_attrs l)) <$> chunk), s).

Definition demo_tasks (shared : bool) : list task_result :=
  coords_tasks ascii_only_int (demo_get_leaves shared) demo_ids.

Definition demo_report (poison : N) (completed : list task_result)
    : outcome Coords.report :=
  (Coords.finish (demo_get_l2data poison) (PyInt 4, PyInt 4, PyInt 40)
     demo_ids completed tt).1.

(** ** Further vocabulary *)

(** A service that also keeps the list of the requests it received, in
    the order it received them. *)
Definition recording {St A B} (f : A -> St -> B * St) (a : A) (ls : list A * St)
    : B * (list A * St) :=
  let '(b, s') := f a ls.2 in (b, (ls.1 ++ [a], s')).

(** The current root step 3 of the validator finds for an identifier: none
    when the identifier is in the error map, has no leaf, or its leaf has no
    root. *)
Definition root_found (id_to_sv : dict pystr N) (errors : dict pystr (option pystr))
    (sv_to_root : dict N N) (old_id : pystr) : option N :=
  match dict_get errors old_id with
  | Some _ => None
  | None =>
      match dict_get id_to_sv old_id with
      | Some sv => dict_get sv_to_root sv
      | None => None
      end
  end.

(** The raw coordinate step 3 of the coordinate fetcher finds for an
    identifier. *)
Definition coord_found (id_to_l2 : dict pystr N) (errors : dict pystr (option pystr))
    (l2_data : dict pystr Coords.l2_attrs) (root_id : pystr)
    : option (pynum * pynum * pynum) :=
  if dict_in root_id errors then None
  else
    match dict_get id_to_l2 root_id with
    | Some l2_id =>
        match dict_get l2_data (py_str l2_id) with
        | Some a => Coords.rep_coord_nm a
        | None => None
        end
    | None => None
    end.

(** What holds of the interpreter's digit table: outside [0-9] no ASCII
    character is a digit, and the arrow is not one. *)
Definition unicode_digits (other_digit : codepoint -> bool) : Prop :=
  other_digit arrow = false ∧ ∀ c, c < 128 → other_digit c = false.

(** ** The files written and read

    [sep.join(parts)], the text the scripts hand to [f.write], and the
    lines a text file yields to [for line in f]: the reader first turns every
    carriage return, alone or before a line feed, into a line feed, then cuts
    after every line feed.  A text is read as it was handed to [f.write],
    its line feeds stored as they are. *)

Fixpoint py_join (sep : pystr) (parts : list pystr) : pystr :=
  match parts with
  | [] => []
  | p :: rest =>
      match rest with
      | [] => p
      | _ :: _ => p ++ sep ++ py_join sep rest
      end
  end.

Fixpoint universal_newlines (text : pystr) : pystr :=
  match text with
  | [] => []
  | c :: t =>
      if c =? 13
      then 10 :: match t with
                 | [] => []
                 | c' :: t' => if c' =? 10 then universal_newlines t'
                               else universal_newlines t
                 end
      else c :: universal_newlines t
  end.

Fixpoint lines_go (cur text : pystr) : list pystr :=
  match text with
  | [] => match cur with [] => [] | _ :: _ => [rev cur] end
  | c :: t =>
      if c =? 10 then rev (c :: cur) :: lines_go [] t
      else lines_go (c :: cur) t
  end.

Definition py_file_lines (text : pystr) : list pystr :=
  lines_go [] (universal_newlines text).

(** The report of the validator as [main] writes it.  [total_time] is the
    text of the elapsed seconds, which the model does not compute. *)
Definition validate_report_text (total_time : pystr) (workers : Z)
    (all_ids : list pystr) (r : Validate.report) : pystr :=
  lit "# ID Validation Report" ++ [10]
  ++ lit "# Total IDs: " ++ py_str (N.of_nat (length all_ids)) ++ [10]
  ++ lit "# Changed: " ++ py_str (N.of_nat (Validate.changed_count r)) ++ [10]
  ++ lit "# Unchanged: " ++ py_str (N.of_nat (Validate.unchanged_count r)) ++ [10]
  ++ lit "# Errors: " ++ py_str (N.of_nat (Validate.error_count r)) ++ [10]
  ++ lit "# Time: " ++ total_time ++ lit "s" ++ [10]
  ++ lit "# Workers: " ++ py_str_Z workers ++ [10]
  ++ [10] ++ lit "---RESULTS---" ++ [10; 10]
  ++ py_join [10] (Validate.lines r).

(** The file of clean identifiers, and the output of the coordinate
    fetcher. *)
Definition validate_clean_text (r : Validate.report) : pystr :=
  py_join [10] (Validate.updated_ids r).

Definition coords_output_text (r : Coords.report) : pystr :=
  py_join [10] (Coords.lines r).

(** The two percentages of the validator's summary, [changed_count /
    len(all_ids) * 100] and the same for the unchanged, before they are
    formatted.  The operands are counters and the quotient is kept exact
    here: rounding to binary64 keeps the order and keeps 0, 1 and 100, so it
    leaves the fault and the bounds below as they are. *)
Definition exact_truediv (a b : Z) : outcome Q :=
  if (b =? 0)%Z then Raised (lit "division by zero")
  else Returned (inject_Z a / inject_Z b)%Q.

Definition validate_summary (all_ids : list pystr) (r : Validate.report)
    : outcome (Q * Q) :=
  match exact_truediv (Z.of_nat (Validate.changed_count r))
          (Z.of_nat (length all_ids)) with
  | Raised e => Raised e
  | Returned c =>
      match exact_truediv (Z.of_nat (Validate.unchanged_count r))
              (Z.of_nat (length all_ids)) with
      | Raised e => Raised e
      | Returned u => Returned (c * 100, u * 100)%Q
      end
  end.

(** A text without a given character, and a text without line break. *)
Definition lacks (a : codepoint) (s : pystr) : bool :=
  forallb (fun c => negb (c =? a)) s.

Definition one_line (s : pystr) : bool := lacks 10 s && lacks 13 s.

(** The identifiers the validator reports as replaced, in the order of the
    list. *)
Definition replaced_ids (id_to_sv : dict pystr N)
    (errors : dict pystr (option pystr)) (sv_to_root : dict N N)
    (all_ids : list pystr) : list pystr :=
  omap (fun old_id =>
          match root_found id_to_sv errors sv_to_root old_id with
          | Some root =>
              if decide (py_str root <> old_id) then Some (py_str root) else None
          | None => None
          end) all_ids.

(** The lines of the validator's report that come before the rows. *)
Definition validate_report_head (total_time : pystr) (workers : Z)
    (all_ids : list pystr) (r : Validate.report) : list pystr :=
  [ lit "# ID Validation Report";
    lit "# Total IDs: " ++ py_str (N.of_nat (length all_ids));
    lit "# Changed: " ++ py_str (N.of_nat (Validate.changed_count r));
    lit "# Unchanged: " ++ py_str (N.of_nat (Validate.unchanged_count r));
    lit "# Errors: " ++ py_str (N.of_nat (Validate.error_count r));
    lit "# Time: " ++ total_time ++ lit "s";
    lit "# Workers: " ++ py_str_Z workers;
    [];
    lit "---RESULTS---";
    [] ].

(** A row of the coordinate report for a given identifier whose three
    other cells are free of the character [a]. *)
Definition coords_cells (a : codepoint) (root_id line : pystr) : Prop :=
  ∃ x y z, line = Coords.row root_id x y z
           ∧ lacks a x = true ∧ lacks a y = true ∧ lacks a z = true.

(** The pairs of a leaf and the root given for it, chunk after chunk, as
    the loop of step 2 of the validator meets them in the answers. *)
Fixpoint root_pairs (chunks : list (list N)) (answers : list (outcome (list N)))
    : list (N * N) :=
  match chunks, answers with
  | chunk :: chunks', Returned roots :: answers' =>
      zip chunk roots ++ root_pairs chunks' answers'
  | _ :: chunks', Raised _ :: answers' => root_pairs chunks' answers'
  | _, _ => []
  end.

(** Every answer that came back is as long as the chunk that was sent. *)
Definition answers_fit (chunks : list (list N)) (answers : list (outcome (list N)))
    : Prop :=
  Forall2 (fun chunk answer =>
             match answer with
             | Returned roots => length roots = length chunk
             | Raised _ => True
             end) chunks answers.

(** ** Proof tactics *)

(** Two reports built field by field are equal when their lines agree and
    their counters agree as numbers. *)
Ltac same_report :=
  unfold Validate.add_error, Validate.add_changed, Validate.add_unchanged,
    Coords.add_fail, Coords.add_coords;
  simpl; f_equal; lia.


(** * Facts about the model *)

(** ** Dictionaries *)

Section DictFacts.
Context {K V : Type} `{EqDecision K}.
Implicit Types (d : dict K V) (k : K) (v : V).

Lemma dict_get_set d k v k' :
  dict_get (dict_set d k v) k' = if decide (k = k') then Some v else dict_get d k'.
Proof.
  induction d as [|[k0 v0] d IH]; simpl.
  - done.
  - destruct (decide (k0 = k)) as [->|Hne]; simpl.
    + destruct (decide (k = k')); done.
    + rewrite IH. destruct (decide (k0 = k')) as [->|]; [|done].
      destruct (decide (k = k')); congruence.
Qed.

Lemma dict_keys_set d k v k' :
  k' ∈ dict_keys (dict_set d k v) ↔ k' = k ∨ k' ∈ dict_keys d.
Proof.
  induction d as [|[k0 v0] d IH].
  - cbn. rewrite list_elem_of_singleton. split; [auto|].
    intros [?|?%elem_of_nil]; done.
  - cbn [dict_set]. destruct (decide (k0 = k)) as [->|Hne].
    + change (k' ∈ k :: dict_keys d ↔ k' = k ∨ k' ∈ k :: dict_keys d).
      rewrite elem_of_cons. tauto.
    + change (k' ∈ k0 :: dict_keys (dict_set d k v)
              ↔ k' = k ∨ k' ∈ k0 :: dict_keys d).
      rewrite !elem_of_cons, IH. tauto.
Qed.

Lemma dict_get_keys d k : is_Some (dict_get d k) ↔ k ∈ dict_keys d.
Proof.
  induction d as [|[k0 v0] d IH].
  - cbn. split; [intros [? ?]; done|intros ?%elem_of_nil; done].
  - cbn [dict_get]. change (dict_keys ((k0, v0) :: d)) with (k0 :: dict_keys d).
    rewrite elem_of_cons. destruct (decide (k0 = k)) as [->|Hne].
    + split; [auto|eauto].
    + rewrite IH. split; [auto|]. intros [?|?]; [congruence|done].
Qed.

Lemma dict_get_elem d k v : dict_get d k = Some v → (k, v) ∈ d.
Proof.
  induction d as [|[k0 v0] d IH]; simpl; [done|].
  destruct (decide (k0 = k)) as [->|Hne].
  - intros [= ->]. left.
  - intros. right. auto.
Qed.

Lemma dict_keys_update d (p : list (K * V)) k :
  k ∈ dict_keys (dict_update d p) ↔ k ∈ dict_keys d ∨ k ∈ p.*1.
Proof.
  unfold dict_update. revert d. induction p as [|[k0 v0] p IH]; intros d.
  - cbn. split; [auto|]. intros [?|?%elem_of_nil]; done.
  - cbn [fold_left fst snd]. rewrite IH, dict_keys_set, fmap_cons, elem_of_cons.
    cbn. tauto.
Qed.

Lemma dict_get_update d (p : list (K * V)) k v :
  dict_get (dict_update d p) k = Some v → (k, v) ∈ p ∨ dict_get d k = Some v.
Proof.
  unfold dict_update. revert d. induction p as [|[k0 v0] p IH]; intros d; simpl.
  - auto.
  - intros Hg. apply IH in Hg as [Hg|Hg]; [left; by right|].
    rewrite dict_get_set in Hg. destruct (decide (k0 = k)) as [->|]; [|auto].
    injection Hg as ->. left. left.
Qed.

Lemma dict_update_app d (p q : list (K * V)) :
  dict_update d (p ++ q) = dict_update (dict_update d p) q.
Proof. unfold dict_update. apply fold_left_app. Qed.

(** Two lists of bindings with the same members, in which a key has one
    value only, build dictionaries with the same lookups. *)
Lemma dict_update_lookup_ext (p q : list (K * V)) k :
  (∀ kv, kv ∈ p ↔ kv ∈ q) →
  (∀ k v v', (k, v) ∈ p → (k, v') ∈ p → v = v') →
  dict_get (dict_update [] p) k = dict_get (dict_update [] q) k.
Proof.
  intros Hpq Hfun.
  assert (Hk : k ∈ p.*1 ↔ k ∈ q.*1).
  { rewrite !list_elem_of_fmap. split; intros (kv & -> & Hin); exists kv; split; auto; by apply Hpq. }
  destruct (dict_get (dict_update [] p) k) as [v|] eqn:Hp;
    destruct (dict_get (dict_update [] q) k) as [v'|] eqn:Hq; [| | |done].
  - apply dict_get_update in Hp as [Hp|Hp]; [|done].
    apply dict_get_update in Hq as [Hq|Hq]; [|done].
    f_equal. apply (Hfun k); [done|by apply Hpq].
  - exfalso. assert (is_Some (dict_get (dict_update [] q) k)) as [? ?]; [|congruence].
    apply dict_get_keys, dict_keys_update. right. apply Hk.
    assert (k ∈ dict_keys (dict_update [] p)) as Hin by (apply dict_get_keys; eauto).
    apply dict_keys_update in Hin as [Hin|Hin]; [by apply elem_of_nil in Hin|done].
  - exfalso. assert (is_Some (dict_get (dict_update [] p) k)) as [? ?]; [|congruence].
    apply dict_get_keys, dict_keys_update. right. apply Hk.
    assert (k ∈ dict_keys (dict_update [] q)) as Hin by (apply dict_get_keys; eauto).
    apply dict_keys_update in Hin as [Hin|Hin]; [by apply elem_of_nil in Hin|done].
Qed.
End DictFacts.

Section DictOrder.
Context {K V : Type} `{EqDecision K}.
Implicit Types (d : dict K V) (k : K) (v : V).

Lemma dict_set_keys d k v :
  dict_keys (dict_set d k v)
  = if decide (k ∈ dict_keys d) then dict_keys d else dict_keys d ++ [k].
Proof.
  induction d as [|[k0 v0] d IH]; [done|]. cbn [dict_set].
  change (dict_keys ((k0, v0) :: d)) with (k0 :: dict_keys d).
  destruct (decide (k0 = k)) as [->|Hne].
  - rewrite decide_True by left. done.
  - change (dict_keys ((k0, v0) :: dict_set d k v))
      with (k0 :: dict_keys (dict_set d k v)).
    rewrite IH. destruct (decide (k ∈ dict_keys d)) as [Hin|Hout].
    + rewrite decide_True by (by right). done.
    + rewrite decide_False; [done|].
      intros [?|?]%elem_of_cons; [congruence|done].
Qed.

Lemma dict_set_NoDup d k v : NoDup (dict_keys d) → NoDup (dict_keys (dict_set d k v)).
Proof.
  intros Hnd. rewrite dict_set_keys. destruct (decide (k ∈ dict_keys d)); [done|].
  apply NoDup_app. split; [done|]. split; [|apply NoDup_singleton].
  intros x Hx ->%list_elem_of_singleton. done.
Qed.

Lemma dict_update_NoDup d (p : list (K * V)) :
  NoDup (dict_keys d) → NoDup (dict_keys (dict_update d p)).
Proof.
  unfold dict_update. revert d. induction p as [|[k v] p IH]; intros d Hnd; [done|].
  simpl. by apply IH, dict_set_NoDup.
Qed.

Lemma dict_values_get d v :
  NoDup (dict_keys d) → v ∈ dict_values d ↔ ∃ k, dict_get d k = Some v.
Proof.
  unfold dict_keys, dict_values. induction d as [|[k0 v0] d IH]; simpl.
  - intros _. split; [by intros ?%elem_of_nil|by intros [? ?]].
  - intros [Hk0 Hnd]%NoDup_cons. rewrite elem_of_cons, (IH Hnd). split.
    + intros [->|[k Hk]].
      * exists k0. by rewrite decide_True.
      * exists k. rewrite decide_False; [done|]. intros ->.
        apply Hk0. apply dict_get_keys. eauto.
    + intros [k Hk]. destruct (decide (k0 = k)); [left; congruence|right; eauto].
Qed.

(** Maps with the same lookups hold the same values, in whatever order. *)
Lemma dict_values_same d d' :
  NoDup (dict_keys d) → NoDup (dict_keys d') →
  (∀ k, dict_get d k = dict_get d' k) →
  ∀ v, v ∈ dict_values d ↔ v ∈ dict_values d'.
Proof.
  intros Hd Hd' Heq v. rewrite !dict_values_get by done.
  split; intros [k Hk]; exists k; by rewrite ?Heq in *.
Qed.
End DictOrder.

(** ** Decimal text *)

Lemma cps_uint_cps (d : Decimal.uint) : cps_uint (uint_cps d) = d.
Proof. induction d; simpl; by rewrite ?IHd. Qed.

Lemma ascii_digit_cases (c : codepoint) :
  ascii_digit c = true →
  c = 48 ∨ c = 49 ∨ c = 50 ∨ c = 51 ∨ c = 52 ∨ c = 53 ∨ c = 54 ∨ c = 55
  ∨ c = 56 ∨ c = 57.
Proof.
  unfold ascii_digit. rewrite andb_true_iff, !N.leb_le. lia.
Qed.

Lemma uint_cps_uint (s : pystr) :
  forallb ascii_digit s = true → uint_cps (cps_uint s) = s.
Proof.
  induction s as [|c s IH]; [done|]. simpl. rewrite andb_true_iff.
  intros [Hc Hs]. specialize (IH Hs).
  destruct (ascii_digit_cases c Hc) as [->|[->|[->|[->|[->|[->|[->|[->|[->| ->]]]]]]]]];
    simpl; by rewrite IH.
Qed.

Lemma digits_value_py_str (n : N) : digits_value (py_str n) = n.
Proof.
  unfold digits_value, py_str. rewrite cps_uint_cps. apply DecimalN.Unsigned.of_to.
Qed.

Lemma py_str_inj (n m : N) : py_str n = py_str m → n = m.
Proof.
  intros H. rewrite <- (digits_value_py_str n), <- (digits_value_py_str m). by rewrite H.
Qed.


(** ** Digit strings *)

Lemma ascii_digits_nonempty s : ascii_digits s = true → nonempty s = true.
Proof. unfold ascii_digits. by intros [? ?]%andb_true_iff. Qed.

Lemma ascii_digits_all s : ascii_digits s = true → forallb ascii_digit s = true.
Proof. unfold ascii_digits. by intros [? ?]%andb_true_iff. Qed.

Lemma ascii_digits_isdigit other_digit s :
  ascii_digits s = true → py_isdigit other_digit s = true.
Proof.
  unfold ascii_digits, py_isdigit. rewrite !andb_true_iff. intros [Hn Hall].
  split; [done|]. rewrite forallb_forall in *. intros c Hc.
  unfold isdigit_cp. by rewrite (Hall c Hc).
Qed.

Lemma ascii_digit_not_space c : ascii_digit c = true → py_isspace c = false.
Proof.
  intros Hc.
  destruct (ascii_digit_cases c Hc) as [->|[->|[->|[->|[->|[->|[->|[->|[->| ->]]]]]]]]];
    reflexivity.
Qed.

Lemma lstrip_digits s : forallb ascii_digit s = true → py_lstrip s = s.
Proof.
  destruct s as [|c s]; [done|]. simpl. intros [Hc _]%andb_true_iff.
  by rewrite ascii_digit_not_space.
Qed.

Lemma strip_digits s : forallb ascii_digit s = true → py_strip s = s.
Proof.
  intros Hs. unfold py_strip, py_rstrip. rewrite (lstrip_digits s Hs).
  rewrite lstrip_digits; [apply rev_involutive|].
  rewrite forallb_forall in *. intros c Hc. apply Hs. by apply in_rev.
Qed.

Lemma digits_without (sep : pystr) (s : pystr) c0 :
  head sep = Some c0 → ascii_digit c0 = false →
  forallb ascii_digit s = true → py_contains sep s = false.
Proof.
  intros Hsep Hc0. destruct sep as [|a sep]; [done|]. injection Hsep as ->.
  induction s as [|c s IH]; [done|].
  simpl. intros [Hc Hs]%andb_true_iff. rewrite (IH Hs), orb_false_r.
  destruct (N.eqb_spec c0 c) as [->|]; [congruence|done].
Qed.

Lemma validate_accepts_digits other_digit ids raw s :
  py_strip raw = s → ascii_digits s = true →
  Validate.parse_line other_digit ids raw = ids ++ [s].
Proof.
  intros Hraw Hs. unfold Validate.parse_line. rewrite Hraw.
  rewrite (ascii_digits_nonempty s Hs). simpl.
  rewrite (digits_without [arrow] s arrow) by auto using ascii_digits_all.
  by rewrite ascii_digits_isdigit.
Qed.

Lemma coords_accepts_digits other_digit ids raw s :
  py_strip raw = s → ascii_digits s = true →
  Coords.parse_line other_digit ids raw = ids ++ [s].
Proof.
  intros Hraw Hs. unfold Coords.parse_line. rewrite Hraw.
  assert (py_startswith (lit "#") s = false) as Hhash.
  { pose proof (ascii_digits_all s Hs) as Hall.
    destruct s as [|c s]; [done|].
    apply andb_true_iff in Hall as [Hc _].
    change (py_startswith (lit "#") (c :: s)) with ((35 =? c) && true).
    destruct (N.eqb_spec 35 c) as [<-|]; done. }
  rewrite (ascii_digits_nonempty s Hs), Hhash.
  rewrite (digits_without [arrow] s arrow) by auto using ascii_digits_all.
  rewrite (digits_without (lit "->") s 45) by auto using ascii_digits_all.
  by rewrite ascii_digits_isdigit.
Qed.

(** ** The parsers and the grammar of the specification *)

Lemma split_go_nonempty sep skip cur s : split_go sep skip cur s ≠ [].
Proof.
  revert skip cur. induction s as [|c s IH]; intros skip cur; [done|].
  simpl. destruct skip; [|apply IH].
  destruct (py_startswith sep (c :: s)); [done|apply IH].
Qed.

Lemma py_last_cons x l : l ≠ [] → py_last (x :: l) = py_last l.
Proof. destruct l; [done|]. done. Qed.

Lemma contains_after_last (sep s : pystr) :
  sep ≠ [] →
  py_contains sep s = match text_after_last sep s with Some _ => true | None => false end.
Proof.
  intros Hsep. induction s as [|c s IH].
  - destruct sep; done.
  - cbn [py_contains text_after_last]. rewrite IH.
    destruct (text_after_last sep s); [apply orb_true_r|].
    rewrite orb_false_r. by destruct (py_startswith sep (c :: s)).
Qed.

(** The last part of a split on a single character is the text after its
    last occurrence, or the whole text when it does not occur. *)
Lemma split_last_char (a : codepoint) (cur s : pystr) :
  py_last (split_go [a] 0 cur s)
  = match text_after_last [a] s with Some t => t | None => rev cur ++ s end.
Proof.
  revert cur. induction s as [|c s IH]; intros cur.
  - simpl. by rewrite app_nil_r.
  - cbn [split_go text_after_last length Nat.sub].
    destruct (py_startswith [a] (c :: s)) eqn:Hst.
    + rewrite py_last_cons by apply split_go_nonempty. rewrite IH.
      destruct (text_after_last [a] s); done.
    + rewrite IH. destruct (text_after_last [a] s); [done|].
      simpl. by rewrite <- app_assoc.
Qed.

(** The same for a separator of two different characters: an occurrence
    cannot start inside another one. *)
Lemma split_last_pair (a b : codepoint) (cur s : pystr) :
  a ≠ b →
  py_last (split_go [a; b] 0 cur s)
  = match text_after_last [a; b] s with Some t => t | None => rev cur ++ s end.
Proof.
  intros Hab.
  set (P := fun s : pystr => ∀ cur,
    py_last (split_go [a; b] 0 cur s)
    = match text_after_last [a; b] s with Some t => t | None => rev cur ++ s end).
  assert (Hboth : P s ∧ ∀ c s', s = c :: s' → P s'); [|apply Hboth].
  clear cur. induction s as [|c s [IH IHtl]].
  - split; [|done]. intros cur. simpl. by rewrite app_nil_r.
  - split; [|by intros ? ? [= _ <-]]. intros cur.
    cbn [split_go text_after_last length Nat.sub].
    destruct (py_startswith [a; b] (c :: s)) eqn:Hst.
    + rewrite py_last_cons by apply split_go_nonempty.
      destruct s as [|c' s]; [simpl in Hst; by rewrite andb_false_r in Hst|].
      assert (c' = b) as ->.
      { simpl in Hst. destruct (N.eqb_spec b c'); [done|].
        by rewrite andb_false_r in Hst. }
      cbn [split_go]. rewrite (IHtl b s eq_refl).
      cbn [text_after_last].
      destruct (text_after_last [a; b] s); [done|].
      assert (py_startswith [a; b] (b :: s) = false) as ->; [|done].
      simpl. by destruct (N.eqb_spec a b).
    + rewrite IH. destruct (text_after_last [a; b] s); [done|].
      simpl. by rewrite <- app_assoc.
Qed.

Lemma isdigit_nonempty other_digit t :
  nonempty t && py_isdigit other_digit t = py_isdigit other_digit t.
Proof. unfold py_isdigit. by destruct (nonempty t). Qed.

(** The parser of the coordinate fetcher follows the grammar of the
    specification line by line. *)
Lemma coords_parse_line_grammar other_digit ids raw :
  Coords.parse_line other_digit ids raw
  = ids ++ match grammar_line other_digit (py_strip raw) with
           | Some id => [id]
           | None => []
           end.
Proof.
  unfold Coords.parse_line, grammar_line.
  generalize (py_strip raw). intros line.
  destruct line as [|c line]; [by rewrite app_nil_r|].
  cbn [nonempty negb orb].
  change (py_startswith (lit "#") (c :: line)) with ((35 =? c) && true).
  rewrite andb_true_r.
  destruct (N.eqb_spec 35 c) as [<-|Hc]; [by rewrite app_nil_r|].
  assert (Hskip : ∀ (X : Type) (x y : X),
            match c with 35 => x | _ => y end = y).
  { intros X x y. destruct c as [|p]; [done|].
    do 6 (destruct p as [p|p|]; try done). }
  rewrite Hskip. clear Hskip.
  change (lit "->") with ([45; 62] : pystr).
  rewrite !contains_after_last by done.
  unfold py_split. rewrite split_last_char, (split_last_pair 45 62) by done.
  rewrite !isdigit_nonempty.
  destruct (text_after_last [arrow] (c :: line)) as [t|].
  { destruct (py_isdigit other_digit (py_strip t)); [done|by rewrite app_nil_r]. }
  set (after := text_after_last _ (c :: line)).
  repeat match goal with
         | |- context [text_after_last ?sep (c :: line)] =>
             change (text_after_last sep (c :: line)) with after
         end.
  destruct after as [t|].
  { destruct (py_isdigit other_digit (py_strip t)); [done|by rewrite app_nil_r]. }
  destruct (py_isdigit other_digit (c :: line)); [done|by rewrite app_nil_r].
Qed.

Lemma coords_parse_from other_digit file ids :
  fold_left (Coords.parse_line other_digit) file ids
  = ids ++ omap (fun raw => grammar_line other_digit (py_strip raw)) file.
Proof.
  revert ids. induction file as [|raw file IH]; intros ids; [by rewrite app_nil_r|].
  simpl. rewrite IH, coords_parse_line_grammar.
  destruct (grammar_line other_digit (py_strip raw)); simpl.
  - by rewrite <- app_assoc.
  - by rewrite app_nil_r.
Qed.

(** Order and repetitions of the lines are kept: the result is the lines
    that yield an identifier, each replaced by it. *)
Lemma coords_parse_grammar other_digit file :
  Coords.parse_id_file other_digit file
  = omap (fun raw => grammar_line other_digit (py_strip raw)) file.
Proof. unfold Coords.parse_id_file. by rewrite coords_parse_from. Qed.

(** The scenario of the specification: both parsers read it alike. *)
Lemma parsers_on_scenario :
  let file := [lit "111"; lit "222" ++ [arrow] ++ lit "333"; lit "#comment";
               lit ""; lit "444"] in
  Validate.parse_id_file ascii_only_digit file = [lit "111"; lit "333"; lit "444"]
  ∧ Coords.parse_id_file ascii_only_digit file = [lit "111"; lit "333"; lit "444"].
Proof. split; reflexivity. Qed.

(** C3: the parser of the coordinate fetcher follows the grammar (lemma
    [coords_parse_grammar]); the parser of the validator does not.  It has no
    case for the ASCII arrow, so it drops the line [123->456], and the arrow
    lines of its own report, that the grammar and the other parser read as
    [456]; and it has no test for [#], so it reads an identifier out of a
    comment line that holds a Unicode arrow. *)
Theorem validator_parser_divergence :
  (Validate.parse_id_file ascii_only_digit [lit "123->456"] = []
   ∧ Coords.parse_id_file ascii_only_digit [lit "123->456"] = [lit "456"]
   ∧ grammar_line ascii_only_digit (lit "123->456") = Some (lit "456"))
  ∧ (Validate.parse_id_file ascii_only_digit
       [Validate.line_changed (lit "444") (lit "999")] = []
     ∧ Coords.parse_id_file ascii_only_digit
         [Validate.line_changed (lit "444") (lit "999")] = [lit "999"])
  ∧ (Validate.parse_id_file ascii_only_digit [lit "# 123" ++ [arrow] ++ lit "456"]
     = [lit "456"]
     ∧ Coords.parse_id_file ascii_only_digit [lit "# 123" ++ [arrow] ++ lit "456"] = []
     ∧ grammar_line ascii_only_digit (lit "# 123" ++ [arrow] ++ lit "456") = None).
Proof. repeat split; reflexivity. Qed.

(** ** Stage A: the two maps *)

Lemma collect_from (completed : list task_result) m e :
  fold_left collect_one completed (m, e)
  = (dict_update m (leaf_bindings completed), dict_update e (error_bindings completed)).
Proof.
  revert m e. induction completed as [|[[k sv] err] rs IH]; intros m e; [done|].
  cbn [fold_left collect_one leaf_bindings error_bindings omap list_omap task_leaf task_id fst snd].
  destruct sv as [v|]; cbn; rewrite IH; done.
Qed.

Lemma collect_bindings completed :
  collect completed
  = (dict_update [] (leaf_bindings completed), dict_update [] (error_bindings completed)).
Proof. apply collect_from. Qed.

Lemma elem_of_leaf_bindings completed k v :
  (k, v) ∈ leaf_bindings completed
  ↔ ∃ r, r ∈ completed ∧ task_id r = k ∧ task_leaf r = Some v.
Proof.
  unfold leaf_bindings. rewrite list_elem_of_omap. split.
  - intros (r & Hin & Hr). exists r. destruct (task_leaf r); naive_solver.
  - intros (r & Hin & <- & Hl). exists r. rewrite Hl. done.
Qed.

Lemma elem_of_error_bindings completed k err :
  (k, err) ∈ error_bindings completed
  ↔ ∃ r, r ∈ completed ∧ task_id r = k ∧ task_leaf r = None ∧ r.2 = err.
Proof.
  unfold error_bindings. rewrite list_elem_of_omap. split.
  - intros (r & Hin & Hr). exists r. destruct (task_leaf r); naive_solver.
  - intros (r & Hin & <- & Hl & <-). exists r. rewrite Hl. done.
Qed.

Lemma leaf_keys completed k :
  k ∈ dict_keys (collect completed).1
  ↔ ∃ r, r ∈ completed ∧ task_id r = k ∧ is_Some (task_leaf r).
Proof.
  rewrite collect_bindings. cbn [fst]. rewrite dict_keys_update, list_elem_of_fmap.
  split.
  - intros [Hin|([k' v] & -> & Hin)]; [by apply elem_of_nil in Hin|].
    apply elem_of_leaf_bindings in Hin as (r & ? & ? & ?). eauto 6.
  - intros (r & Hin & Hk & [v Hv]). right. exists (k, v). split; [done|].
    apply elem_of_leaf_bindings. eauto.
Qed.

Lemma error_keys completed k :
  k ∈ dict_keys (collect completed).2
  ↔ ∃ r, r ∈ completed ∧ task_id r = k ∧ task_leaf r = None.
Proof.
  rewrite collect_bindings. cbn [snd]. rewrite dict_keys_update, list_elem_of_fmap.
  split.
  - intros [Hin|([k' v] & -> & Hin)]; [by apply elem_of_nil in Hin|].
    apply elem_of_error_bindings in Hin as (r & ? & ? & ? & ?). eauto 6.
  - intros (r & Hin & Hk & Hv). right. exists (k, r.2). split; [done|].
    apply elem_of_error_bindings. eauto.
Qed.

(** ** Stage A: the partition of the identifiers *)

Lemma NoDup_same_ending completed :
  NoDup (task_id <$> completed) → same_ending completed.
Proof.
  intros Hnd r r' Hr Hr' Hid.
  assert (r = r') as ->; [|done].
  apply list_elem_of_lookup in Hr as [i Hi], Hr' as [j Hj].
  assert (i = j) as ->.
  { eapply NoDup_lookup; [exact Hnd| |]; rewrite list_lookup_fmap.
    - rewrite Hi. reflexivity.
    - rewrite Hj. simpl. by rewrite Hid. }
  congruence.
Qed.

(** C2, as the code has it: the keys of the two maps together are exactly
    the submitted identifiers, for every completion order and all outcomes.
    They are disjoint when all tasks of one identifier end alike (all with a
    leaf or all without), in particular when no identifier is listed twice. *)
Theorem collect_partition (all_ids : list pystr) (completed : list task_result) :
  task_id <$> completed ≡ₚ all_ids →
  (list_to_set (dict_keys (collect completed).1)
     ∪ list_to_set (dict_keys (collect completed).2)
   =@{gset pystr} list_to_set all_ids)
  ∧ (same_ending completed →
     list_to_set (dict_keys (collect completed).1)
       ∩ list_to_set (dict_keys (collect completed).2) =@{gset pystr} ∅)
  ∧ (NoDup all_ids →
     list_to_set (dict_keys (collect completed).1)
       ∩ list_to_set (dict_keys (collect completed).2) =@{gset pystr} ∅).
Proof.
  intros Hperm.
  assert (Hdisj : same_ending completed →
     list_to_set (dict_keys (collect completed).1)
       ∩ list_to_set (dict_keys (collect completed).2) =@{gset pystr} ∅).
  { intros Hsame. apply set_eq. intros k.
    rewrite elem_of_intersection, !elem_of_list_to_set, leaf_keys, error_keys.
    split; [|by intros ?%not_elem_of_empty].
    intros [(r & Hr & Hk & Hs) (r' & Hr' & Hk' & Hn)].
    apply (Hsame r r' Hr Hr') in Hs; [|congruence].
    rewrite Hn in Hs. by destruct Hs. }
  split; [|split]; [|done|].
  - apply set_eq. intros k.
    rewrite elem_of_union, !elem_of_list_to_set, leaf_keys, error_keys, <- Hperm,
      list_elem_of_fmap.
    split.
    + intros [(r & ? & ? & ?)|(r & ? & ? & ?)]; eauto.
    + intros (r & -> & Hr). destruct (task_leaf r) eqn:Hl; [left|right]; exists r;
        rewrite ?Hl; eauto.
  - intros Hnd. apply Hdisj, NoDup_same_ending. by rewrite Hperm.
Qed.

Lemma collect_partition_witness :
  let all_ids := [lit "1"; lit "2"] in
  let completed := [(lit "2", None, Some (lit "boom")); (lit "1", Some 5, None)] in
  (list_to_set (dict_keys (collect completed).1)
     ∪ list_to_set (dict_keys (collect completed).2)
   =@{gset pystr} list_to_set all_ids)
  ∧ list_to_set (dict_keys (collect completed).1)
      ∩ list_to_set (dict_keys (collect completed).2) =@{gset pystr} ∅.
Proof.
  intros all_ids completed.
  assert (Hp : task_id <$> completed ≡ₚ all_ids) by apply perm_swap.
  destruct (collect_partition all_ids completed Hp) as (Hu & _ & Hd).
  split; [exact Hu|]. apply Hd.
  apply NoDup_cons. split; [|apply NoDup_singleton].
  intros Hin. apply list_elem_of_singleton in Hin. discriminate Hin.
Defined.

(** C2 as stated fails on a repeated identifier whose two tasks end
    differently: [42] is then a key of both maps. *)
Lemma collect_overlap_on_duplicate :
  task_id <$> twice_completed = twice_ids
  ∧ list_to_set (dict_keys (collect twice_completed).1)
      ∩ list_to_set (dict_keys (collect twice_completed).2) ≠@{gset pystr} ∅.
Proof.
  split; [reflexivity|].
  intros Hempty.
  assert (Hin : lit "42" ∈@{gset pystr}
    list_to_set (dict_keys (collect twice_completed).1)
      ∩ list_to_set (dict_keys (collect twice_completed).2)).
  { rewrite elem_of_intersection, !elem_of_list_to_set.
    split; vm_compute; apply list_elem_of_here. }
  rewrite Hempty in Hin. by apply not_elem_of_empty in Hin.
Qed.

(** ** Stage A: the worker *)

(** C5: the worker of either script always returns a triple for its own
    identifier and never raises.  When [int] accepts the identifier, the
    service is called exactly once (the state afterwards is the state that
    one call leaves) and the triple is the outcome of that one answer:
    resolved to the first leaf, failed for want of leaves, or failed with the
    message of the fault.  When [int] refuses it, the service is not called
    and the triple carries the message. *)
Theorem worker_outcome (int_other : pystr -> Z + pystr) {St : Type}
    (get_leaves : Z -> St -> outcome (list N) * St)
    (get_leaves_at : Z -> Z -> St -> outcome (list N) * St)
    (root_id : pystr) (s : St) :
  let v := Validate.get_one_supervoxel int_other get_leaves root_id s in
  let c := Coords.get_one_l2 int_other get_leaves_at root_id s in
  task_id v.1 = root_id ∧ task_id c.1 = root_id ∧
  match py_int int_other root_id with
  | inl n =>
      as_outcome v.1
        = Some (answer_outcome (lit "No supervoxels found") (get_leaves n s).1)
      ∧ v.2 = (get_leaves n s).2
      ∧ as_outcome c.1
        = Some (answer_outcome (lit "No L2 chunks found") (get_leaves_at n 2%Z s).1)
      ∧ c.2 = (get_leaves_at n 2%Z s).2
  | inr e =>
      as_outcome v.1 = Some (Failed e) ∧ v.2 = s
      ∧ as_outcome c.1 = Some (Failed e) ∧ c.2 = s
  end.
Proof.
  unfold Validate.get_one_supervoxel, Coords.get_one_l2.
  destruct (py_int int_other root_id) as [n|e]; [|done].
  destruct (get_leaves n s) as [[[|leaf ?]|e] s1];
    destruct (get_leaves_at n 2%Z s) as [[[|leaf2 ?]|e2] s2]; done.
Qed.

(** ** Conversion to voxel units *)

(** *** Rounding to 53 bits *)

Section Binary64.
Local Open Scope Z_scope.

Lemma digits2_size p : digits2_pos p = Pos.size p.
Proof. induction p; simpl; congruence. Qed.

Lemma digits_bounds p :
  2 ^ (Zpos (digits2_pos p) - 1) <= Zpos p < 2 ^ Zpos (digits2_pos p).
Proof.
  rewrite digits2_size.
  assert (H : Zpos (Pos.size p) = Z.succ (Z.log2 (Zpos p))).
  { destruct p; simpl; lia. }
  rewrite H. replace (Z.succ (Z.log2 (Zpos p)) - 1) with (Z.log2 (Zpos p)) by lia.
  apply Z.log2_spec. lia.
Qed.

Lemma digits_unique p d :
  2 ^ (d - 1) <= Zpos p < 2 ^ d -> Zpos (digits2_pos p) = d.
Proof.
  intros [Hl Hu]. pose proof (digits_bounds p) as [Hl' Hu'].
  assert (0 < d).
  { destruct (Z.ltb_spec 0 d); [done|]. exfalso.
    assert (2 ^ d <= 1); [|lia].
    destruct (Z.eq_dec d 0) as [->|]; [simpl; lia|rewrite Z.pow_neg_r; lia]. }
  set (d' := Zpos (digits2_pos p)) in *.
  destruct (Z.lt_trichotomy d' d) as [Hlt|[Heq|Hgt]]; [|done|].
  - assert (2 ^ d' <= 2 ^ (d - 1)) by (apply Z.pow_le_mono_r; lia). lia.
  - assert (2 ^ d <= 2 ^ (d' - 1)) by (apply Z.pow_le_mono_r; lia). lia.
Qed.

Lemma Zdigits2_range q d :
  2 ^ (d - 1) <= q < 2 ^ d -> 0 < q -> Zdigits2 q = d.
Proof.
  intros Hq Hpos. destruct q as [|p|p]; try lia. by apply digits_unique.
Qed.

(** One shift to the right keeps the bit that leaves and remembers the
    bits that left before. *)
Lemma shr_1_spec m r s :
  1 < m ->
  shr_1 {| shr_m := m; shr_r := r; shr_s := s |}
  = {| shr_m := m / 2; shr_r := Z.odd m; shr_s := r || s |}.
Proof.
  intros Hm. destruct m as [|p|p]; try lia.
  destruct p as [p|p|]; try lia; unfold shr_1.
  - f_equal. rewrite Pos2Z.inj_xI. apply Z.div_unique with 1; lia.
  - f_equal. rewrite Pos2Z.inj_xO. apply Z.div_unique with 0; lia.
Qed.

Lemma round_nearest_even_cases m l :
  round_nearest_even m l = m
  ∨ (round_nearest_even m l = m + 1
     ∧ (l = loc_Inexact Eq ∨ l = loc_Inexact Gt)).
Proof.
  destruct l as [|[]]; simpl; auto. destruct (Z.even m); auto.
Qed.

Lemma loc_shr_record m l :
  shr_m (shr_record_of_loc m l) = m
  ∧ loc_of_shr_record (shr_record_of_loc m l) = l.
Proof. by destruct l as [|[]]. Qed.

(** The second half of [binary_round_aux]: a mantissa that rounding has
    taken to [2^53] is written with one bit less. *)
Lemma round_renorm sign m1 e :
  2 ^ 52 <= m1 <= 2 ^ 53 -> -1074 <= e <= 970 ->
  ∃ m e',
    (let '(mrs, e'') := shr_fexp 53 1024 m1 e loc_Exact in
     match shr_m mrs with
     | Z0 => S754_zero sign
     | Zpos m => if e'' <=? 1024 - 53 then S754_finite sign m e''
                 else S754_infinity sign
     | Zneg _ => S754_nan
     end) = S754_finite sign m e'
    ∧ Zpos m * 2 ^ (e' - e) = m1 ∧ e <= e' <= e + 1.
Proof.
  intros Hm He. unfold shr_fexp.
  destruct (Z.ltb_spec m1 (2 ^ 53)) as [Hlt|Hge].
  - rewrite (Zdigits2_range m1 53) by lia.
    replace (fexp 53 1024 (53 + e) - e) with 0 by (unfold fexp, emin; lia).
    cbn [shr shr_record_of_loc shr_m].
    destruct m1 as [|p|p]; try lia.
    replace (e <=? 1024 - 53) with true by lia.
    exists p, e. rewrite Z.sub_diag, Z.mul_1_r. split; [done|]. lia.
  - assert (m1 = 2 ^ 53) as -> by lia.
    change (Zdigits2 (2 ^ 53)) with 54.
    replace (fexp 53 1024 (54 + e) - e) with 1 by (unfold fexp, emin; lia).
    cbn [shr shr_record_of_loc SpecFloat.iter_pos]. change (2 ^ 53) with 9007199254740992.
    cbn [shr_1 shr_m].
    replace (e + 1 <=? 1024 - 53) with true by lia.
    eexists _, (e + 1). split; [done|].
    replace (e + 1 - e) with 1 by lia. lia.
Qed.

(** Rounding a mantissa of 53 bits: it stays, or goes to the next one. *)
Lemma round_aux_53 sign q e l :
  2 ^ 52 <= q < 2 ^ 53 -> -1074 <= e <= 970 ->
  ∃ m e', binary_round_aux 53 1024 sign q e l = S754_finite sign m e'
          ∧ e <= e' <= e + 1
          ∧ (Zpos m * 2 ^ (e' - e) = q
             ∨ (Zpos m * 2 ^ (e' - e) = q + 1 ∧ l ≠ loc_Exact)).
Proof.
  intros Hq He. unfold binary_round_aux, shr_fexp at 1.
  rewrite (Zdigits2_range q 53) by lia.
  replace (fexp 53 1024 (53 + e) - e) with 0 by (unfold fexp, emin; lia).
  cbn [shr]. destruct (loc_shr_record q l) as [-> ->].
  destruct (round_nearest_even_cases q l) as [Hm1|[Hm1 Hl]]; rewrite Hm1.
  - destruct (round_renorm sign q e) as (m & e' & -> & Hv & He'); [lia..|].
    exists m, e'. auto.
  - destruct (round_renorm sign (q + 1) e) as (m & e' & -> & Hv & He'); [lia..|].
    exists m, e'. split; [done|]. split; [done|]. right. split; [done|].
    by destruct Hl as [-> | ->].
Qed.

(** Rounding a mantissa of 54 bits: the last bit leaves, and the rest
    goes to the next mantissa only if that bit was set. *)
Lemma round_aux_54 sign q e l :
  2 ^ 53 <= q < 2 ^ 54 -> -1075 <= e <= 969 ->
  ∃ m e', binary_round_aux 53 1024 sign q e l = S754_finite sign m e'
          ∧ e + 1 <= e' <= e + 2
          ∧ (Zpos m * 2 ^ (e' - (e + 1)) = q / 2
             ∨ (Zpos m * 2 ^ (e' - (e + 1)) = q / 2 + 1 ∧ Z.odd q = true)).
Proof.
  intros Hq He. unfold binary_round_aux, shr_fexp at 1.
  rewrite (Zdigits2_range q 54) by lia.
  replace (fexp 53 1024 (54 + e) - e) with 1 by (unfold fexp, emin; lia).
  cbn [shr SpecFloat.iter_pos].
  assert (Hhalf : 2 ^ 52 <= q / 2 < 2 ^ 53).
  { split; [apply Z.div_le_lower_bound; lia|apply Z.div_lt_upper_bound; lia]. }
  assert (Hshr : ∃ s, shr_1 (shr_record_of_loc q l)
                      = {| shr_m := q / 2; shr_r := Z.odd q; shr_s := s |}).
  { destruct l as [|[]]; cbn [shr_record_of_loc]; rewrite shr_1_spec by lia; eauto. }
  destruct Hshr as [s ->]. cbn [shr_m].
  set (l' := loc_of_shr_record _).
  assert (Hl' : l' = loc_Inexact Eq ∨ l' = loc_Inexact Gt → Z.odd q = true).
  { unfold l'. cbn [loc_of_shr_record]. destruct (Z.odd q), s; intros [?|?]; done. }
  clearbody l'.
  destruct (round_nearest_even_cases (q / 2) l') as [Hm1|[Hm1 Hl]]; rewrite Hm1.
  - destruct (round_renorm sign (q / 2) (e + 1)) as (m & e' & -> & Hv & He');
      [lia..|].
    exists m, e'. split; [done|]. split; [lia|]. by left.
  - destruct (round_renorm sign (q / 2 + 1) (e + 1)) as (m & e' & -> & Hv & He');
      [lia..|].
    exists m, e'. split; [done|]. split; [lia|]. right. auto.
Qed.

(** The integer part of [m * 2^e], as [int] computes it. *)
Lemma magnitude_spec m e t :
  0 <= t -> - t <= e ->
  (if 0 <=? e then Zpos m * 2 ^ e else Zpos m / 2 ^ (- e))
  = (Zpos m * 2 ^ (e + t)) / 2 ^ t.
Proof.
  intros Ht He. assert (0 < 2 ^ t) by (apply Z.pow_pos_nonneg; lia).
  destruct (Z.leb_spec 0 e) as [Hpos|Hneg].
  - rewrite Z.pow_add_r by lia. rewrite Z.mul_assoc. by rewrite Z.div_mul by lia.
  - replace t with (e + t + - e) at 2 by lia.
    assert (0 < 2 ^ (e + t)) by (apply Z.pow_pos_nonneg; lia).
    assert (0 < 2 ^ (- e)) by (apply Z.pow_pos_nonneg; lia).
    rewrite (Z.pow_add_r 2 (e + t) (- e)) by lia. rewrite (Z.mul_comm (Zpos m)).
    by rewrite Z.div_mul_cancel_l by lia.
Qed.

(** The quotient computed with [G] more units keeps its integer part when
    it goes to the next unit, for [G] above the divisor. *)
Lemma scaled_quotient a b G :
  0 <= a -> 0 < b -> b < G ->
  (a * G / b) / G = a / b ∧ (a * G / b + 1) / G = a / b.
Proof.
  intros Ha Hb HG.
  assert (Hdiv : (a * G / b) / G = a / b).
  { rewrite Z.div_div by lia. by rewrite Z.div_mul_cancel_r by lia. }
  split; [done|].
  pose proof (Z.div_mod a b ltac:(lia)) as Hab.
  pose proof (Z.mod_pos_bound a b Hb) as Hr.
  set (n := a / b) in *. set (q := a * G / b) in *.
  assert (Hq : q < (n + 1) * G - 1).
  { apply Z.div_lt_upper_bound; [done|]. nia. }
  assert (Hq' : n * G <= q).
  { apply Z.div_le_lower_bound; [done|]. nia. }
  symmetry. apply Z.div_unique with (q + 1 - n * G); lia.
Qed.

Lemma scaled_quotient_half a b G :
  0 <= a -> 0 < b -> 0 < G -> b < 2 * G ->
  (a * (2 * G) / b / 2) / G = a / b
  ∧ (Z.odd (a * (2 * G) / b) = true → (a * (2 * G) / b / 2 + 1) / G = a / b).
Proof.
  intros Ha Hb HG HbG.
  pose proof (Z.div_mod a b ltac:(lia)) as Hab.
  pose proof (Z.mod_pos_bound a b Hb) as Hr.
  set (n := a / b) in *. set (q := a * (2 * G) / b) in *.
  assert (Hq : q < (n + 1) * (2 * G) - 1).
  { apply Z.div_lt_upper_bound; [done|]. nia. }
  assert (Hq' : n * (2 * G) <= q).
  { apply Z.div_le_lower_bound; [done|]. nia. }
  pose proof (Z.div_mod q 2 ltac:(lia)) as Hq2.
  pose proof (Z.mod_pos_bound q 2 ltac:(lia)) as Hr2.
  split.
  - symmetry. apply Z.div_unique with (q / 2 - n * G); lia.
  - intros [k Hk]%Z.odd_spec.
    symmetry. apply Z.div_unique with (q / 2 + 1 - n * G); lia.
Qed.

(** The quotient of two integers, the dividend below [2^53], has the same
    integer part once rounded to 53 bits. *)
Lemma round_trunc sign q S l a b :
  0 < a -> 0 < b -> b < 2 ^ S -> 1 <= S <= 900 ->
  q = a * 2 ^ S / b -> 2 ^ 52 <= q < 2 ^ 54 ->
  ∃ m e, binary_round_aux 53 1024 sign q (- S) l = S754_finite sign m e
         ∧ (if 0 <=? e then Zpos m * 2 ^ e else Zpos m / 2 ^ (- e)) = a / b.
Proof.
  intros Ha Hb HbS HS Hq Hrange.
  assert (0 < 2 ^ S) by (apply Z.pow_pos_nonneg; lia).
  destruct (Z.ltb_spec q (2 ^ 53)) as [Hlt|Hge].
  - destruct (round_aux_53 sign q (- S) l) as (m & e & -> & He & Hv); [lia..|].
    exists m, e. split; [done|].
    rewrite (magnitude_spec m e S) by lia.
    replace (e - - S) with (e + S) in Hv by lia.
    destruct (scaled_quotient a b (2 ^ S)) as [H1 H2]; [lia..|].
    rewrite <- Hq in H1, H2.
    destruct Hv as [-> | [-> _]]; done.
  - destruct (round_aux_54 sign q (- S) l) as (m & e & -> & He & Hv); [lia..|].
    exists m, e. split; [done|].
    rewrite (magnitude_spec m e (S - 1)) by lia.
    replace (e - (- S + 1)) with (e + (S - 1)) in Hv by lia.
    assert (HG : 2 ^ S = 2 * 2 ^ (S - 1)).
    { replace S with (1 + (S - 1)) at 1 by lia. rewrite Z.pow_add_r by lia. done. }
    assert (0 < 2 ^ (S - 1)) by (apply Z.pow_pos_nonneg; lia).
    destruct (scaled_quotient_half a b (2 ^ (S - 1))) as [H1 H2]; [lia..|].
    rewrite <- HG, <- Hq in H1, H2.
    destruct Hv as [-> | [-> Hodd]]; [done|by apply H2].
Qed.
End Binary64.

Section Division.
Local Open Scope Z_scope.

Lemma div_eucl_div_mod a b : Z.div_eucl a b = (a / b, a mod b).
Proof. unfold Z.div, Z.modulo. by destruct (Z.div_eucl a b). Qed.

(** The quotient the division hands to the rounding: 53 or 54 bits of
    it, whatever the sizes of the operands. *)
Lemma div_core_spec (m1 m2 : positive) (e1 e2 : Z) :
  let d1 := Zpos (digits2_pos m1) in
  let d2 := Zpos (digits2_pos m2) in
  d1 <= 52 + d2 -> -1074 <= d1 + e1 - (d2 + e2) - 53 ->
  ∃ l, SFdiv_core_binary 53 1024 (Zpos m1) e1 (Zpos m2) e2
       = (Zpos m1 * 2 ^ (53 + d2 - d1) / Zpos m2, d1 + e1 - (d2 + e2) - 53, l)
       ∧ 2 ^ 52 <= Zpos m1 * 2 ^ (53 + d2 - d1) / Zpos m2 < 2 ^ 54.
Proof.
  intros d1 d2 Hd He. unfold SFdiv_core_binary.
  change (Zdigits2 (Zpos m1)) with d1. change (Zdigits2 (Zpos m2)) with d2.
  pose proof (digits_bounds m1) as [Hl1 Hu1]. fold d1 in Hl1, Hu1.
  pose proof (digits_bounds m2) as [Hl2 Hu2]. fold d2 in Hl2, Hu2.
  assert (Hd1 : 0 < d1) by done. assert (Hd2 : 0 < d2) by done.
  clearbody d1 d2.
  replace (Z.min (fexp 53 1024 (d1 + e1 - (d2 + e2))) (e1 - e2))
    with (d1 + e1 - (d2 + e2) - 53) by (unfold fexp, emin; lia).
  replace (e1 - e2 - (d1 + e1 - (d2 + e2) - 53)) with (53 + d2 - d1) by lia.
  set (s := 53 + d2 - d1) in *.
  assert (Hs : 0 < s) by (unfold s; lia).
  assert (Hshift : match s with
                   | 0 => Zpos m1
                   | Zpos _ => Z.shiftl (Zpos m1) s
                   | Zneg _ => 0
                   end = Zpos m1 * 2 ^ s).
  { destruct s; try lia. apply Z.shiftl_mul_pow2. lia. }
  rewrite Hshift, div_eucl_div_mod. eexists. split; [done|].
  assert (H1 : 2 ^ (d1 - 1) * 2 ^ s = 2 ^ 52 * 2 ^ d2).
  { rewrite <- !Z.pow_add_r by lia. f_equal. unfold s. lia. }
  assert (H2 : 2 ^ d1 * 2 ^ s = 2 ^ 54 * 2 ^ (d2 - 1)).
  { rewrite <- !Z.pow_add_r by lia. f_equal. unfold s. lia. }
  assert (0 < 2 ^ s) by (apply Z.pow_pos_nonneg; lia).
  split.
  - apply Z.div_le_lower_bound; [lia|]. nia.
  - apply Z.div_lt_upper_bound; [lia|]. nia.
Qed.

(** An integer below [2^53] is a float. *)
Lemma iter_xO p d : Zpos (Pos.iter xO p d) = Zpos p * 2 ^ Zpos d.
Proof.
  induction d as [|d IH] using Pos.peano_ind.
  - simpl. lia.
  - rewrite Pos.iter_succ, Pos2Z.inj_xO, IH, Pos2Z.inj_succ, Z.pow_succ_r by lia.
    lia.
Qed.

Lemma round_exact_53 sign q e :
  2 ^ 52 <= q < 2 ^ 53 -> -1074 <= e <= 970 ->
  binary_round_aux 53 1024 sign q e loc_Exact = S754_finite sign (Z.to_pos q) e.
Proof.
  intros Hq He. unfold binary_round_aux, shr_fexp.
  rewrite (Zdigits2_range q 53) by lia.
  replace (fexp 53 1024 (53 + e) - e) with 0 by (unfold fexp, emin; lia).
  cbn [shr shr_record_of_loc shr_m loc_of_shr_record round_nearest_even].
  rewrite (Zdigits2_range q 53) by lia.
  replace (fexp 53 1024 (53 + e) - e) with 0 by (unfold fexp, emin; lia).
  cbn [shr shr_m]. destruct q as [|p|p]; try lia.
  by replace (e <=? 1024 - 53) with true by lia.
Qed.

Lemma b64_of_int_exact z :
  z ≠ 0 -> Z.abs z < 2 ^ 53 ->
  ∃ m j, b64_of_int z = S754_finite (z <? 0) m (- j)
         ∧ 0 <= j <= 52 ∧ Zpos m = Z.abs z * 2 ^ j
         ∧ 2 ^ 52 <= Zpos m < 2 ^ 53.
Proof.
  intros Hz Hlt.
  assert (Hpos : ∀ sign p, Zpos p < 2 ^ 53 →
            ∃ m j, binary_round 53 1024 sign p 0 = S754_finite sign m (- j)
                   ∧ 0 <= j <= 52 ∧ Zpos m = Zpos p * 2 ^ j
                   ∧ 2 ^ 52 <= Zpos m < 2 ^ 53).
  { intros sign p Hp. unfold binary_round, shl_align.
    pose proof (digits_bounds p) as [Hl Hu].
    set (d := Zpos (digits2_pos p)) in *.
    assert (Hd : 0 < d <= 53).
    { split; [done|]. destruct (Z.leb_spec d 53); [done|]. exfalso.
      assert (2 ^ 53 <= 2 ^ (d - 1)) by (apply Z.pow_le_mono_r; lia). lia. }
    clearbody d.
    replace (fexp 53 1024 (d + 0) - 0) with (d - 53) by (unfold fexp, emin; lia).
    replace (fexp 53 1024 (d + 0)) with (d - 53) by (unfold fexp, emin; lia).
    destruct (Z.eq_dec d 53) as [->|Hne].
    - change (53 - 53) with 0. cbn match.
      rewrite round_exact_53 by (simpl in Hl; lia).
      exists p, 0. simpl in Hl. rewrite Z.mul_1_r. split; [done|]. lia.
    - destruct (d - 53) as [|j|j] eqn:Hj; try lia. cbn match.
      set (mz := Pos.iter xO p j).
      assert (Hmz : Zpos mz = Zpos p * 2 ^ Zpos j) by apply iter_xO.
      assert (Hpow : 2 ^ (d - 1) * 2 ^ Zpos j = 2 ^ 52).
      { rewrite <- Z.pow_add_r by lia. f_equal. lia. }
      assert (Hpow' : 2 ^ d * 2 ^ Zpos j = 2 ^ 53).
      { rewrite <- Z.pow_add_r by lia. f_equal. lia. }
      assert (0 < 2 ^ Zpos j) by (apply Z.pow_pos_nonneg; lia).
      rewrite round_exact_53 by nia.
      exists mz, (Zpos j). rewrite Pos2Z.id. split; [done|].
      split; [lia|]. split; [done|]. nia. }
  unfold b64_of_int, binary_normalize. destruct z as [|p|p]; [done|..].
  - apply (Hpos false p). lia.
  - change (Z.abs (Zneg p)) with (Zpos p). apply (Hpos true p). lia.
Qed.
End Division.

Section Exact.
Local Open Scope Z_scope.

Lemma quot_sign a b :
  b ≠ 0 ->
  Z.quot a b = if xorb (a <? 0) (b <? 0) then - (Z.abs a / Z.abs b)
               else Z.abs a / Z.abs b.
Proof.
  intros Hb. rewrite Z.quot_div by done.
  destruct (Z.ltb_spec a 0), (Z.ltb_spec b 0); simpl.
  - rewrite !Z.sgn_neg by done. lia.
  - rewrite (Z.sgn_neg a), (Z.sgn_pos b) by lia. lia.
  - destruct (Z.eq_dec a 0) as [->|]; [simpl; rewrite Z.div_0_l by lia; lia|].
    rewrite (Z.sgn_pos a), (Z.sgn_neg b) by lia. lia.
  - destruct (Z.eq_dec a 0) as [->|]; [simpl; rewrite Z.div_0_l by lia; lia|].
    rewrite (Z.sgn_pos a), (Z.sgn_pos b) by lia. lia.
Qed.

Lemma int_of_finite sign m e n :
  (if 0 <=? e then Zpos m * 2 ^ e else Zpos m / 2 ^ (- e)) = n ->
  b64_int (S754_finite sign m e) = Returned (if sign then - n else n).
Proof. by intros <-. Qed.

(** The quotient of two integers, rounded once. *)
Lemma div_int_trunc a b :
  a ≠ 0 -> Z.abs a < 2 ^ 53 -> b ≠ 0 -> Z.abs b < 2 ^ 53 ->
  ∃ m e, b64_div_int a b = S754_finite (xorb (a <? 0) (b <? 0)) m e
         ∧ (if 0 <=? e then Zpos m * 2 ^ e else Zpos m / 2 ^ (- e))
           = Z.abs a / Z.abs b.
Proof.
  intros Ha Ha53 Hb Hb53. unfold b64_div_int.
  set (sign := xorb (a <? 0) (b <? 0)).
  assert (Hcase : ∀ X : Type, ∀ u v : X, match a with 0 => u | _ => v end = v).
  { intros X u v. by destruct a. }
  rewrite Hcase. clear Hcase.
  destruct (Z.abs a) as [|pa|pa] eqn:Hpa; try lia.
  destruct (Z.abs b) as [|pb|pb] eqn:Hpb; try lia.
  pose proof (digits_bounds pa) as [Hl1 Hu1].
  pose proof (digits_bounds pb) as [Hl2 Hu2].
  set (d1 := Zpos (digits2_pos pa)) in *. set (d2 := Zpos (digits2_pos pb)) in *.
  assert (Hd1 : 0 < d1 <= 53).
  { split; [done|]. destruct (Z.leb_spec d1 53); [done|]. exfalso.
    assert (2 ^ 53 <= 2 ^ (d1 - 1)) by (apply Z.pow_le_mono_r; lia). lia. }
  assert (Hd2 : 0 < d2 <= 53).
  { split; [done|]. destruct (Z.leb_spec d2 53); [done|]. exfalso.
    assert (2 ^ 53 <= 2 ^ (d2 - 1)) by (apply Z.pow_le_mono_r; lia). lia. }
  destruct (div_core_spec pa pb 0 0) as (l & -> & Hq); [fold d1 d2; lia..|].
  fold d1 d2 in Hq |- *.
  replace (d1 + 0 - (d2 + 0) - 53) with (- (53 + d2 - d1)) by lia.
  apply round_trunc; try done; try lia.
  assert (2 ^ d2 <= 2 ^ (53 + d2 - d1)) by (apply Z.pow_le_mono_r; lia). lia.
Qed.

(** The quotient of two floats that hold integers. *)
Lemma div_float_trunc a b :
  a ≠ 0 -> Z.abs a < 2 ^ 53 -> b ≠ 0 -> Z.abs b < 2 ^ 53 ->
  ∃ m e, SFdiv 53 1024 (b64_of_int a) (b64_of_int b)
         = S754_finite (xorb (a <? 0) (b <? 0)) m e
         ∧ (if 0 <=? e then Zpos m * 2 ^ e else Zpos m / 2 ^ (- e))
           = Z.abs a / Z.abs b.
Proof.
  intros Ha Ha53 Hb Hb53.
  destruct (b64_of_int_exact a Ha Ha53) as (ma & ja & -> & Hja & Hma & Hra).
  destruct (b64_of_int_exact b Hb Hb53) as (mb & jb & -> & Hjb & Hmb & Hrb).
  unfold SFdiv.
  assert (Hda : Zpos (digits2_pos ma) = 53) by (apply digits_unique; lia).
  assert (Hdb : Zpos (digits2_pos mb) = 53) by (apply digits_unique; lia).
  destruct (div_core_spec ma mb (- ja) (- jb)) as (l & -> & Hq);
    [rewrite Hda, Hdb; lia..|].
  rewrite Hda, Hdb in Hq |- *.
  replace (53 + 53 - 53) with 53 in Hq |- * by lia.
  replace (53 + - ja - (53 + - jb) - 53) with (- (53 + ja - jb)) by lia.
  assert (0 < 2 ^ ja) by (apply Z.pow_pos_nonneg; lia).
  assert (0 < 2 ^ jb) by (apply Z.pow_pos_nonneg; lia).
  assert (0 < Z.abs a) by lia. assert (0 < Z.abs b) by lia.
  assert (Hsame : Zpos ma * 2 ^ 53 / Zpos mb
                  = Z.abs a * 2 ^ (53 + ja - jb) / Z.abs b).
  { rewrite Hma, Hmb.
    replace (Z.abs a * 2 ^ ja * 2 ^ 53)
      with (Z.abs a * 2 ^ (53 + ja - jb) * 2 ^ jb).
    - by rewrite Z.div_mul_cancel_r by lia.
    - rewrite <- !Z.mul_assoc, <- !Z.pow_add_r by lia. do 2 f_equal. lia. }
  apply round_trunc; try done; try lia.
  assert (Z.abs b * 2 ^ jb < 2 ^ 53) by lia.
  assert (2 ^ 53 * 1 <= 2 ^ (53 + ja - jb) * 2 ^ jb).
  { rewrite <- Z.pow_add_r by lia. rewrite Z.mul_1_r.
    apply Z.pow_le_mono_r; lia. }
  nia.
Qed.

Lemma b64_of_int_zero : b64_of_int 0 = S754_zero false.
Proof. done. Qed.

(** For operands that hold integers below [2^53] the conversion is the
    quotient of the integers with its fractional part dropped, whether the
    operands are integers or floats. *)
Lemma to_voxel_exact x y a b :
  stands_for x a -> stands_for y b ->
  Z.abs a < 2 ^ 53 -> b ≠ 0 -> Z.abs b < 2 ^ 53 ->
  Coords.to_voxel x y = Returned (Z.quot a b).
Proof.
  intros Hx Hy Ha Hb Hb53. rewrite quot_sign by done.
  assert (Hint : Coords.to_voxel (PyInt a) (PyInt b)
                 = Returned (if xorb (a <? 0) (b <? 0) then - (Z.abs a / Z.abs b)
                             else Z.abs a / Z.abs b)).
  { unfold Coords.to_voxel, py_truediv.
    destruct (Z.eqb_spec b 0); [done|].
    destruct (Z.eq_dec a 0) as [->|Ha0].
    { simpl. by destruct (b <? 0). }
    destruct (div_int_trunc a b) as (m & e & -> & Hm); [done..|].
    by apply int_of_finite. }
  assert (Hfloat : match b64_truediv (b64_of_int a) (b64_of_int b) with
                   | Returned q => b64_int q
                   | Raised e => Raised e
                   end
                   = Returned (if xorb (a <? 0) (b <? 0)
                               then - (Z.abs a / Z.abs b)
                               else Z.abs a / Z.abs b)).
  { unfold b64_truediv.
    destruct (b64_of_int_exact b Hb Hb53) as (mb & jb & Hfb & _).
    rewrite Hfb at 1.
    destruct (Z.eq_dec a 0) as [->|Ha0].
    { rewrite Hfb. simpl. by destruct (b <? 0). }
    destruct (div_float_trunc a b) as (m & e & -> & Hm); [done..|].
    by apply int_of_finite. }
  assert (Hconv : ∀ z, Z.abs z < 2 ^ 53 →
            to_float (PyInt z) = Returned (b64_of_int z)).
  { intros z Hz. unfold to_float.
    destruct (Z.eq_dec z 0) as [->|Hz0]; [done|].
    by destruct (b64_of_int_exact z Hz0 Hz) as (m & j & -> & _). }
  destruct Hx as [-> | ->], Hy as [-> | ->]; [done|..];
    unfold Coords.to_voxel, py_truediv; rewrite ?Hconv by done; done.
Qed.
End Exact.

(** *** [int(a / b)] *)

Lemma to_voxel_small x y a b :
  stands_for x a → small a → stands_for y b → small b → b ≠ 0%Z →
  Coords.to_voxel x y = Returned (Z.quot a b).
Proof. intros Hx Ha Hy Hb Hb0. by apply to_voxel_exact. Qed.

(** A zero divisor raises, float or integer. *)
Lemma to_voxel_zero x y : stands_for y 0%Z → ∃ e, Coords.to_voxel x y = Raised e.
Proof.
  unfold Coords.to_voxel, py_truediv.
  intros [-> | ->]; destruct x as [a|f]; simpl; eauto.
  destruct (b64_of_int a); simpl; eauto.
Qed.

(** What [int] returns is the value of the float with its fractional part
    dropped. *)
Lemma int_truncates f n :
  b64_int f = Returned n → ∃ v, b64_value f = Some v ∧ Q_truncation v n.
Proof.
  destruct f as [s|s| |sign m e]; simpl; try done.
  - intros [= <-]. exists 0%Q. split; [done|]. by repeat split.
  - intros [= <-]. eexists. split; [done|].
    destruct (Z.leb_spec 0 e) as [He|He].
    + assert (0 < Z.pos m * 2 ^ e)%Z.
      { apply Z.mul_pos_pos; [done|]. by apply Z.pow_pos_nonneg. }
      destruct sign; unfold Q_truncation, Qle, Qlt, Qabs, Qopp, Qmult, inject_Z;
        simpl; repeat split; nia.
    + assert (Hpow : (0 < 2 ^ (- e))%Z) by (apply Z.pow_pos_nonneg; lia).
      assert (HP : Zpos (Z.to_pos (2 ^ (- e))) = (2 ^ (- e))%Z) by by apply Z2Pos.id.
      pose proof (Z.mul_div_le (Zpos m) (2 ^ (- e)) Hpow) as Hle.
      pose proof (Z.mul_succ_div_gt (Zpos m) (2 ^ (- e)) Hpow) as Hgt.
      assert (0 <= Zpos m / 2 ^ (- e))%Z by (apply Z.div_pos; lia).
      set (M := (Zpos m / 2 ^ (- e))%Z) in *.
      destruct sign; unfold Q_truncation, Qle, Qlt, Qabs, Qopp, Qmult, inject_Z;
        simpl; rewrite ?HP; repeat split; nia.
Qed.

Lemma to_voxel_truncates a b n :
  Coords.to_voxel a b = Returned n → float_truncation a b n.
Proof.
  unfold Coords.to_voxel, float_truncation.
  destruct (py_truediv a b) as [q|]; [|done].
  intros (v & Hv & Hn)%int_truncates. eauto.
Qed.

Lemma quot_truncates (a b : Z) : b ≠ 0%Z → truncation_of a b (Z.quot a b).
Proof.
  intros Hb. unfold truncation_of.
  pose proof (Z.quot_rem' a b) as Hqr.
  pose proof (Z.rem_bound_abs a b Hb) as Hr.
  pose proof (Z.rem_sign_mul a b Hb) as Hs.
  pose proof (Z.quot_abs a b Hb) as Hq.
  pose proof (Z.rem_abs a b Hb) as Hra.
  pose proof (Z.quot_rem' (Z.abs a) (Z.abs b)) as Hqa.
  rewrite Hq, Hra in Hqa.
  split; [split|].
  - lia.
  - lia.
  - replace (a ÷ b * (a * b))%Z with (a * (b * (a ÷ b)))%Z by ring.
    replace (b * (a ÷ b))%Z with (a - Z.rem a b)%Z by lia.
    assert (Z.abs (Z.rem a b) <= Z.abs a)%Z by nia.
    nia.
Qed.

(** The three conversions of a row, whatever they return. *)
Lemma convert_returned res rep x y z :
  Coords.convert res rep = Returned (x, y, z) →
  Coords.to_voxel rep.1.1 res.1.1 = Returned x
  ∧ Coords.to_voxel rep.1.2 res.1.2 = Returned y
  ∧ Coords.to_voxel rep.2 res.2 = Returned z.
Proof.
  destruct res as [[v0 v1] v2], rep as [[r0 r1] r2]. unfold Coords.convert.
  simpl.
  destruct (Coords.to_voxel r0 v0) as [x'|]; [|done].
  destruct (Coords.to_voxel r1 v1) as [y'|]; [|done].
  destruct (Coords.to_voxel r2 v2) as [z'|]; [|done].
  by intros [= -> -> ->].
Qed.

(** The three conversions of a row of small integers. *)
Lemma convert_quot res rep res_z rep_z :
  stands_for3 rep rep_z → stands_for3 res res_z → nonzero3 res_z →
  Coords.convert res rep
  = Returned (Z.quot rep_z.1.1 res_z.1.1, Z.quot rep_z.1.2 res_z.1.2,
              Z.quot rep_z.2 res_z.2).
Proof.
  destruct res as [[v0 v1] v2], rep as [[r0 r1] r2].
  destruct res_z as [[b0 b1] b2], rep_z as [[a0 a1] a2].
  intros ([? ?] & [? ?] & [? ?]) ([? ?] & [? ?] & [? ?]) (? & ? & ?).
  simpl in *. unfold Coords.convert.
  by rewrite (to_voxel_small r0 v0 a0 b0), (to_voxel_small r1 v1 a1 b1),
    (to_voxel_small r2 v2 a2 b2).
Qed.

Lemma small_coords_nil : small_coords [].
Proof. intros key attrs rep Hin. by apply elem_of_nil in Hin. Qed.

Lemma small_coords_cons key attrs l2_data :
  match Coords.rep_coord_nm attrs with
  | Some rep => ∃ z, stands_for3 rep z
  | None => True
  end →
  small_coords l2_data → small_coords ((key, attrs) :: l2_data).
Proof.
  intros Hhead Htail key' attrs' rep [[= -> ->]|Hin]%elem_of_cons Hrep.
  - by rewrite Hrep in Hhead.
  - by apply (Htail key' attrs').
Qed.

Lemma stands_for3_ints (a b c : Z) :
  small a → small b → small c →
  stands_for3 (PyInt a, PyInt b, PyInt c) (a, b, c).
Proof. intros. repeat split; try done; by left. Qed.

(** C7: the voxel coordinates of a row are, component by component, the
    float quotient of the raw coordinate by the resolution with its
    fractional part dropped toward zero.  When the operands hold integers
    below 2^53, as integers or as floats, and the resolution has no zero, that
    is the quotient of the integers with its fractional part dropped, also for
    negative operands; so are the two worked examples of the specification,
    on integers and on floats. *)
Theorem voxel_conversion :
  (∀ rep res x y z,
     Coords.convert res rep = Returned (x, y, z) →
     float_truncation rep.1.1 res.1.1 x
     ∧ float_truncation rep.1.2 res.1.2 y
     ∧ float_truncation rep.2 res.2 z)
  ∧ (∀ rep res rep_z res_z,
       stands_for3 rep rep_z → stands_for3 res res_z → nonzero3 res_z →
       ∃ x y z,
         Coords.convert res rep = Returned (x, y, z)
         ∧ (x, y, z) = (Z.quot rep_z.1.1 res_z.1.1, Z.quot rep_z.1.2 res_z.1.2,
                        Z.quot rep_z.2 res_z.2)
         ∧ truncation_of rep_z.1.1 res_z.1.1 x
         ∧ truncation_of rep_z.1.2 res_z.1.2 y
         ∧ truncation_of rep_z.2 res_z.2 z)
  ∧ (Coords.convert (PyInt 4, PyInt 4, PyInt 40) (PyInt 400, PyInt 800, PyInt 1600)
     = Returned (100, 200, 40)%Z
     ∧ Coords.convert (PyInt 4, PyInt 1, PyInt 1) (PyInt 399, PyInt 0, PyInt 0)
       = Returned (99, 0, 0)%Z)
  ∧ (Coords.convert
       (PyFloat (b64_of_int 4), PyFloat (b64_of_int 4), PyFloat (b64_of_int 40))
       (PyFloat (b64_of_int 400), PyFloat (b64_of_int 800), PyFloat (b64_of_int 1600))
     = Returned (100, 200, 40)%Z
     ∧ Coords.convert
         (PyFloat (b64_of_int 4), PyFloat (b64_of_int 1), PyFloat (b64_of_int 1))
         (PyInt 399, PyInt 0, PyInt 0)
       = Returned (99, 0, 0)%Z).
Proof.
  split; [|split; [|split; split; reflexivity]].
  - intros rep res x y z (Hx & Hy & Hz)%convert_returned.
    repeat split; by apply to_voxel_truncates.
  - intros rep res rep_z res_z Hrep Hres Hnz. eexists _, _, _.
    split; [by apply convert_quot|].
    destruct Hnz as (H0 & H1 & H2).
    split; [done|]. repeat split; by apply quot_truncates.
Qed.

Lemma voxel_conversion_witness :
  ∃ x y z,
    Coords.convert (PyFloat (b64_of_int 4), PyInt 1, PyInt (-2))
      (PyInt (-399), PyInt 0, PyFloat (b64_of_int 7)) = Returned (x, y, z)
    ∧ (x, y, z) = (-99, 0, -3)%Z
    ∧ truncation_of (-399) 4 x ∧ truncation_of 0 1 y ∧ truncation_of 7 (-2) z.
Proof.
  destruct voxel_conversion as (_ & Hsmall & _).
  apply (Hsmall (PyInt (-399), PyInt 0, PyFloat (b64_of_int 7))
           (PyFloat (b64_of_int 4), PyInt 1, PyInt (-2))
           (-399, 0, 7)%Z (4, 1, -2)%Z).
  - repeat split; try (by left); try (by right); unfold small; simpl; lia.
  - repeat split; try (by left); try (by right); unfold small; simpl; lia.
  - repeat split; discriminate.
Defined.

(** The quotient is rounded to a float before its fractional part is
    dropped: for the integer coordinate [2^53 + 1] and the resolution 1 the
    row holds [2^53], which is not the quotient of the integers; and a zero in
    the resolution raises. *)
Lemma voxel_rounded_before_truncation :
  Coords.convert (PyInt 1, PyInt 1, PyInt 1)
    (PyInt 9007199254740993, PyInt 0, PyInt 0)
  = Returned (9007199254740992, 0, 0)%Z
  ∧ ¬ truncation_of 9007199254740993 1 9007199254740992
  ∧ Coords.convert (PyInt 0, PyInt 4, PyInt 40) (PyInt 400, PyInt 800, PyInt 1600)
    = Raised (lit "division by zero").
Proof.
  split; [reflexivity|]. split; [|reflexivity].
  unfold truncation_of. intros [[_ Hlt] _]. revert Hlt. simpl. lia.
Qed.

(** ** Stage C: the validator *)

Section ValidatorAssembly.
Variable id_to_sv : dict pystr N.
Variable errors : dict pystr (option pystr).
Variable sv_to_root : dict N N.

Local Abbreviation body := (Validate.step3_body id_to_sv errors sv_to_root).
Local Abbreviation entry := (validator_entry id_to_sv errors sv_to_root).

Lemma validator_body_join r old_id : body r old_id = validator_join r (entry old_id).
Proof.
  unfold validator_entry, Validate.step3_body, validator_join.
  destruct (dict_get errors old_id) as [err|]; [same_report|].
  destruct (dict_get id_to_sv old_id) as [sv|]; [|same_report].
  destruct (dict_get sv_to_root sv) as [root|]; [|same_report].
  destruct (decide (py_str root ≠ old_id)); same_report.
Qed.

(** Every entry is one line, one clean identifier and one count. *)
Lemma validator_entry_single old_id :
  ∃ line clean,
    Validate.lines (entry old_id) = [line]
    ∧ Validate.updated_ids (entry old_id) = [clean]
    ∧ validator_row_of old_id line
    ∧ (Validate.changed_count (entry old_id)
       + Validate.unchanged_count (entry old_id)
       + Validate.error_count (entry old_id) = 1)%nat.
Proof.
  unfold validator_entry, Validate.step3_body, validator_row_of.
  destruct (dict_get errors old_id) as [err|]; [simpl; eauto 10|].
  destruct (dict_get id_to_sv old_id) as [sv|]; [|simpl; eauto 10].
  destruct (dict_get sv_to_root sv) as [root|]; [|simpl; eauto 10].
  destruct (decide (py_str root ≠ old_id)); simpl; eauto 10.
Qed.

Lemma validator_fold ids r :
  fold_left body ids r
  = validator_join r (fold_left body ids Validate.report_empty).
Proof.
  revert r. induction ids as [|old_id ids IH]; intros r; simpl.
  - destruct r. unfold validator_join. simpl. rewrite !app_nil_r.
    f_equal; lia.
  - rewrite IH, (IH (body _ _)), !validator_body_join.
    unfold validator_join. simpl. rewrite <- !app_assoc. f_equal; lia.
Qed.

Lemma validator_step3_cons old_id ids :
  Validate.step3 id_to_sv errors sv_to_root (old_id :: ids)
  = validator_join (entry old_id) (Validate.step3 id_to_sv errors sv_to_root ids).
Proof.
  unfold Validate.step3. simpl. rewrite validator_fold. done.
Qed.

Lemma validator_lines_rows all_ids :
  Forall2 validator_row_of all_ids
    (Validate.lines (Validate.step3 id_to_sv errors sv_to_root all_ids)).
Proof.
  induction all_ids as [|old_id ids IH]; [constructor|].
  rewrite validator_step3_cons.
  destruct (validator_entry_single old_id) as (line & clean & Hl & _ & Hrow & _).
  simpl. rewrite Hl. simpl. by constructor.
Qed.

Lemma validator_lines_lookup all_ids i old_id :
  all_ids !! i = Some old_id →
  Validate.lines (Validate.step3 id_to_sv errors sv_to_root all_ids) !! i
    = Validate.lines (entry old_id) !! 0%nat
  ∧ Validate.updated_ids (Validate.step3 id_to_sv errors sv_to_root all_ids) !! i
    = Validate.updated_ids (entry old_id) !! 0%nat.
Proof.
  revert i. induction all_ids as [|a ids IH]; intros i Hi; [done|].
  rewrite validator_step3_cons.
  destruct (validator_entry_single a) as (line & clean & Hl & Hc & _ & _).
  simpl. rewrite Hl, Hc. destruct i as [|i]; simpl in *.
  - injection Hi as <-. rewrite Hl, Hc. done.
  - by apply IH.
Qed.

Lemma validator_counts all_ids :
  let r := Validate.step3 id_to_sv errors sv_to_root all_ids in
  (Validate.changed_count r + Validate.unchanged_count r + Validate.error_count r
   = length all_ids)%nat
  ∧ length (Validate.updated_ids r) = length all_ids
  ∧ length (Validate.lines r) = length all_ids.
Proof.
  induction all_ids as [|old_id ids IH]; [done|].
  rewrite validator_step3_cons.
  destruct (validator_entry_single old_id) as (line & clean & Hl & Hc & _ & Hn).
  simpl in *. rewrite Hl, Hc. simpl. lia.
Qed.
End ValidatorAssembly.

(** ** Stage C: the coordinate fetcher *)

Section CoordsAssembly.
Variable viewer_res : pynum * pynum * pynum.
Variable id_to_l2 : dict pystr N.
Variable errors : dict pystr (option pystr).
Variable l2_data : dict pystr Coords.l2_attrs.

Local Abbreviation body := (Coords.step3_body viewer_res id_to_l2 errors l2_data).
Local Abbreviation entry := (coords_entry viewer_res id_to_l2 errors l2_data).

Lemma coords_body_join r root_id :
  body r root_id
  = match entry root_id with
    | Returned e => Returned (coords_join r e)
    | Raised m => Raised m
    end.
Proof.
  unfold coords_entry, Coords.step3_body, coords_join.
  destruct (dict_in root_id errors); [f_equal; same_report|].
  destruct (dict_get id_to_l2 root_id) as [l2_id|]; [|f_equal; same_report].
  destruct (dict_get l2_data (py_str l2_id)) as [[[rep|]]|];
    [|f_equal; same_report..].
  destruct (Coords.convert viewer_res rep) as [[[x y] z]|m];
    [f_equal; same_report|done].
Qed.

(** Every entry that is computed is one row and one count. *)
Lemma coords_entry_shape root_id e :
  entry root_id = Returned e →
  ∃ line,
    Coords.lines e = [line]
    ∧ coords_row_of root_id line
    ∧ (Coords.success_count e + Coords.fail_count e = 1)%nat.
Proof.
  unfold coords_entry, Coords.step3_body, coords_row_of.
  destruct (dict_in root_id errors); [intros [= <-]; simpl; eauto 10|].
  destruct (dict_get id_to_l2 root_id) as [l2_id|]; [|intros [= <-]; simpl; eauto 10].
  destruct (dict_get l2_data (py_str l2_id)) as [[[rep|]]|];
    [|intros [= <-]; simpl; eauto 10..].
  destruct (Coords.convert viewer_res rep) as [[[x y] z]|m]; [|done].
  intros [= <-]. simpl. eauto 10.
Qed.

Lemma coords_loop_shape ids r r' :
  Coords.step3_loop viewer_res id_to_l2 errors l2_data ids r = Returned r' →
  ∃ t,
    r' = coords_join r t
    ∧ Forall2 coords_row_of ids (Coords.lines t)
    ∧ (Coords.success_count t + Coords.fail_count t = length ids)%nat.
Proof.
  revert r. induction ids as [|root_id ids IH]; intros r.
  - intros [= <-]. exists coords_none. split; [|split; [constructor|done]].
    destruct r. unfold coords_join. simpl. rewrite app_nil_r. f_equal; lia.
  - simpl. rewrite coords_body_join.
    destruct (entry root_id) as [e|m] eqn:He; [|done].
    destruct (coords_entry_shape root_id e He) as (line & Hl & Hrow & Hn).
    intros (t & -> & Hrows & Hc)%IH.
    exists (coords_join e t). split; [|split].
    + unfold coords_join. simpl. rewrite <- !app_assoc. f_equal; lia.
    + simpl. rewrite Hl. simpl. by constructor.
    + simpl. lia.
Qed.

Lemma coords_step3_shape all_ids r :
  Coords.step3 viewer_res id_to_l2 errors l2_data all_ids = Returned r →
  ∃ rows,
    Coords.lines r = Coords.header :: rows
    ∧ Forall2 coords_row_of all_ids rows
    ∧ (Coords.success_count r + Coords.fail_count r = length all_ids)%nat.
Proof.
  intros (t & -> & Hrows & Hc)%coords_loop_shape.
  exists (Coords.lines t). split; [done|]. split; [done|]. simpl. lia.
Qed.

Variable res : Z * Z * Z.
Hypothesis res_holds : stands_for3 viewer_res res.
Hypothesis res_nonzero : nonzero3 res.
Hypothesis data_small : small_coords l2_data.

(** With small integers for numbers and a resolution free of zeros every
    entry is computed, and so is the report. *)
Lemma coords_entry_returns root_id : ∃ e, entry root_id = Returned e.
Proof.
  unfold coords_entry, Coords.step3_body.
  destruct (dict_in root_id errors); [eauto|].
  destruct (dict_get id_to_l2 root_id) as [l2_id|]; [|eauto].
  destruct (dict_get l2_data (py_str l2_id)) as [[[rep|]]|] eqn:Hget; [|eauto..].
  apply dict_get_elem in Hget.
  destruct (data_small _ _ rep Hget eq_refl) as [rep_z Hrep].
  rewrite (convert_quot viewer_res rep res rep_z) by done. eauto.
Qed.

Lemma coords_loop_returns ids r :
  ∃ r', Coords.step3_loop viewer_res id_to_l2 errors l2_data ids r = Returned r'.
Proof.
  revert r. induction ids as [|root_id ids IH]; intros r; [by eexists|].
  simpl. rewrite coords_body_join.
  destruct (coords_entry_returns root_id) as [e ->]. apply IH.
Qed.

Lemma coords_step3_returns all_ids :
  ∃ r, Coords.step3 viewer_res id_to_l2 errors l2_data all_ids = Returned r.
Proof. apply coords_loop_returns. Qed.
End CoordsAssembly.

(** A zero in the resolution is a fault of the first row that has a
    coordinate, and no report is assembled. *)
Lemma coords_zero_resolution_raises :
  Coords.step3 (PyInt 0, PyInt 4, PyInt 40) [(lit "7", 70)] []
    [(lit "70", {| Coords.rep_coord_nm := Some (PyInt 400, PyInt 800, PyInt 1600) |})]
    [lit "7"]
  = Raised (lit "division by zero").
Proof. reflexivity. Qed.

(** C1: step 3 of either script writes one row per listed identifier,
    repeated ones included, the i-th row being the row of the i-th identifier,
    whatever the maps of steps 1 and 2 hold.  The coordinate report has its
    header line before the rows; it is assembled whenever no conversion
    raises, which is the case when the resolution of the dataset and the
    coordinates hold integers below 2^53 and the resolution has no zero
    component. *)
Theorem report_rows_complete (all_ids : list pystr)
    (id_to_sv : dict pystr N) (errors : dict pystr (option pystr))
    (sv_to_root : dict N N)
    (viewer_res : pynum * pynum * pynum) (id_to_l2 : dict pystr N)
    (l2_errors : dict pystr (option pystr)) (l2_data : dict pystr Coords.l2_attrs) :
  (Forall2 validator_row_of all_ids
     (Validate.lines (Validate.step3 id_to_sv errors sv_to_root all_ids))
   ∧ length (Validate.lines (Validate.step3 id_to_sv errors sv_to_root all_ids))
     = length all_ids)
  ∧ (∀ r, Coords.step3 viewer_res id_to_l2 l2_errors l2_data all_ids = Returned r →
       ∃ rows,
         Coords.lines r = Coords.header :: rows
         ∧ Forall2 coords_row_of all_ids rows
         ∧ length rows = length all_ids)
  ∧ (∀ res, stands_for3 viewer_res res → nonzero3 res → small_coords l2_data →
     ∃ r, Coords.step3 viewer_res id_to_l2 l2_errors l2_data all_ids = Returned r).
Proof.
  split; [|split].
  - split; [apply validator_lines_rows|apply validator_counts].
  - intros r (rows & Hl & Hrows & _)%coords_step3_shape.
    exists rows. repeat split; try done.
    symmetry. by eapply Forall2_length.
  - intros res Hres Hnz Hsmall. by apply (coords_step3_returns _ _ _ _ res).
Qed.

Lemma report_rows_complete_witness :
  ∃ r rows,
    Coords.step3 (PyInt 4, PyInt 4, PyInt 40) [(lit "7", 70)] [(lit "8", Some (lit "boom"))]
      [(lit "70", {| Coords.rep_coord_nm := Some (PyInt 400, PyInt 800, PyInt 1600) |})]
      [lit "8"; lit "7"; lit "9"; lit "7"] = Returned r
    ∧ Coords.lines r = Coords.header :: rows
    ∧ Forall2 coords_row_of [lit "8"; lit "7"; lit "9"; lit "7"] rows
    ∧ length rows = 4%nat.
Proof.
  destruct (report_rows_complete [lit "8"; lit "7"; lit "9"; lit "7"] [] [] []
              (PyInt 4, PyInt 4, PyInt 40) [(lit "7", 70)] [(lit "8", Some (lit "boom"))]
              [(lit "70", {| Coords.rep_coord_nm := Some (PyInt 400, PyInt 800, PyInt 1600) |})])
    as (_ & Hshape & Hreturns).
  destruct (Hreturns (4, 4, 40)%Z) as [r Hr].
  { by apply stands_for3_ints. }
  { repeat split; discriminate. }
  { apply small_coords_cons; [|apply small_coords_nil].
    exists (400, 800, 1600)%Z. by apply stands_for3_ints. }
  destruct (Hshape r Hr) as (rows & Hrows).
  exists r, rows. split; [exact Hr|exact Hrows].
Defined.

(** C9: the counters of step 3 add up to the number of listed identifiers,
    which is also the length of the validator's list of clean identifiers;
    the coordinate report is assembled whenever no conversion raises, which
    is the case when the resolution and the coordinates hold integers below
    2^53 and the resolution has no zero component. *)
Theorem counters_partition (all_ids : list pystr)
    (id_to_sv : dict pystr N) (errors : dict pystr (option pystr))
    (sv_to_root : dict N N)
    (viewer_res : pynum * pynum * pynum) (id_to_l2 : dict pystr N)
    (l2_errors : dict pystr (option pystr)) (l2_data : dict pystr Coords.l2_attrs) :
  (let r := Validate.step3 id_to_sv errors sv_to_root all_ids in
   (Validate.changed_count r + Validate.unchanged_count r + Validate.error_count r
    = length all_ids)%nat
   ∧ length (Validate.updated_ids r) = length all_ids)
  ∧ (∀ r, Coords.step3 viewer_res id_to_l2 l2_errors l2_data all_ids = Returned r →
       (Coords.success_count r + Coords.fail_count r = length all_ids)%nat)
  ∧ (∀ res, stands_for3 viewer_res res → nonzero3 res → small_coords l2_data →
     ∃ r, Coords.step3 viewer_res id_to_l2 l2_errors l2_data all_ids = Returned r).
Proof.
  split; [|split].
  - destruct (validator_counts id_to_sv errors sv_to_root all_ids) as (? & ? & _). done.
  - by intros r (rows & _ & _ & Hc)%coords_step3_shape.
  - intros res Hres Hnz Hsmall. by apply (coords_step3_returns _ _ _ _ res).
Qed.

Lemma counters_partition_witness :
  ∃ r,
    Coords.step3 (PyInt 4, PyInt 4, PyInt 40) [(lit "7", 70)] [(lit "8", Some (lit "boom"))]
      [(lit "70", {| Coords.rep_coord_nm := Some (PyInt 400, PyInt 800, PyInt 1600) |})]
      [lit "8"; lit "7"; lit "9"; lit "7"] = Returned r
    ∧ (Coords.success_count r + Coords.fail_count r = 4)%nat.
Proof.
  destruct (counters_partition [lit "8"; lit "7"; lit "9"; lit "7"] [] [] []
              (PyInt 4, PyInt 4, PyInt 40) [(lit "7", 70)] [(lit "8", Some (lit "boom"))]
              [(lit "70", {| Coords.rep_coord_nm := Some (PyInt 400, PyInt 800, PyInt 1600) |})])
    as (_ & Hcount & Hreturns).
  destruct (Hreturns (4, 4, 40)%Z) as [r Hr].
  { by apply stands_for3_ints. }
  { repeat split; discriminate. }
  { apply small_coords_cons; [|apply small_coords_nil].
    exists (400, 800, 1600)%Z. by apply stands_for3_ints. }
  exists r. split; [exact Hr|exact (Hcount r Hr)].
Defined.

(** ** Stage C: the validator's verdict *)

(** C6: an identifier that is not in the error map, whose leaf is known and
    whose leaf has a current root, is judged by comparing the text of the
    root with the identifier as written: equal texts give the line
    [[OK - Current]] and count as unchanged, different texts give the arrow
    line with the new root, which is also what the clean list receives. *)
Theorem validator_verdict (all_ids : list pystr)
    (id_to_sv : dict pystr N) (errors : dict pystr (option pystr))
    (sv_to_root : dict N N) (i : nat) (old_id : pystr) (sv root : N) :
  all_ids !! i = Some old_id →
  dict_get errors old_id = None →
  dict_get id_to_sv old_id = Some sv →
  dict_get sv_to_root sv = Some root →
  let r := Validate.step3 id_to_sv errors sv_to_root all_ids in
  let e := validator_entry id_to_sv errors sv_to_root old_id in
  (py_str root = old_id →
     e = Validate.add_unchanged Validate.report_empty old_id
     ∧ Validate.lines r !! i = Some (Validate.line_unchanged old_id)
     ∧ Validate.updated_ids r !! i = Some old_id)
  ∧ (py_str root ≠ old_id →
     e = Validate.add_changed Validate.report_empty old_id (py_str root)
     ∧ Validate.lines r !! i = Some (Validate.line_changed old_id (py_str root))
     ∧ Validate.updated_ids r !! i = Some (py_str root)).
Proof.
  intros Hi He Hsv Hroot r e.
  destruct (validator_lines_lookup id_to_sv errors sv_to_root all_ids i old_id Hi)
    as [Hl Hu].
  fold r in Hl, Hu. fold e in Hl, Hu.
  assert (Hent : e = if decide (py_str root ≠ old_id)
                     then Validate.add_changed Validate.report_empty old_id (py_str root)
                     else Validate.add_unchanged Validate.report_empty old_id).
  { unfold e, validator_entry, Validate.step3_body. by rewrite He, Hsv, Hroot. }
  split; intros Hcmp; rewrite Hl, Hu, Hent.
  - rewrite decide_False by (intros Hne; by apply Hne). done.
  - rewrite decide_True by done. done.
Qed.

Lemma validator_verdict_witness :
  let all_ids := [lit "100"; lit "100"] in
  let id_to_sv := [(lit "100", 5)] in
  (Validate.lines (Validate.step3 id_to_sv [] [(5, 100)] all_ids) !! 1%nat
     = Some (lit "100    [OK - Current]"))
  ∧ (Validate.lines (Validate.step3 id_to_sv [] [(5, 200)] all_ids) !! 1%nat
     = Some (lit "100    ->    200")).
Proof.
  intros all_ids id_to_sv. split.
  - apply (validator_verdict all_ids id_to_sv [] [(5, 100)] 1 (lit "100") 5 100);
      reflexivity.
  - apply (validator_verdict all_ids id_to_sv [] [(5, 200)] 1 (lit "100") 5 200);
      [reflexivity..|discriminate].
Defined.



(** ** Stage B: chunks *)

Lemma chunk_count (len n : nat) :
  (0 < n)%nat → (0 < len)%nat →
  ((len + n - 1) / n = S ((len - n + n - 1) / n))%nat.
Proof.
  intros Hn Hlen. destruct (Nat.le_gt_cases n len) as [Hle|Hlt].
  - replace (len + n - 1)%nat with ((len - n + n - 1) + 1 * n)%nat by lia.
    rewrite Nat.div_add by lia. lia.
  - replace (len - n + n - 1)%nat with (n - 1)%nat by lia.
    rewrite (Nat.div_small (n - 1) n) by lia.
    replace (len + n - 1)%nat with ((len - 1) + 1 * n)%nat by lia.
    rewrite Nat.div_add by lia. rewrite Nat.div_small by lia. lia.
Qed.

Lemma py_chunks_nil {A} (n : nat) : (0 < n)%nat → py_chunks n (@nil A) = [].
Proof.
  intros Hn. unfold py_chunks, py_range_step. simpl.
  rewrite Nat.div_small by lia. done.
Qed.

Lemma py_chunks_cons {A} (n : nat) (l : list A) :
  (0 < n)%nat → l ≠ [] →
  py_chunks n l = take n l :: py_chunks n (drop n l).
Proof.
  intros Hn Hl. unfold py_chunks, py_range_step.
  assert (0 < length l)%nat by (destruct l; [done|simpl; lia]).
  rewrite chunk_count by done. rewrite length_drop.
  cbn [seq]. rewrite <- fmap_S_seq. rewrite !fmap_cons. f_equal.
  rewrite <- !list_fmap_compose. apply list_fmap_ext. intros i k _. simpl.
  rewrite drop_drop. done.
Qed.

Lemma py_chunks_concat {A} (n : nat) (l : list A) :
  (0 < n)%nat → concat (py_chunks n l) = l.
Proof.
  intros Hn. remember (length l) as len eqn:Hlen.
  revert l Hlen. induction len as [len IH] using lt_wf_ind. intros l ->.
  destruct l as [|a l]; [by rewrite py_chunks_nil|].
  rewrite py_chunks_cons by done. simpl concat.
  rewrite (IH (length (drop n (a :: l)))); [apply take_drop| |done].
  rewrite length_drop. simpl. lia.
Qed.

(** ** Stage B: faults *)

Section StageB.
Context {St : Type}.

(** The coordinate fetcher calls the cache on every chunk, whatever the
    earlier answers were, and merges the answers that were returned. *)
Lemma coords_step2_loop_calls
    (get_l2data : list N -> St -> outcome (dict pystr Coords.l2_attrs) * St)
    chunks l2_data s :
  Coords.step2_loop get_l2data chunks l2_data s
  = (fold_left absorb (call_all get_l2data chunks s).1 l2_data,
     (call_all get_l2data chunks s).2).
Proof.
  revert l2_data s. induction chunks as [|chunk rest IH]; intros l2_data s; [done|].
  simpl. destruct (get_l2data chunk s) as [[chunk_data|e] s1];
    rewrite IH; destruct (call_all get_l2data rest s1); done.
Qed.

Lemma absorb_absent (answers : list (outcome (dict pystr Coords.l2_attrs)))
    l2_data key :
  dict_get l2_data key = None →
  (∀ chunk_data, Returned chunk_data ∈ answers → key ∉ dict_keys chunk_data) →
  dict_get (fold_left absorb answers l2_data) key = None.
Proof.
  revert l2_data. induction answers as [|a answers IH]; intros l2_data Hd Hans; [done|].
  simpl. apply IH; [|intros cd Hcd; apply Hans; by right].
  destruct a as [cd|e]; [|done]. simpl.
  destruct (dict_get (dict_update l2_data cd) key) as [v|] eqn:Hg; [|done].
  apply dict_get_update in Hg as [Hin|Hg]; [|congruence].
  exfalso. apply (Hans cd); [left|].
  unfold dict_keys. apply list_elem_of_fmap. by exists (key, v).
Qed.

(** The validator stops at the first chunk whose call faults: the chunks
    after it are not sent, and the fault is the result. *)
Lemma validate_step2_loop_fault
    (get_roots : list N -> St -> outcome (list N) * St)
    pre chunk post sv_to_root s e :
  all_returned (call_all get_roots pre s).1 →
  (get_roots chunk (call_all get_roots pre s).2).1 = Raised e →
  Validate.step2_loop get_roots (pre ++ chunk :: post) sv_to_root s
  = (Raised e, (get_roots chunk (call_all get_roots pre s).2).2).
Proof.
  revert sv_to_root s. induction pre as [|c pre IH]; intros sv_to_root s Hall Hf.
  - simpl in *. destruct (get_roots chunk s) as [[roots|e'] s1]; simpl in *; congruence.
  - simpl in *. destruct (get_roots c s) as [[roots|e'] s1].
    + destruct (call_all get_roots pre s1) as [rs s2] eqn:Hc. simpl in *.
      apply Forall_cons in Hall as [_ Hall].
      specialize (IH (dict_update sv_to_root (zip c roots)) s1).
      rewrite Hc in IH. simpl in IH. by apply IH.
    + destruct (call_all get_roots pre s1) as [rs s2]. simpl in Hall.
      apply Forall_cons in Hall as [[] _].
Qed.
End StageB.

Lemma coords_row_unavailable viewer_res id_to_l2 errors l2_data r root_id l2_id :
  dict_in root_id errors = false →
  dict_get id_to_l2 root_id = Some l2_id →
  dict_get l2_data (py_str l2_id) = None →
  Coords.step3_body viewer_res id_to_l2 errors l2_data r root_id
  = Returned (Coords.add_fail r root_id (lit "N/A")).
Proof.
  intros He Hl Hd. unfold Coords.step3_body. by rewrite He, Hl, Hd.
Qed.

Lemma call_all_length {St A B} (f : A -> St -> B * St) (l : list A) (s : St) :
  length (call_all f l s).1 = length l.
Proof.
  revert s. induction l as [|a l IH]; intros s; [done|].
  simpl. destruct (f a s) as [b s1]. specialize (IH s1).
  destruct (call_all f l s1). simpl in *. by rewrite IH.
Qed.

(** C4, as the code has it.  In the coordinate fetcher every chunk is sent
    to the cache whatever became of the chunks before it, and the result map
    is made of the returned answers only: a faulted chunk adds nothing, so a
    leaf is absent from the map, and the identifiers resolved to it get the
    [N/A] row, when no returned answer carries it.  In the validator the first
    chunk whose call faults ends the run: the later chunks are not sent and
    the fault stands in place of the report. *)
Theorem chunk_fault_policy {St : Type} :
  (∀ (get_l2data : list N -> St -> outcome (dict pystr Coords.l2_attrs) * St)
     (id_to_l2 : dict pystr N) (s : St),
     let chunks := py_chunks Coords.chunk_size (dict_values id_to_l2) in
     let answers := call_all get_l2data chunks s in
     let result := Coords.step2 get_l2data id_to_l2 s in
     result = (fold_left absorb answers.1 [], answers.2)
     ∧ length answers.1 = length chunks
     ∧ ∀ l2_id,
         (∀ chunk_data, Returned chunk_data ∈ answers.1 →
            py_str l2_id ∉ dict_keys chunk_data) →
         dict_get result.1 (py_str l2_id) = None
         ∧ ∀ viewer_res errors r root_id,
             dict_in root_id errors = false →
             dict_get id_to_l2 root_id = Some l2_id →
             Coords.step3_body viewer_res id_to_l2 errors result.1 r root_id
             = Returned (Coords.add_fail r root_id (lit "N/A")))
  ∧ (∀ (get_roots : list N -> St -> outcome (list N) * St)
       (all_ids : list pystr) (completed : list task_result) (s : St)
       pre chunk post e,
       py_chunks Validate.chunk_size (dict_values (collect completed).1)
         = pre ++ chunk :: post →
       all_returned (call_all get_roots pre s).1 →
       (get_roots chunk (call_all get_roots pre s).2).1 = Raised e →
       Validate.finish get_roots all_ids completed s
       = (Raised e, (get_roots chunk (call_all get_roots pre s).2).2)).
Proof.
  split.
  - intros get_l2data id_to_l2 s chunks answers result.
    assert (Hres : result = (fold_left absorb answers.1 [], answers.2))
      by apply coords_step2_loop_calls.
    split; [done|]. split; [apply call_all_length|].
    intros l2_id Habs.
    assert (Hnone : dict_get result.1 (py_str l2_id) = None).
    { rewrite Hres. simpl. by apply absorb_absent. }
    split; [done|]. intros viewer_res errors r root_id He Hl.
    by apply coords_row_unavailable with l2_id.
  - intros get_roots all_ids completed s pre chunk post e Hchunks Hall Hfault.
    unfold Validate.finish, Validate.step2.
    destruct (collect completed) as [id_to_sv errors]. simpl in Hchunks.
    rewrite Hchunks, (validate_step2_loop_fault get_roots pre chunk post [] s e) by done.
    done.
Qed.

Lemma chunk_fault_policy_witness :
  (dict_get
     (Coords.step2 (fun _ (s : unit) => (Raised (lit "504"), s))
        [(lit "1", 10); (lit "2", 20)] tt).1 (py_str 10) = None
   ∧ Coords.step3_body (PyInt 4, PyInt 4, PyInt 40) [(lit "1", 10); (lit "2", 20)] []
       (Coords.step2 (fun _ (s : unit) => (Raised (lit "504"), s))
          [(lit "1", 10); (lit "2", 20)] tt).1 Coords.report_start (lit "1")
     = Returned (Coords.add_fail Coords.report_start (lit "1") (lit "N/A")))
  ∧ Validate.finish (fun _ (s : unit) => (Raised (lit "500"), s))
      [lit "1"] [(lit "1", Some 10, None)] tt
    = (Raised (lit "500"), tt).
Proof.
  destruct (@chunk_fault_policy unit) as [Hc Hv]. split.
  - destruct (Hc (fun _ (s : unit) => (Raised (lit "504"), s))
                [(lit "1", 10); (lit "2", 20)] tt) as (_ & _ & Habs).
    destruct (Habs 10) as [Hnone Hrow].
    + intros chunk_data Hin. exfalso.
      apply list_elem_of_singleton in Hin. discriminate Hin.
    + split; [exact Hnone|]. apply Hrow; reflexivity.
  - apply (Hv (fun _ (s : unit) => (Raised (lit "500"), s)) [lit "1"]
             [(lit "1", Some 10, None)] tt [] [10] [] (lit "500")).
    + reflexivity.
    + apply Forall_nil_2.
    + reflexivity.
Defined.

(** C4 as stated fails when a leaf of the faulted chunk comes back with
    another chunk.  Identifiers [1] and [101] share the leaf [1]; the first
    chunk (the leaves of [1] to [100]) times out, the second (the leaf of
    [101]) is answered, and identifier [1] gets its coordinates. *)
Lemma faulted_leaf_still_present :
  let id_to_l2 := (collect (demo_tasks true)).1 in
  let chunks := py_chunks Coords.chunk_size (dict_values id_to_l2) in
  let l2_data := (Coords.step2 (demo_get_l2data 2) id_to_l2 tt).1 in
  (∃ chunk, chunks !! 0%nat = Some chunk
            ∧ 1 ∈ chunk
            ∧ (demo_get_l2data 2 chunk tt).1 = Raised (lit "504 Gateway Timeout"))
  ∧ dict_get id_to_l2 (lit "1") = Some 1
  ∧ dict_get l2_data (py_str 1) = Some (demo_attrs 1)
  ∧ ∃ r, demo_report 2 (demo_tasks true) = Returned r
         ∧ Coords.lines r !! 1%nat
           = Some (Coords.row (lit "1") (lit "1") (lit "200") (lit "40")).
Proof.
  intros id_to_l2 chunks l2_data. split; [|split; [|split]].
  - exists (N.of_nat <$> seq 1 100). split; [by vm_compute|]. split.
    + apply list_elem_of_here.
    + by vm_compute.
  - by vm_compute.
  - by vm_compute.
  - destruct (demo_report 2 (demo_tasks true)) as [r|e] eqn:Hr; [|by vm_compute in Hr].
    exists r. split; [done|].
    assert (Returned r = demo_report 2 (demo_tasks true)) as Hr' by done.
    vm_compute in Hr'. injection Hr' as ->. reflexivity.
Qed.

(** ** Completion order: the maps *)

Section Deterministic.
(** The outcome of a task is decided by its identifier. *)
Variable work : pystr -> task_result.
Hypothesis work_id : ∀ k, task_id (work k) = k.

Lemma collect_lookup_perm ids completed completed' :
  completed ≡ₚ work <$> ids → completed' ≡ₚ work <$> ids →
  ∀ k, dict_get (collect completed).1 k = dict_get (collect completed').1 k
       ∧ dict_get (collect completed).2 k = dict_get (collect completed').2 k.
Proof.
  intros Hp Hp' k.
  assert (Hmem : ∀ r, r ∈ completed ↔ r ∈ completed').
  { intros r. by rewrite Hp, Hp'. }
  assert (Hwork : ∀ r, r ∈ completed → r = work (task_id r)).
  { intros r Hr. rewrite Hp in Hr. apply list_elem_of_fmap in Hr as (k0 & -> & _).
    by rewrite work_id. }
  rewrite !collect_bindings. cbn [fst snd]. split.
  - apply dict_update_lookup_ext.
    + intros [k0 v]. rewrite !elem_of_leaf_bindings.
      split; intros (r & Hr & ?); exists r; split; auto; by apply Hmem.
    + intros k0 v v' (r & Hr & Hk & Hv)%elem_of_leaf_bindings
        (r' & Hr' & Hk' & Hv')%elem_of_leaf_bindings.
      rewrite (Hwork r Hr), Hk in Hv. rewrite (Hwork r' Hr'), Hk' in Hv'. congruence.
  - apply dict_update_lookup_ext.
    + intros [k0 v]. rewrite !elem_of_error_bindings.
      split; intros (r & Hr & ?); exists r; split; auto; by apply Hmem.
    + intros k0 v v' (r & Hr & Hk & _ & Hv)%elem_of_error_bindings
        (r' & Hr' & Hk' & _ & Hv')%elem_of_error_bindings.
      rewrite (Hwork r Hr), Hk in Hv. rewrite (Hwork r' Hr'), Hk' in Hv'. congruence.
Qed.
End Deterministic.

Lemma collect_NoDup completed :
  NoDup (dict_keys (collect completed).1) ∧ NoDup (dict_keys (collect completed).2).
Proof.
  rewrite collect_bindings. split; apply dict_update_NoDup, NoDup_nil_2.
Qed.

Lemma validator_step3_ext m m' e e' s s' all_ids :
  (∀ k, dict_get m k = dict_get m' k) →
  (∀ k, dict_get e k = dict_get e' k) →
  (∀ k, dict_get s k = dict_get s' k) →
  Validate.step3 m e s all_ids = Validate.step3 m' e' s' all_ids.
Proof.
  intros Hm He Hs. unfold Validate.step3. generalize Validate.report_empty.
  induction all_ids as [|old_id ids IH]; intros r; [done|]. simpl.
  rewrite IH. f_equal. unfold Validate.step3_body.
  rewrite He, Hm. destruct (dict_get e' old_id); [done|].
  destruct (dict_get m' old_id) as [sv|]; [|done]. by rewrite Hs.
Qed.

Lemma coords_step3_ext res m m' e e' d d' all_ids :
  (∀ k, dict_get m k = dict_get m' k) →
  (∀ k, dict_get e k = dict_get e' k) →
  (∀ k, dict_get d k = dict_get d' k) →
  Coords.step3 res m e d all_ids = Coords.step3 res m' e' d' all_ids.
Proof.
  intros Hm He Hd. unfold Coords.step3. generalize Coords.report_start.
  induction all_ids as [|root_id ids IH]; intros r; [done|]. simpl.
  assert (Coords.step3_body res m e d r root_id
          = Coords.step3_body res m' e' d' r root_id) as ->.
  { unfold Coords.step3_body, dict_in. rewrite He, Hm.
    destruct (dict_get e' root_id); [done|].
    destruct (dict_get m' root_id) as [l2|]; [|done]. by rewrite Hd. }
  destruct (Coords.step3_body res m' e' d' r root_id); [apply IH|done].
Qed.

(** ** Completion order: services that answer item by item *)

Lemma existsb_same_members {A} (f : A -> bool) (l l' : list A) :
  (∀ x, x ∈ l ↔ x ∈ l') → existsb f l = existsb f l'.
Proof.
  intros Hmem. apply eq_true_iff_eq. rewrite !existsb_exists.
  split; intros (x & Hx & Hf); exists x; split; auto;
    apply list_elem_of_In, Hmem, list_elem_of_In, Hx.
Qed.

Lemma existsb_concat {A} (f : A -> bool) (ls : list (list A)) :
  existsb (existsb f) ls = existsb f (concat ls).
Proof.
  induction ls as [|l ls IH]; [done|]. simpl. by rewrite existsb_app, IH.
Qed.

Lemma zip_with_image {A B} (f : A -> B) (l : list A) :
  zip l (f <$> l) = (fun a => (a, f a)) <$> l.
Proof. induction l as [|a l IH]; [done|]. cbn. f_equal. exact IH. Qed.

Lemma validate_step2_loop_itemwise root_of fails msg chunks sv_to_root :
  Validate.step2_loop (itemwise_roots root_of fails msg) chunks sv_to_root tt
  = (if existsb fails (concat chunks) then Raised msg
     else Returned (dict_update sv_to_root
                      ((fun sv => (sv, root_of sv)) <$> concat chunks)), tt).
Proof.
  revert sv_to_root. induction chunks as [|chunk rest IH]; intros sv_to_root; [done|].
  simpl. unfold itemwise_roots at 1, stateless at 1.
  rewrite existsb_app. destruct (existsb fails chunk); [done|]. simpl.
  rewrite IH, zip_with_image, fmap_app, dict_update_app. done.
Qed.

Lemma validate_step2_itemwise root_of fails msg id_to_sv :
  Validate.step2 (itemwise_roots root_of fails msg) id_to_sv tt
  = (if existsb fails (dict_values id_to_sv) then Raised msg
     else Returned (dict_update []
                      ((fun sv => (sv, root_of sv)) <$> dict_values id_to_sv)), tt).
Proof.
  unfold Validate.step2. rewrite validate_step2_loop_itemwise.
  rewrite py_chunks_concat; [done|]. unfold Validate.chunk_size. lia.
Qed.

Lemma coords_step2_loop_itemwise attrs_of chunks l2_data :
  Coords.step2_loop (itemwise_l2data attrs_of) chunks l2_data tt
  = (dict_update l2_data
       (omap (fun l => match attrs_of l with
                       | Some a => Some (py_str l, a)
                       | None => None
                       end) (concat chunks)), tt).
Proof.
  revert l2_data. induction chunks as [|chunk rest IH]; intros l2_data; [done|].
  simpl. unfold itemwise_l2data at 1, stateless at 1.
  rewrite IH, omap_app, dict_update_app. done.
Qed.

Lemma coords_step2_itemwise attrs_of id_to_l2 :
  Coords.step2 (itemwise_l2data attrs_of) id_to_l2 tt
  = (dict_update []
       (omap (fun l => match attrs_of l with
                       | Some a => Some (py_str l, a)
                       | None => None
                       end) (dict_values id_to_l2)), tt).
Proof.
  unfold Coords.step2. rewrite coords_step2_loop_itemwise.
  rewrite py_chunks_concat; [done|]. unfold Coords.chunk_size. lia.
Qed.

(** The report is the same for two completion orders of tasks whose outcome
    is decided by the identifier. *)
Lemma validator_finish_perm work root_of fails msg all_ids completed completed' :
  (∀ k, task_id (work k) = k) →
  completed ≡ₚ work <$> all_ids → completed' ≡ₚ work <$> all_ids →
  Validate.finish (itemwise_roots root_of fails msg) all_ids completed tt
  = Validate.finish (itemwise_roots root_of fails msg) all_ids completed' tt.
Proof.
  intros Hid Hp Hp'.
  pose proof (collect_lookup_perm work Hid all_ids completed completed' Hp Hp') as Hlk.
  pose proof (collect_NoDup completed) as [Hnd _].
  pose proof (collect_NoDup completed') as [Hnd' _].
  unfold Validate.finish.
  destruct (collect completed) as [m e], (collect completed') as [m' e'].
  simpl in *. rewrite !validate_step2_itemwise.
  assert (Hvals : ∀ v, v ∈ dict_values m ↔ v ∈ dict_values m').
  { apply dict_values_same; [done..|]. intros k. apply Hlk. }
  rewrite (existsb_same_members fails _ _ Hvals).
  destruct (existsb fails (dict_values m')); [done|].
  f_equal. f_equal. apply validator_step3_ext; try (intros k; apply Hlk).
  intros sv. apply dict_update_lookup_ext.
  - intros [sv0 root]. rewrite !list_elem_of_fmap.
    split; intros (x & Hx & Hin); exists x; split; auto; by apply Hvals.
  - intros sv0 root root' (x & [= -> ->] & _)%list_elem_of_fmap
      (x' & [= -> ->] & _)%list_elem_of_fmap. done.
Qed.

Lemma coords_finish_perm work attrs_of viewer_res all_ids completed completed' :
  (∀ k, task_id (work k) = k) →
  completed ≡ₚ work <$> all_ids → completed' ≡ₚ work <$> all_ids →
  Coords.finish (itemwise_l2data attrs_of) viewer_res all_ids completed tt
  = Coords.finish (itemwise_l2data attrs_of) viewer_res all_ids completed' tt.
Proof.
  intros Hid Hp Hp'.
  pose proof (collect_lookup_perm work Hid all_ids completed completed' Hp Hp') as Hlk.
  pose proof (collect_NoDup completed) as [Hnd _].
  pose proof (collect_NoDup completed') as [Hnd' _].
  unfold Coords.finish.
  destruct (collect completed) as [m e], (collect completed') as [m' e'].
  simpl in *. rewrite !coords_step2_itemwise.
  assert (Hvals : ∀ v, v ∈ dict_values m ↔ v ∈ dict_values m').
  { apply dict_values_same; [done..|]. intros k. apply Hlk. }
  f_equal. apply coords_step3_ext; try (intros k; apply Hlk).
  intros key. apply dict_update_lookup_ext.
  - intros [key0 a]. rewrite !list_elem_of_omap.
    split; intros (x & Hin & Hx); exists x; split; auto; by apply Hvals.
  - intros key0 a a' (x & _ & Hx)%list_elem_of_omap (x' & _ & Hx')%list_elem_of_omap.
    destruct (attrs_of x) as [b|] eqn:Hb; [|done].
    destruct (attrs_of x') as [b'|] eqn:Hb'; [|done].
    injection Hx as Hk <-. injection Hx' as Hk' <-.
    assert (x = x') as -> by (apply py_str_inj; congruence). congruence.
Qed.

Lemma validator_task_id int_other {St} (get_leaves : Z -> St -> outcome (list N) * St)
    root_id s :
  task_id (Validate.get_one_supervoxel int_other get_leaves root_id s).1 = root_id.
Proof.
  unfold Validate.get_one_supervoxel.
  destruct (py_int int_other root_id) as [n|e]; [|done].
  destruct (get_leaves n s) as [[[|leaf ?]|e] s1]; done.
Qed.

Lemma coords_task_id int_other {St} (get_leaves : Z -> Z -> St -> outcome (list N) * St)
    root_id s :
  task_id (Coords.get_one_l2 int_other get_leaves root_id s).1 = root_id.
Proof.
  unfold Coords.get_one_l2.
  destruct (py_int int_other root_id) as [n|e]; [|done].
  destruct (get_leaves n 2%Z s) as [[[|leaf ?]|e] s1]; done.
Qed.

(** C8, as the code has it.  On a service whose answer to a leaf lookup
    depends on the request only, any two completion orders of the tasks give
    maps with the same lookups (the order of their entries may differ).  The
    report is then the same in the validator when root resolution answers
    item by item, faults included, and in the coordinate fetcher when the
    attribute cache answers item by item without a fault. *)
Theorem completion_order_invariance (int_other : pystr -> Z + pystr)
    (get_leaves : Z -> outcome (list N)) (get_leaves_at : Z -> Z -> outcome (list N))
    (all_ids : list pystr) :
  (∀ completed completed',
     completed ≡ₚ validator_tasks int_other get_leaves all_ids →
     completed' ≡ₚ validator_tasks int_other get_leaves all_ids →
     (∀ k, dict_get (collect completed).1 k = dict_get (collect completed').1 k
           ∧ dict_get (collect completed).2 k = dict_get (collect completed').2 k)
     ∧ ∀ root_of fails msg,
         Validate.finish (itemwise_roots root_of fails msg) all_ids completed tt
         = Validate.finish (itemwise_roots root_of fails msg) all_ids completed' tt)
  ∧ (∀ completed completed',
     completed ≡ₚ coords_tasks int_other get_leaves_at all_ids →
     completed' ≡ₚ coords_tasks int_other get_leaves_at all_ids →
     (∀ k, dict_get (collect completed).1 k = dict_get (collect completed').1 k
           ∧ dict_get (collect completed).2 k = dict_get (collect completed').2 k)
     ∧ ∀ attrs_of viewer_res,
         Coords.finish (itemwise_l2data attrs_of) viewer_res all_ids completed tt
         = Coords.finish (itemwise_l2data attrs_of) viewer_res all_ids completed' tt).
Proof.
  split; intros completed completed' Hp Hp'.
  - set (work := fun rid =>
       (Validate.get_one_supervoxel int_other (stateless get_leaves) rid tt).1).
    assert (Hid : ∀ k, task_id (work k) = k) by (intros k; apply validator_task_id).
    split.
    + by apply (collect_lookup_perm work Hid all_ids).
    + intros root_of fails msg. by apply (validator_finish_perm work).
  - set (work := fun rid =>
       (Coords.get_one_l2 int_other
          (fun root layer => stateless (get_leaves_at root) layer) rid tt).1).
    assert (Hid : ∀ k, task_id (work k) = k) by (intros k; apply coords_task_id).
    split.
    + by apply (collect_lookup_perm work Hid all_ids).
    + intros attrs_of viewer_res. by apply (coords_finish_perm work).
Qed.

Lemma completion_order_invariance_witness :
  let ids := [lit "1"; lit "2"] in
  let leaves := fun root : Z => Returned [Z.to_N root + 10] in
  let tasks := validator_tasks ascii_only_int leaves ids in
  Validate.finish (itemwise_roots (fun sv => sv - 9) (fun _ => false) []) ids tasks tt
  = Validate.finish (itemwise_roots (fun sv => sv - 9) (fun _ => false) []) ids
      (rev tasks) tt.
Proof.
  intros ids leaves tasks.
  destruct (completion_order_invariance ascii_only_int leaves
              (fun _ _ => Returned []) ids) as [Hv _].
  apply (Hv tasks (rev tasks)).
  - reflexivity.
  - apply perm_swap.
Defined.

(** C8 as stated fails in the coordinate fetcher.  The service is fixed and
    answers item by item, timing out on any batch that holds leaf [1].  When
    the 101 tasks complete in input order that leaf shares its batch with 99
    others, and one identifier gets coordinates; when they complete in the
    opposite order it is alone in the second batch, and a hundred do. *)
Lemma completion_order_changes_report :
  rev (demo_tasks false) ≡ₚ demo_tasks false
  ∧ (∃ r, demo_report 1 (demo_tasks false) = Returned r
          ∧ Coords.success_count r = 1%nat)
  ∧ (∃ r, demo_report 1 (rev (demo_tasks false)) = Returned r
          ∧ Coords.success_count r = 100%nat)
  ∧ demo_report 1 (demo_tasks false) ≠ demo_report 1 (rev (demo_tasks false)).
Proof.
  assert (H1 : ∃ r, demo_report 1 (demo_tasks false) = Returned r
                    ∧ Coords.success_count r = 1%nat).
  { destruct (demo_report 1 (demo_tasks false)) as [r|e] eqn:Hr; [|by vm_compute in Hr].
    exists r. split; [done|].
    assert (Returned r = demo_report 1 (demo_tasks false)) as Hr' by done.
    vm_compute in Hr'. injection Hr' as ->. reflexivity. }
  assert (H2 : ∃ r, demo_report 1 (rev (demo_tasks false)) = Returned r
                    ∧ Coords.success_count r = 100%nat).
  { destruct (demo_report 1 (rev (demo_tasks false))) as [r|e] eqn:Hr;
      [|by vm_compute in Hr].
    exists r. split; [done|].
    assert (Returned r = demo_report 1 (rev (demo_tasks false))) as Hr' by done.
    vm_compute in Hr'. injection Hr' as ->. reflexivity. }
  split; [symmetry; apply Permutation_rev|]. split; [done|]. split; [done|].
  destruct H1 as (r1 & Hr1 & Hc1), H2 as (r2 & Hr2 & Hc2).
  rewrite Hr1, Hr2. intros [= ->]. congruence.
Qed.

(** * Further properties of the two scripts *)

(** ** Trimming *)

Lemma lstrip_head s :
  py_lstrip s = [] ∨ ∃ c r, py_lstrip s = c :: r ∧ py_isspace c = false.
Proof.
  induction s as [|c s IH]; [by left|]. simpl.
  destruct (py_isspace c) eqn:Hc; [done|]. right. eauto.
Qed.

Lemma lstrip_fixed c r : py_isspace c = false → py_lstrip (c :: r) = c :: r.
Proof. intros Hc. simpl. by rewrite Hc. Qed.

Lemma lstrip_split s :
  ∃ p, s = p ++ py_lstrip s ∧ forallb py_isspace p = true.
Proof.
  induction s as [|c s (p & Hs & Hp)]; [by exists []|]. simpl.
  destruct (py_isspace c) eqn:Hc.
  - exists (c :: p). simpl. rewrite Hc, Hp. split; [by f_equal|done].
  - by exists [].
Qed.

Lemma lstrip_idem s : py_lstrip (py_lstrip s) = py_lstrip s.
Proof.
  destruct (lstrip_head s) as [->|(c & r & -> & Hc)]; [done|]. by apply lstrip_fixed.
Qed.

Lemma rstrip_idem s : py_rstrip (py_rstrip s) = py_rstrip s.
Proof. unfold py_rstrip. by rewrite rev_involutive, lstrip_idem. Qed.

(** Trimming the right end keeps a first character that is not blank. *)
Lemma rstrip_keeps_head c r :
  py_isspace c = false → ∃ r', py_rstrip (c :: r) = c :: r'.
Proof.
  intros Hc. unfold py_rstrip.
  destruct (lstrip_split (rev (c :: r))) as (p & Hs & Hp).
  set (u := py_lstrip (rev (c :: r))) in *.
  assert (Hrev : c :: r = rev u ++ rev p).
  { rewrite <- rev_app_distr, <- Hs. by rewrite rev_involutive. }
  destruct (rev u) as [|c' r'] eqn:Hu.
  - simpl in Hrev. exfalso.
    assert (In c (rev p)) as Hin by (rewrite <- Hrev; by left).
    apply in_rev in Hin. rewrite forallb_forall in Hp.
    specialize (Hp c Hin). congruence.
  - simpl in Hrev. injection Hrev as <- _. eauto.
Qed.

Lemma strip_idem s : py_strip (py_strip s) = py_strip s.
Proof.
  unfold py_strip.
  destruct (lstrip_head s) as [->|(c & r & -> & Hc)]; [done|].
  destruct (rstrip_keeps_head c r Hc) as [r' Hr]. rewrite Hr.
  rewrite (lstrip_fixed c r' Hc), <- Hr. apply rstrip_idem.
Qed.

(** A trailing line feed is trimmed away. *)
Lemma strip_line_feed s : py_strip (s ++ [10]) = py_strip s.
Proof.
  unfold py_strip.
  assert (Hr : ∀ x, py_rstrip (x ++ [10]) = py_rstrip x).
  { intros x. unfold py_rstrip. by rewrite rev_app_distr. }
  induction s as [|c s IH]; [done|]. simpl.
  destruct (py_isspace c); [done|]. apply (Hr (c :: s)).
Qed.

(** ** The parsers line by line *)

(** Both parsers look at the trimmed line only. *)
Lemma validate_parse_line_strip od ids raw :
  Validate.parse_line od ids (py_strip raw) = Validate.parse_line od ids raw.
Proof. unfold Validate.parse_line. by rewrite strip_idem. Qed.

Lemma coords_parse_line_strip od ids raw :
  Coords.parse_line od ids (py_strip raw) = Coords.parse_line od ids raw.
Proof. unfold Coords.parse_line. by rewrite strip_idem. Qed.

(** What a line adds: nothing, or one trimmed run of digits. *)
Lemma validate_parse_line_yield od ids raw :
  Validate.parse_line od ids raw = ids
  ∨ ∃ id, Validate.parse_line od ids raw = ids ++ [id]
          ∧ py_isdigit od id = true ∧ py_strip id = id.
Proof.
  unfold Validate.parse_line.
  destruct (nonempty (py_strip raw)); [|by left]. simpl.
  destruct (py_contains [arrow] (py_strip raw)).
  - destruct (nonempty _ && py_isdigit od _) eqn:Hd; [|by left].
    apply andb_true_iff in Hd as [_ Hd]. right. eexists. split; [done|].
    split; [done|apply strip_idem].
  - destruct (py_isdigit od (py_strip raw)) eqn:Hd; [|by left].
    right. eexists. split; [done|]. split; [done|apply strip_idem].
Qed.

Lemma coords_parse_line_yield od ids raw :
  Coords.parse_line od ids raw = ids
  ∨ ∃ id, Coords.parse_line od ids raw = ids ++ [id]
          ∧ py_isdigit od id = true ∧ py_strip id = id.
Proof.
  unfold Coords.parse_line.
  destruct (negb (nonempty (py_strip raw)) || py_startswith (lit "#") (py_strip raw));
    [by left|].
  destruct (py_contains [arrow] (py_strip raw)).
  { destruct (nonempty _ && py_isdigit od _) eqn:Hd; [|by left].
    apply andb_true_iff in Hd as [_ Hd]. right. eexists. split; [done|].
    split; [done|apply strip_idem]. }
  destruct (py_contains (lit "->") (py_strip raw)).
  { destruct (nonempty _ && py_isdigit od _) eqn:Hd; [|by left].
    apply andb_true_iff in Hd as [_ Hd]. right. eexists. split; [done|].
    split; [done|apply strip_idem]. }
  destruct (py_isdigit od (py_strip raw)) eqn:Hd; [|by left].
  right. eexists. split; [done|]. split; [done|apply strip_idem].
Qed.

(** The identifiers found so far do not influence what a line adds. *)
Lemma validate_parse_line_app od ids raw :
  Validate.parse_line od ids raw = ids ++ Validate.parse_line od [] raw.
Proof.
  unfold Validate.parse_line.
  repeat match goal with
         | |- context [if ?b then _ else _] => destruct b
         end; by rewrite ?app_nil_r.
Qed.

Lemma coords_parse_line_app od ids raw :
  Coords.parse_line od ids raw = ids ++ Coords.parse_line od [] raw.
Proof.
  unfold Coords.parse_line.
  repeat match goal with
         | |- context [if ?b then _ else _] => destruct b
         end; by rewrite ?app_nil_r.
Qed.

Lemma validate_parse_fold od file ids :
  fold_left (Validate.parse_line od) file ids
  = ids ++ Validate.parse_id_file od file.
Proof.
  unfold Validate.parse_id_file. revert ids.
  induction file as [|raw file IH]; intros ids; [by rewrite app_nil_r|].
  simpl. rewrite IH, (IH (Validate.parse_line od [] raw)), app_assoc.
  by rewrite <- validate_parse_line_app.
Qed.

Lemma coords_parse_fold od file ids :
  fold_left (Coords.parse_line od) file ids
  = ids ++ Coords.parse_id_file od file.
Proof.
  unfold Coords.parse_id_file. revert ids.
  induction file as [|raw file IH]; intros ids; [by rewrite app_nil_r|].
  simpl. rewrite IH, (IH (Coords.parse_line od [] raw)), app_assoc.
  by rewrite <- coords_parse_line_app.
Qed.

(** X1: one file after another parses to one result after the other, for
    either parser: a line is read on its own, whatever came before. *)
Theorem parse_files_in_sequence (od : codepoint -> bool) (file1 file2 : list pystr) :
  Validate.parse_id_file od (file1 ++ file2)
  = Validate.parse_id_file od file1 ++ Validate.parse_id_file od file2
  ∧ Coords.parse_id_file od (file1 ++ file2)
    = Coords.parse_id_file od file1 ++ Coords.parse_id_file od file2.
Proof.
  split.
  - unfold Validate.parse_id_file at 1. rewrite fold_left_app.
    apply validate_parse_fold.
  - unfold Coords.parse_id_file at 1. rewrite fold_left_app.
    apply coords_parse_fold.
Qed.

Lemma validate_parse_cons od raw file :
  Validate.parse_id_file od (raw :: file)
  = Validate.parse_line od [] raw ++ Validate.parse_id_file od file.
Proof. unfold Validate.parse_id_file at 1. simpl. apply validate_parse_fold. Qed.

Lemma coords_parse_cons od raw file :
  Coords.parse_id_file od (raw :: file)
  = Coords.parse_line od [] raw ++ Coords.parse_id_file od file.
Proof. unfold Coords.parse_id_file at 1. simpl. apply coords_parse_fold. Qed.

Lemma validate_parsed_digits od file :
  Forall (fun id => py_isdigit od id = true ∧ py_strip id = id)
    (Validate.parse_id_file od file)
  ∧ (length (Validate.parse_id_file od file) ≤ length file)%nat.
Proof.
  induction file as [|raw file [IHd IHl]]; [split; [constructor|done]|].
  rewrite validate_parse_cons.
  destruct (validate_parse_line_yield od [] raw) as [->|(id & -> & Hd & Hs)]; simpl.
  - split; [done|lia].
  - split; [by constructor|lia].
Qed.

Lemma coords_parsed_digits od file :
  Forall (fun id => py_isdigit od id = true ∧ py_strip id = id)
    (Coords.parse_id_file od file)
  ∧ (length (Coords.parse_id_file od file) ≤ length file)%nat.
Proof.
  induction file as [|raw file [IHd IHl]]; [split; [constructor|done]|].
  rewrite coords_parse_cons.
  destruct (coords_parse_line_yield od [] raw) as [->|(id & -> & Hd & Hs)]; simpl.
  - split; [done|lia].
  - split; [by constructor|lia].
Qed.

(** X2: whatever the file holds, either parser returns only trimmed,
    non-empty runs of digits, and at most one for each line. *)
Theorem parsed_ids_are_digits (od : codepoint -> bool) (file : list pystr) :
  (Forall (fun id => py_isdigit od id = true ∧ py_strip id = id)
     (Validate.parse_id_file od file)
   ∧ (length (Validate.parse_id_file od file) ≤ length file)%nat)
  ∧ (Forall (fun id => py_isdigit od id = true ∧ py_strip id = id)
       (Coords.parse_id_file od file)
     ∧ (length (Coords.parse_id_file od file) ≤ length file)%nat).
Proof. split; [apply validate_parsed_digits|apply coords_parsed_digits]. Qed.

(** X3: the two parsers read a file alike when no trimmed line starts with
    [#] and no line holds an ASCII arrow without a Unicode one. *)
Theorem parsers_agree (od : codepoint -> bool) (file : list pystr) :
  Forall (fun raw =>
            py_startswith (lit "#") (py_strip raw) = false
            ∧ (py_contains [arrow] (py_strip raw) = true
               ∨ py_contains (lit "->") (py_strip raw) = false)) file →
  Validate.parse_id_file od file = Coords.parse_id_file od file.
Proof.
  induction 1 as [|raw file [Hhash Harrows] _ IH]; [done|].
  rewrite validate_parse_cons, coords_parse_cons, IH. f_equal.
  unfold Validate.parse_line, Coords.parse_line. rewrite Hhash, orb_false_r.
  destruct (nonempty (py_strip raw)); [|done]. simpl.
  destruct Harrows as [->| ->]; [done|].
  by destruct (py_contains [arrow] (py_strip raw)).
Qed.

Lemma parsers_agree_witness :
  Validate.parse_id_file ascii_only_digit
    [lit "111"; lit " 222 " ++ [arrow] ++ lit " 333"; lit ""; lit "x->4" ++ [arrow] ++ lit "5"]
  = Coords.parse_id_file ascii_only_digit
      [lit "111"; lit " 222 " ++ [arrow] ++ lit " 333"; lit ""; lit "x->4" ++ [arrow] ++ lit "5"].
Proof.
  apply parsers_agree.
  repeat (apply Forall_cons; split; [split; [reflexivity|]|]);
    [right; reflexivity|left; reflexivity|right; reflexivity|left; reflexivity|].
  apply Forall_nil_2.
Defined.

(** ** Runs of digits *)

Lemma no_sep_in_digits od (sep s : pystr) c0 :
  head sep = Some c0 → isdigit_cp od c0 = false →
  forallb (isdigit_cp od) s = true → py_contains sep s = false.
Proof.
  intros Hsep Hc0. destruct sep as [|a sep]; [done|]. injection Hsep as ->.
  induction s as [|c s IH]; [done|].
  simpl. intros [Hc Hs]%andb_true_iff. rewrite (IH Hs), orb_false_r.
  destruct (N.eqb_spec c0 c) as [->|]; [congruence|done].
Qed.

Lemma unicode_digits_ascii od c :
  unicode_digits od → c < 128 → ascii_digit c = false → isdigit_cp od c = false.
Proof. intros [_ Hod] Hc Ha. unfold isdigit_cp. by rewrite Ha, Hod. Qed.

Lemma unicode_digits_arrow od : unicode_digits od → isdigit_cp od arrow = false.
Proof. intros [Ha _]. unfold isdigit_cp. by rewrite Ha. Qed.

Lemma isdigit_all od s : py_isdigit od s = true → forallb (isdigit_cp od) s = true.
Proof. unfold py_isdigit. by intros [_ ?]%andb_true_iff. Qed.

Lemma isdigit_head od s :
  py_isdigit od s = true → ∃ c r, s = c :: r ∧ isdigit_cp od c = true.
Proof.
  unfold py_isdigit. destruct s as [|c r]; [done|]. simpl.
  intros [? ?]%andb_true_iff. eauto.
Qed.

(** A trimmed run of digits on a line of its own is read as it stands. *)
Lemma validate_reads_digits od ids raw id :
  unicode_digits od → py_strip raw = id → py_isdigit od id = true →
  Validate.parse_line od ids raw = ids ++ [id].
Proof.
  intros Hod Hraw Hd. unfold Validate.parse_line. rewrite Hraw.
  destruct (isdigit_head od id Hd) as (c & r & -> & Hc). simpl negb. cbn match.
  rewrite (no_sep_in_digits od [arrow] (c :: r) arrow);
    auto using unicode_digits_arrow, isdigit_all.
  by rewrite Hd.
Qed.

Lemma coords_reads_digits od ids raw id :
  unicode_digits od → py_strip raw = id → py_isdigit od id = true →
  Coords.parse_line od ids raw = ids ++ [id].
Proof.
  intros Hod Hraw Hd. unfold Coords.parse_line. rewrite Hraw.
  destruct (isdigit_head od id Hd) as (c & r & -> & Hc).
  assert (py_startswith (lit "#") (c :: r) = false) as ->.
  { change (py_startswith (lit "#") (c :: r)) with ((35 =? c) && true).
    destruct (N.eqb_spec 35 c) as [<-|]; [|done].
    rewrite (unicode_digits_ascii od 35) in Hc; [done|done|reflexivity|reflexivity]. }
  cbn [nonempty negb orb].
  rewrite (no_sep_in_digits od [arrow] (c :: r) arrow);
    auto using unicode_digits_arrow, isdigit_all.
  rewrite (no_sep_in_digits od (lit "->") (c :: r) 45); auto using isdigit_all.
  - by rewrite Hd.
  - by apply unicode_digits_ascii.
Qed.

Lemma validate_reads_list od ids :
  unicode_digits od →
  Forall (fun id => py_isdigit od id = true ∧ py_strip id = id) ids →
  Validate.parse_id_file od ids = ids.
Proof.
  intros Hod. induction 1 as [|id ids [Hd Hs] _ IH]; [done|].
  rewrite validate_parse_cons, IH.
  by rewrite (validate_reads_digits od [] id id).
Qed.

Lemma coords_reads_list od ids :
  unicode_digits od →
  Forall (fun id => py_isdigit od id = true ∧ py_strip id = id) ids →
  Coords.parse_id_file od ids = ids.
Proof.
  intros Hod. induction 1 as [|id ids [Hd Hs] _ IH]; [done|].
  rewrite coords_parse_cons, IH.
  by rewrite (coords_reads_digits od [] id id).
Qed.

(** X4: what a parser returns, listed one identifier a line, parses to
    itself, by either parser. *)
Theorem parse_own_output (od : codepoint -> bool) (file : list pystr) :
  unicode_digits od →
  Validate.parse_id_file od (Validate.parse_id_file od file)
  = Validate.parse_id_file od file
  ∧ Coords.parse_id_file od (Validate.parse_id_file od file)
    = Validate.parse_id_file od file
  ∧ Coords.parse_id_file od (Coords.parse_id_file od file)
    = Coords.parse_id_file od file
  ∧ Validate.parse_id_file od (Coords.parse_id_file od file)
    = Coords.parse_id_file od file.
Proof.
  intros Hod.
  destruct (validate_parsed_digits od file) as [Hv _].
  destruct (coords_parsed_digits od file) as [Hc _].
  repeat split; auto using validate_reads_list, coords_reads_list.
Qed.

Lemma unicode_digits_ascii_only : unicode_digits ascii_only_digit.
Proof. split; [reflexivity|]. intros c _. reflexivity. Qed.

Lemma parse_own_output_witness :
  Coords.parse_id_file ascii_only_digit
    (Validate.parse_id_file ascii_only_digit
       [lit "12"; lit "# 3"; lit "4 " ++ [arrow] ++ lit " 007 "; lit "12"])
  = Validate.parse_id_file ascii_only_digit
      [lit "12"; lit "# 3"; lit "4 " ++ [arrow] ++ lit " 007 "; lit "12"].
Proof.
  apply (parse_own_output ascii_only_digit
           [lit "12"; lit "# 3"; lit "4 " ++ [arrow] ++ lit " 007 "; lit "12"]).
  split; [reflexivity|]. intros c _. reflexivity.
Defined.


(** ** Text of an integer read back *)

Lemma uint_cps_digits d : forallb ascii_digit (uint_cps d) = true.
Proof. induction d; simpl; by rewrite ?IHd. Qed.

Lemma py_str_nonempty n : py_str n ≠ [].
Proof.
  unfold py_str. intros Hnil.
  assert (N.to_uint n = Decimal.Nil) as Hu.
  { destruct (N.to_uint n); simpl in Hnil; congruence. }
  assert (n = 0) as -> by (rewrite <- (DecimalN.Unsigned.of_to n), Hu; reflexivity).
  discriminate Hu.
Qed.

Lemma py_str_ascii_digits n : ascii_digits (py_str n) = true.
Proof.
  unfold ascii_digits. apply andb_true_iff. split.
  - pose proof (py_str_nonempty n). by destruct (py_str n).
  - apply uint_cps_digits.
Qed.

Lemma py_int_py_str int_other n : py_int int_other (py_str n) = inl (Z.of_N n).
Proof. unfold py_int. by rewrite py_str_ascii_digits, digits_value_py_str. Qed.

(** X5: the text that step 3 writes for a root is read back as that root:
    a line holding it, with or without its line feed, is taken by either
    parser as it stands, [int] gives the root, and the worker of either
    script sends exactly that root to the service. *)
Theorem root_text_read_back (od : codepoint -> bool) (int_other : pystr -> Z + pystr)
    (root : N) :
  Validate.parse_id_file od [py_str root ++ [10]] = [py_str root]
  ∧ Coords.parse_id_file od [py_str root ++ [10]] = [py_str root]
  ∧ Validate.parse_id_file od [py_str root] = [py_str root]
  ∧ Coords.parse_id_file od [py_str root] = [py_str root]
  ∧ py_int int_other (py_str root) = inl (Z.of_N root)
  ∧ (∀ St (get_leaves : Z -> St -> outcome (list N) * St) s,
       (Validate.get_one_supervoxel int_other get_leaves (py_str root) s).2
       = (get_leaves (Z.of_N root) s).2)
  ∧ (∀ St (get_leaves : Z -> Z -> St -> outcome (list N) * St) s,
       (Coords.get_one_l2 int_other get_leaves (py_str root) s).2
       = (get_leaves (Z.of_N root) 2%Z s).2).
Proof.
  pose proof (py_str_ascii_digits root) as Hd.
  assert (Hs : py_strip (py_str root) = py_str root)
    by apply strip_digits, ascii_digits_all, Hd.
  assert (Hn : py_strip (py_str root ++ [10]) = py_str root)
    by (by rewrite strip_line_feed).
  split; [|split; [|split; [|split; [|split; [|split]]]]].
  - apply (validate_accepts_digits od [] _ _ Hn Hd).
  - apply (coords_accepts_digits od [] _ _ Hn Hd).
  - apply (validate_accepts_digits od [] _ _ Hs Hd).
  - apply (coords_accepts_digits od [] _ _ Hs Hd).
  - apply py_int_py_str.
  - intros St get_leaves s. unfold Validate.get_one_supervoxel.
    rewrite py_int_py_str.
    by destruct (get_leaves (Z.of_N root) s) as [[[|leaf ?]|e] s'].
  - intros St get_leaves s. unfold Coords.get_one_l2.
    rewrite py_int_py_str.
    by destruct (get_leaves (Z.of_N root) 2%Z s) as [[[|leaf ?]|e] s'].
Qed.

(** ** Stage A: repeated identifiers *)

Section DictLast.
Context {K V : Type} `{EqDecision K}.
Implicit Types (d : dict K V) (k : K) (v : V).

Lemma dict_get_update_other d (p : list (K * V)) k :
  k ∉ p.*1 → dict_get (dict_update d p) k = dict_get d k.
Proof.
  unfold dict_update. revert d. induction p as [|[k0 v0] p IH]; intros d Hk; [done|].
  rewrite fmap_cons, not_elem_of_cons in Hk. destruct Hk as [Hne Hk].
  cbn [fold_left fst snd]. rewrite (IH _ Hk), dict_get_set.
  destruct (decide (k0 = k)); [by subst|done].
Qed.

Lemma dict_get_update_last d (p q : list (K * V)) k v :
  k ∉ q.*1 → dict_get (dict_update d (p ++ (k, v) :: q)) k = Some v.
Proof.
  intros Hk. rewrite dict_update_app. unfold dict_update at 1.
  cbn [fold_left fst snd]. fold (dict_update (dict_set (dict_update d p) k v) q).
  rewrite (dict_get_update_other _ q k Hk), dict_get_set. by rewrite decide_True.
Qed.

Lemma dict_set_length d k v :
  length (dict_set d k v)
  = if decide (k ∈ dict_keys d) then length d else S (length d).
Proof.
  assert (Hlen : ∀ d', length (dict_keys d') = length d')
    by (intros d'; apply length_fmap).
  rewrite <- (Hlen (dict_set d k v)), dict_set_keys.
  destruct (decide (k ∈ dict_keys d)); rewrite ?length_app, Hlen; simpl; lia.
Qed.

Lemma dict_update_length d (p : list (K * V)) :
  (length (dict_update d p) ≤ length d + length p)%nat
  ∧ (NoDup (dict_keys d ++ p.*1) →
     length (dict_update d p) = (length d + length p)%nat).
Proof.
  unfold dict_update. revert d. induction p as [|[k0 v0] p IH]; intros d.
  - simpl. split; [lia|]. intros _. lia.
  - cbn [fold_left fst snd]. destruct (IH (dict_set d k0 v0)) as [Hle Heq].
    pose proof (dict_set_length d k0 v0) as Hlen.
    change (length ((k0, v0) :: p)) with (S (length p)).
    split.
    + revert Hlen. destruct (decide (k0 ∈ dict_keys d)); intros Hlen; lia.
    + intros Hnd. rewrite fmap_cons in Hnd.
      apply NoDup_app in Hnd as (Hd & Hdisj & Hp).
      apply NoDup_cons in Hp as [Hk0 Hp].
      assert (k0 ∉ dict_keys d) as Hout.
      { intros Hin. apply (Hdisj k0 Hin). left. }
      rewrite decide_False in Hlen by done.
      rewrite Heq; [lia|].
      rewrite dict_set_keys, decide_False by done.
      rewrite <- app_assoc. apply NoDup_app. split; [done|]. split.
      * intros x Hx [->|Hin]%elem_of_cons; [done|].
        apply (Hdisj x Hx). by right.
      * simpl. by apply NoDup_cons.
Qed.
End DictLast.

Lemma leaf_bindings_cons r rs :
  leaf_bindings (r :: rs)
  = match task_leaf r with
    | Some v => (task_id r, v) :: leaf_bindings rs
    | None => leaf_bindings rs
    end.
Proof. unfold leaf_bindings. cbn [omap list_omap]. by destruct (task_leaf r). Qed.

Lemma error_bindings_cons r rs :
  error_bindings (r :: rs)
  = match task_leaf r with
    | Some _ => error_bindings rs
    | None => (task_id r, r.2) :: error_bindings rs
    end.
Proof. unfold error_bindings. cbn [omap list_omap]. by destruct (task_leaf r). Qed.

Lemma bindings_length completed :
  (length (leaf_bindings completed) + length (error_bindings completed)
   = length completed)%nat.
Proof.
  induction completed as [|r rs IH]; [done|].
  rewrite leaf_bindings_cons, error_bindings_cons.
  destruct (task_leaf r); simpl; lia.
Qed.

Lemma leaf_bindings_app c1 c2 :
  leaf_bindings (c1 ++ c2) = leaf_bindings c1 ++ leaf_bindings c2.
Proof. apply omap_app. Qed.

Lemma error_bindings_app c1 c2 :
  error_bindings (c1 ++ c2) = error_bindings c1 ++ error_bindings c2.
Proof. apply omap_app. Qed.

(** X6: when an identifier is listed more than once, each map keeps for it
    what the last of its tasks to complete put there: the leaf of the last
    task that found one, and the reason of the last task that found none. *)
Theorem last_completion_wins (pre post : list task_result) (r : task_result) :
  (∀ leaf,
     task_leaf r = Some leaf →
     (∀ r', r' ∈ post → task_id r' = task_id r → task_leaf r' = None) →
     dict_get (collect (pre ++ r :: post)).1 (task_id r) = Some leaf)
  ∧ (task_leaf r = None →
     (∀ r', r' ∈ post → task_id r' = task_id r → is_Some (task_leaf r')) →
     dict_get (collect (pre ++ r :: post)).2 (task_id r) = Some r.2).
Proof.
  rewrite collect_bindings. cbn [fst snd]. split.
  - intros leaf Hleaf Hpost.
    rewrite leaf_bindings_app.
    change (r :: post) with ([r] ++ post). rewrite leaf_bindings_app.
    rewrite (leaf_bindings_cons r []), Hleaf. simpl.
    apply dict_get_update_last.
    intros ([k v] & Hk & (r' & Hr' & Hid & Hl)%elem_of_leaf_bindings)%list_elem_of_fmap.
    simpl in Hk. subst k. rewrite (Hpost r' Hr' Hid) in Hl. done.
  - intros Hleaf Hpost.
    rewrite error_bindings_app.
    change (r :: post) with ([r] ++ post). rewrite error_bindings_app.
    rewrite (error_bindings_cons r []), Hleaf. simpl.
    apply dict_get_update_last.
    intros ([k v] & Hk & (r' & Hr' & Hid & Hl & _)%elem_of_error_bindings)%list_elem_of_fmap.
    simpl in Hk. subst k. destruct (Hpost r' Hr' Hid) as [? Hs]. congruence.
Qed.

Lemma last_completion_wins_witness :
  dict_get
    (collect ([(lit "42", Some 7, None)]
              ++ (lit "42", Some 9, None) :: [(lit "42", None, Some (lit "timed out"))])).1
    (lit "42") = Some 9.
Proof.
  destruct (last_completion_wins [(lit "42", Some 7, None)]
              [(lit "42", None, Some (lit "timed out"))] (lit "42", Some 9, None))
    as [Hleaf _].
  apply Hleaf; [reflexivity|].
  intros r' Hr' _. apply list_elem_of_singleton in Hr'. by subst r'.
Defined.

(** X7: the sizes of the two maps, which step 1 prints, add up to at most
    the number of tasks, and to exactly that number when no identifier is
    listed twice. *)
Theorem map_sizes (completed : list task_result) :
  (length (collect completed).1 + length (collect completed).2
   ≤ length completed)%nat
  ∧ (NoDup (task_id <$> completed) →
     (length (collect completed).1 + length (collect completed).2
      = length completed)%nat).
Proof.
  rewrite collect_bindings. cbn [fst snd].
  pose proof (bindings_length completed) as Hlen.
  destruct (dict_update_length (@nil (pystr * N)) (leaf_bindings completed)) as [Hl1 He1].
  destruct (dict_update_length (@nil (pystr * option pystr)) (error_bindings completed))
    as [Hl2 He2].
  simpl in *. split; [lia|]. intros Hnd.
  rewrite He1, He2; [lia| |].
  - clear -Hnd.
    induction completed as [|r rs IH]; [constructor|].
    rewrite fmap_cons in Hnd. apply NoDup_cons in Hnd as [Hr Hnd].
    rewrite error_bindings_cons. destruct (task_leaf r); [by apply IH|].
    simpl. apply NoDup_cons. split; [|by apply IH].
    intros ([k v] & Hk & (r' & Hr' & Hid & _)%elem_of_error_bindings)%list_elem_of_fmap.
    simpl in Hk. apply Hr. apply list_elem_of_fmap. exists r'. split; [congruence|done].
  - clear -Hnd.
    induction completed as [|r rs IH]; [constructor|].
    rewrite fmap_cons in Hnd. apply NoDup_cons in Hnd as [Hr Hnd].
    rewrite leaf_bindings_cons. destruct (task_leaf r); [|by apply IH].
    simpl. apply NoDup_cons. split; [|by apply IH].
    intros ([k v] & Hk & (r' & Hr' & Hid & _)%elem_of_leaf_bindings)%list_elem_of_fmap.
    simpl in Hk. apply Hr. apply list_elem_of_fmap. exists r'. split; [congruence|done].
Qed.

Lemma map_sizes_witness :
  let completed : list task_result :=
    [(lit "2", None, Some (lit "boom")); (lit "1", Some 5, None)] in
  (length (collect completed).1 + length (collect completed).2 = 2)%nat.
Proof.
  intros completed. apply (map_sizes completed).
  apply NoDup_cons. split; [|apply NoDup_singleton].
  intros Hin. apply list_elem_of_singleton in Hin. discriminate Hin.
Defined.

(** ** Stage B: what is sent and what is kept *)

Lemma py_chunks_lookup {A} (n : nat) (l : list A) (i : nat) (c : list A) :
  (0 < n)%nat →
  py_chunks n l !! i = Some c →
  c = take n (drop (i * n) l) ∧ (i * n < length l)%nat.
Proof.
  intros Hn. unfold py_chunks, py_range_step.
  rewrite !list_lookup_fmap.
  destruct (seq 0 ((length l + n - 1) / n) !! i) as [k|] eqn:Hk; [|done].
  apply lookup_seq in Hk as [-> Hlt]. simpl. intros [= <-]. split; [done|].
  pose proof (Nat.Div0.mul_div_le (length l + n - 1) n) as Hq.
  set (q := ((length l + n - 1) / n)%nat) in *.
  assert (n * S i <= n * q)%nat by (apply Nat.mul_le_mono_l; lia).
  lia.
Qed.

Lemma py_chunks_length {A} (n : nat) (l : list A) :
  length (py_chunks n l) = ((length l + n - 1) / n)%nat.
Proof. unfold py_chunks, py_range_step. by rewrite !length_fmap, length_seq. Qed.

(** Every chunk holds between one and [n] elements, and [n] unless it is
    the last. *)
Lemma py_chunks_sizes {A} (n : nat) (l : list A) (i : nat) (c : list A) :
  (0 < n)%nat →
  py_chunks n l !! i = Some c →
  (0 < length c ≤ n)%nat
  ∧ (S i < length (py_chunks n l) → length c = n)%nat.
Proof.
  intros Hn Hc. destruct (py_chunks_lookup n l i c Hn Hc) as [-> Hlt].
  rewrite length_take, length_drop. split; [lia|].
  rewrite py_chunks_length. intros Hi.
  pose proof (Nat.Div0.mul_div_le (length l + n - 1) n) as Hq.
  set (q := ((length l + n - 1) / n)%nat) in *.
  assert (n * S (S i) <= n * q)%nat by (apply Nat.mul_le_mono_l; lia).
  lia.
Qed.

Section Recording.
Context {St A B : Type}.
Variable f : A -> St -> B * St.

Lemma recording_eq (a : A) (log : list A) (s : St) :
  recording f a (log, s) = ((f a s).1, (log ++ [a], (f a s).2)).
Proof. unfold recording. simpl. by destruct (f a s). Qed.

Lemma call_all_recording (l log : list A) (s : St) :
  call_all (recording f) l (log, s)
  = ((call_all f l s).1, (log ++ l, (call_all f l s).2)).
Proof.
  revert log s. induction l as [|a l IH]; intros log s.
  - simpl. by rewrite app_nil_r.
  - cbn [call_all]. rewrite recording_eq.
    destruct (f a s) as [b s1]. cbn [fst snd]. rewrite IH.
    destruct (call_all f l s1) as [bs s2]. simpl. by rewrite <- app_assoc.
Qed.
End Recording.

Lemma validate_step2_loop_requests {St}
    (get_roots : list N -> St -> outcome (list N) * St) chunks d log s :
  ∃ k, (k ≤ length chunks)%nat
       ∧ (Validate.step2_loop (recording get_roots) chunks d (log, s)).2.1
         = log ++ take k chunks
       ∧ (∀ d', (Validate.step2_loop (recording get_roots) chunks d (log, s)).1
                = Returned d' → k = length chunks).
Proof.
  revert d log s. induction chunks as [|chunk rest IH]; intros d log s.
  - exists 0%nat. simpl. rewrite app_nil_r. done.
  - cbn [Validate.step2_loop]. rewrite recording_eq.
    destruct (get_roots chunk s) as [[roots|e] s1]; cbn [fst snd].
    + destruct (IH (dict_update d (zip chunk roots)) (log ++ [chunk]) s1)
        as (k & Hk & Hlog & Hret).
      exists (S k). split; [simpl; lia|]. split.
      * rewrite Hlog. simpl. by rewrite <- app_assoc.
      * intros d' Hd'. simpl. f_equal. by apply (Hret d').
    + exists 1%nat. split; [simpl; lia|]. split; [by destruct rest|done].
Qed.

(** X8: the batches sent to the service are the chunks of the list of
    leaves and nothing else.  The coordinate fetcher sends all of them, in
    order, whatever the answers; the validator sends them in order up to the
    first fault, and all of them when it returns.  Every chunk holds between
    one leaf and the chunk size (100, or 5000), all but the last hold exactly
    the chunk size, and put end to end they are the list of leaves. *)
Theorem batches_sent {St : Type} :
  (∀ (get_l2data : list N -> St -> outcome (dict pystr Coords.l2_attrs) * St)
     (id_to_l2 : dict pystr N) (s : St),
     let chunks := py_chunks Coords.chunk_size (dict_values id_to_l2) in
     (Coords.step2 (recording get_l2data) id_to_l2 ([], s)).2.1 = chunks
     ∧ concat chunks = dict_values id_to_l2
     ∧ ∀ i c, chunks !! i = Some c →
         (0 < length c ≤ 100)%nat ∧ (S i < length chunks → length c = 100)%nat)
  ∧ (∀ (get_roots : list N -> St -> outcome (list N) * St)
       (id_to_sv : dict pystr N) (s : St),
       let chunks := py_chunks Validate.chunk_size (dict_values id_to_sv) in
       let run := Validate.step2 (recording get_roots) id_to_sv ([], s) in
       (∃ k, run.2.1 = take k chunks
             ∧ ∀ sv_to_root, run.1 = Returned sv_to_root → run.2.1 = chunks)
       ∧ concat chunks = dict_values id_to_sv
       ∧ ∀ i c, chunks !! i = Some c →
           (0 < length c ≤ 5000)%nat ∧ (S i < length chunks → length c = 5000)%nat).
Proof.
  split.
  - intros get_l2data id_to_l2 s chunks. split; [|split].
    + unfold Coords.step2. rewrite coords_step2_loop_calls. cbn [snd].
      by rewrite call_all_recording.
    + apply py_chunks_concat. unfold Coords.chunk_size. lia.
    + intros i c Hc. apply (py_chunks_sizes Coords.chunk_size _ i c); [|done].
      unfold Coords.chunk_size. lia.
  - intros get_roots id_to_sv s chunks run. split; [|split].
    + destruct (validate_step2_loop_requests get_roots chunks [] [] s)
        as (k & Hk & Hlog & Hret).
      exists k. split; [exact Hlog|].
      intros sv_to_root Hr. unfold run, Validate.step2. fold chunks.
      rewrite Hlog, (Hret sv_to_root Hr). simpl. apply firstn_all.
    + apply py_chunks_concat. unfold Validate.chunk_size. lia.
    + intros i c Hc. apply (py_chunks_sizes Validate.chunk_size _ i c); [|done].
      unfold Validate.chunk_size. lia.
Qed.

Lemma batches_sent_witness :
  (Coords.step2 (recording (fun (_ : list N) (s : unit) =>
                              (@Raised (dict pystr Coords.l2_attrs) (lit "504"), s)))
     [(lit "1", 10); (lit "2", 20)] ([], tt)).2.1 = [[10; 20]]
  ∧ (0 < length [10; 20] ≤ 100)%nat.
Proof.
  destruct (@batches_sent unit) as [Hc _].
  destruct (Hc (fun _ s => (Raised (lit "504"), s)) [(lit "1", 10); (lit "2", 20)] tt)
    as (Hlog & _ & Hsize).
  split; [exact Hlog|].
  apply (Hsize 0%nat [10; 20]). reflexivity.
Defined.

Section StageBKeeps.
Context {St : Type}.

Lemma validate_step2_loop_returns
    (get_roots : list N -> St -> outcome (list N) * St) chunks d s :
  all_returned (call_all get_roots chunks s).1 →
  ∃ d', Validate.step2_loop get_roots chunks d s
        = (Returned d', (call_all get_roots chunks s).2).
Proof.
  revert d s. induction chunks as [|chunk rest IH]; intros d s Hall; [by eexists|].
  simpl in *. destruct (get_roots chunk s) as [[roots|e] s1].
  - specialize (IH (dict_update d (zip chunk roots)) s1).
    destruct (call_all get_roots rest s1) as [rs s2]. simpl in *.
    apply Forall_cons in Hall as [_ Hall]. by apply IH.
  - destruct (call_all get_roots rest s1) as [rs s2]. simpl in Hall.
    apply Forall_cons in Hall as [[] _].
Qed.

(** A root is kept for a leaf only if it stood at the place of that leaf
    in the answer to a chunk. *)
Lemma validate_step2_loop_sound
    (get_roots : list N -> St -> outcome (list N) * St) chunks d s d' s' sv root :
  Validate.step2_loop get_roots chunks d s = (Returned d', s') →
  dict_get d' sv = Some root →
  dict_get d sv = Some root
  ∨ ∃ i chunk roots j,
      chunks !! i = Some chunk
      ∧ (call_all get_roots chunks s).1 !! i = Some (Returned roots)
      ∧ chunk !! j = Some sv ∧ roots !! j = Some root.
Proof.
  revert d s. induction chunks as [|chunk rest IH]; intros d s Hrun Hget.
  - simpl in Hrun. injection Hrun as <- <-. by left.
  - simpl in Hrun. simpl.
    destruct (get_roots chunk s) as [[roots|e] s1]; [|done].
    destruct (call_all get_roots rest s1) as [rs s2] eqn:Hcalls.
    destruct (IH _ _ Hrun Hget) as [Hd|(i & c & r & j & Hc & Ha & Hj & Hr)].
    + apply dict_get_update in Hd as [Hin|Hd]; [|by left].
      right. apply list_elem_of_lookup in Hin as [j Hj].
      apply lookup_zip_with_Some in Hj as (x & y & [= <- <-] & Hx & Hy).
      exists 0%nat, chunk, roots, j. done.
    + right. exists (S i), c, r, j. rewrite Hcalls in Ha. done.
Qed.

Lemma absorb_sound (answers : list (outcome (dict pystr Coords.l2_attrs)))
    l2_data key a :
  dict_get (fold_left absorb answers l2_data) key = Some a →
  dict_get l2_data key = Some a
  ∨ ∃ chunk_data, Returned chunk_data ∈ answers ∧ (key, a) ∈ chunk_data.
Proof.
  revert l2_data. induction answers as [|ans answers IH]; intros l2_data Hget.
  - by left.
  - simpl in Hget. destruct (IH _ Hget) as [Hd|(cd & Hin & Hcd)].
    + destruct ans as [cd|e]; simpl in Hd; [|by left].
      apply dict_get_update in Hd as [Hin|Hd]; [|by left].
      right. exists cd. split; [left|done].
    + right. exists cd. split; [by right|done].
Qed.
End StageBKeeps.

Section StageBStores.
Context {St : Type}.
Variable get_roots : list N -> St -> outcome (list N) * St.

(** When no call raises, the loop leaves the map of all the pairs. *)
Lemma validate_step2_loop_pairs chunks d s :
  all_returned (call_all get_roots chunks s).1 →
  Validate.step2_loop get_roots chunks d s
  = (Returned (dict_update d (root_pairs chunks (call_all get_roots chunks s).1)),
     (call_all get_roots chunks s).2).
Proof.
  revert d s. induction chunks as [|chunk rest IH]; intros d s Hall; [done|].
  simpl in *. destruct (get_roots chunk s) as [[roots|e] s1].
  - specialize (IH (dict_update d (zip chunk roots)) s1).
    destruct (call_all get_roots rest s1) as [rs s2]. simpl in *.
    apply Forall_cons in Hall as [_ Hall].
    rewrite dict_update_app. by apply IH.
  - destruct (call_all get_roots rest s1) as [rs s2]. simpl in Hall.
    apply Forall_cons in Hall as [[] _].
Qed.
End StageBStores.

(** A leaf that was sent has a pair when the answers came back whole. *)
Lemma root_pairs_complete chunks answers sv :
  answers_fit chunks answers → all_returned answers →
  sv ∈ concat chunks → sv ∈ (root_pairs chunks answers).*1.
Proof.
  induction 1 as [|chunk answer chunks answers Hfit _ IH]; [done|].
  intros [Hret Hall]%Forall_cons. destruct answer as [roots|]; [|done].
  simpl. rewrite fmap_app, !elem_of_app.
  intros [Hin|Hin]; [left|right; by apply IH].
  rewrite fst_zip by lia. done.
Qed.

(** X9: when every call of step 2 returns, the validator goes on to its
    report: the run ends, after all the chunks have been sent, with the
    report that step 3 builds from the maps of step 1 and from the map of the
    pairs of the answers, every leaf of a chunk with the root at its place, a
    later pair replacing an earlier one; the report has one line for each
    listed identifier, and when the answers are as long as the chunks an
    identifier that has a leaf and no error has a root. *)
Theorem validator_completes {St : Type}
    (get_roots : list N -> St -> outcome (list N) * St)
    (all_ids : list pystr) (completed : list task_result) (s : St) :
  let id_to_sv := (collect completed).1 in
  let errors := (collect completed).2 in
  let chunks := py_chunks Validate.chunk_size (dict_values id_to_sv) in
  let answers := (call_all get_roots chunks s).1 in
  let sv_to_root := dict_update [] (root_pairs chunks answers) in
  all_returned answers →
  Validate.finish get_roots all_ids completed s
  = (Returned (Validate.step3 id_to_sv errors sv_to_root all_ids),
     (call_all get_roots chunks s).2)
  ∧ length (Validate.lines (Validate.step3 id_to_sv errors sv_to_root all_ids))
    = length all_ids
  ∧ (answers_fit chunks answers →
     ∀ old_id sv,
       dict_get errors old_id = None → dict_get id_to_sv old_id = Some sv →
       is_Some (root_found id_to_sv errors sv_to_root old_id)).
Proof.
  intros id_to_sv errors chunks answers sv_to_root Hall. split; [|split].
  - unfold Validate.finish, Validate.step2.
    subst sv_to_root answers chunks errors id_to_sv.
    destruct (collect completed) as [m e]. cbn [fst snd] in *.
    by rewrite validate_step2_loop_pairs.
  - apply validator_counts.
  - intros Hfit old_id sv Herr Hsv. unfold root_found. rewrite Herr, Hsv.
    apply dict_get_keys, dict_keys_update. right.
    apply root_pairs_complete; [done..|].
    unfold chunks. rewrite py_chunks_concat by (unfold Validate.chunk_size; lia).
    apply dict_get_elem in Hsv. unfold dict_values.
    apply list_elem_of_fmap. by exists (old_id, sv).
Qed.

Lemma validator_completes_witness :
  Validate.finish (stateless (fun chunk : list N => Returned ((fun sv => sv + 1) <$> chunk)))
    [lit "1"; lit "2"] [(lit "2", Some 20, None); (lit "1", Some 10, None)] tt
  = (Returned (Validate.step3 [(lit "2", 20); (lit "1", 10)] [] [(20, 21); (10, 11)]
                 [lit "1"; lit "2"]), tt).
Proof.
  destruct (validator_completes
              (stateless (fun chunk : list N => Returned ((fun sv => sv + 1) <$> chunk)))
              [lit "1"; lit "2"] [(lit "2", Some 20, None); (lit "1", Some 10, None)] tt)
    as [Hrun _].
  { apply Forall_cons. split; [exact I|apply Forall_nil_2]. }
  exact Hrun.
Defined.

(** X10: step 2 keeps only what the service answered.  In the validator a
    leaf has a root only if that root stood at the place of the leaf in the
    answer to one of the chunks; in the coordinate fetcher an entry of
    [l2_data] is an entry of one of the returned answers. *)
Theorem stage_b_keeps_answers {St : Type} :
  (∀ (get_roots : list N -> St -> outcome (list N) * St)
     (id_to_sv : dict pystr N) (s s' : St) (sv_to_root : dict N N) (sv root : N),
     let chunks := py_chunks Validate.chunk_size (dict_values id_to_sv) in
     Validate.step2 get_roots id_to_sv s = (Returned sv_to_root, s') →
     dict_get sv_to_root sv = Some root →
     ∃ i chunk roots j,
       chunks !! i = Some chunk
       ∧ (call_all get_roots chunks s).1 !! i = Some (Returned roots)
       ∧ chunk !! j = Some sv ∧ roots !! j = Some root)
  ∧ (∀ (get_l2data : list N -> St -> outcome (dict pystr Coords.l2_attrs) * St)
       (id_to_l2 : dict pystr N) (s : St) (key : pystr) (a : Coords.l2_attrs),
       let chunks := py_chunks Coords.chunk_size (dict_values id_to_l2) in
       dict_get (Coords.step2 get_l2data id_to_l2 s).1 key = Some a →
       ∃ chunk_data,
         Returned chunk_data ∈ (call_all get_l2data chunks s).1
         ∧ (key, a) ∈ chunk_data).
Proof.
  split.
  - intros get_roots id_to_sv s s' sv_to_root sv root chunks Hrun Hget.
    destruct (validate_step2_loop_sound get_roots chunks [] s sv_to_root s' sv root
                Hrun Hget) as [Hnil|Hex]; [done|exact Hex].
  - intros get_l2data id_to_l2 s key a chunks Hget.
    unfold Coords.step2 in Hget. rewrite coords_step2_loop_calls in Hget.
    destruct (absorb_sound _ _ _ _ Hget) as [Hnil|Hex]; [done|exact Hex].
Qed.

Lemma stage_b_keeps_answers_witness :
  ∃ i chunk roots j,
    py_chunks Validate.chunk_size (dict_values [(lit "1", 10); (lit "2", 20)]) !! i
      = Some chunk
    ∧ (call_all (stateless (fun chunk : list N => Returned ((fun sv => sv + 1) <$> chunk)))
         (py_chunks Validate.chunk_size (dict_values [(lit "1", 10); (lit "2", 20)]))
         tt).1 !! i = Some (Returned roots)
    ∧ chunk !! j = Some 20 ∧ roots !! j = Some 21.
Proof.
  destruct (@stage_b_keeps_answers unit) as [Hv _].
  apply (Hv (stateless (fun chunk : list N => Returned ((fun sv => sv + 1) <$> chunk)))
            [(lit "1", 10); (lit "2", 20)] tt tt [(10, 11); (20, 21)] 20 21);
    reflexivity.
Defined.

(** ** Stage C: the rows that report a failure, and the counters *)

(** X11: in the validator an identifier of the error map is reported with the
    reason kept there, whatever the other maps hold for it, and an identifier
    without leaf or without root is reported as [lookup failed]; in both
    cases the clean list repeats the identifier as it was listed. *)
Theorem validator_error_rows (all_ids : list pystr)
    (id_to_sv : dict pystr N) (errors : dict pystr (option pystr))
    (sv_to_root : dict N N) (i : nat) (old_id : pystr) :
  all_ids !! i = Some old_id →
  let r := Validate.step3 id_to_sv errors sv_to_root all_ids in
  (∀ err, dict_get errors old_id = Some err →
     Validate.lines r !! i = Some (Validate.line_error old_id (fmt_opt err))
     ∧ Validate.updated_ids r !! i = Some old_id)
  ∧ (dict_get errors old_id = None →
     root_found id_to_sv errors sv_to_root old_id = None →
     Validate.lines r !! i = Some (Validate.line_error old_id (lit "lookup failed"))
     ∧ Validate.updated_ids r !! i = Some old_id).
Proof.
  intros Hi r.
  destruct (validator_lines_lookup id_to_sv errors sv_to_root all_ids i old_id Hi)
    as [Hl Hu].
  fold r in Hl, Hu. rewrite Hl, Hu. unfold validator_entry, Validate.step3_body.
  split.
  - intros err ->. done.
  - unfold root_found. intros ->.
    destruct (dict_get id_to_sv old_id) as [sv|]; [|done]. by intros ->.
Qed.

Lemma validator_error_rows_witness :
  Validate.lines (Validate.step3 [(lit "42", 7)] [(lit "42", Some (lit "timed out"))]
                    [(7, 42)] [lit "42"]) !! 0%nat
  = Some (lit "# ERROR: 42 - timed out")
  ∧ Validate.updated_ids (Validate.step3 [(lit "42", 7)] [(lit "42", Some (lit "timed out"))]
                            [(7, 42)] [lit "42"]) !! 0%nat
    = Some (lit "42").
Proof.
  destruct (validator_error_rows [lit "42"] [(lit "42", 7)]
              [(lit "42", Some (lit "timed out"))] [(7, 42)] 0 (lit "42") eq_refl)
    as [Herr _].
  apply (Herr (Some (lit "timed out"))). reflexivity.
Defined.

Lemma validator_entry_counts id_to_sv errors sv_to_root old_id :
  let e := validator_entry id_to_sv errors sv_to_root old_id in
  match root_found id_to_sv errors sv_to_root old_id with
  | None =>
      Validate.error_count e = 1%nat ∧ Validate.changed_count e = 0%nat
      ∧ Validate.unchanged_count e = 0%nat
  | Some root =>
      Validate.error_count e = 0%nat
      ∧ Validate.changed_count e = (if decide (py_str root = old_id) then 0 else 1)%nat
      ∧ Validate.unchanged_count e = (if decide (py_str root = old_id) then 1 else 0)%nat
  end.
Proof.
  unfold validator_entry, Validate.step3_body, root_found.
  destruct (dict_get errors old_id); [done|].
  destruct (dict_get id_to_sv old_id) as [sv|]; [|done].
  destruct (dict_get sv_to_root sv) as [root|]; [|done].
  destruct (decide (py_str root = old_id)) as [Heq|Hne].
  - rewrite decide_False by (intros Hn; by apply Hn). done.
  - rewrite decide_True by done. done.
Qed.

(** X12: the three counters of the validator's report count what their
    names say: the listed identifiers for which no root was found, those
    whose root is written differently, and those whose root is written as
    they are. *)
Theorem validator_counters_count (all_ids : list pystr)
    (id_to_sv : dict pystr N) (errors : dict pystr (option pystr))
    (sv_to_root : dict N N) :
  let r := Validate.step3 id_to_sv errors sv_to_root all_ids in
  let found := root_found id_to_sv errors sv_to_root in
  Validate.error_count r
  = length (List.filter (fun old_id => match found old_id with
                                       | Some _ => false
                                       | None => true
                                       end) all_ids)
  ∧ Validate.changed_count r
    = length (List.filter (fun old_id => match found old_id with
                                         | Some root => bool_decide (py_str root ≠ old_id)
                                         | None => false
                                         end) all_ids)
  ∧ Validate.unchanged_count r
    = length (List.filter (fun old_id => match found old_id with
                                         | Some root => bool_decide (py_str root = old_id)
                                         | None => false
                                         end) all_ids).
Proof.
  intros r found. unfold r. clear r.
  induction all_ids as [|old_id ids (IHe & IHc & IHu)]; [done|].
  rewrite validator_step3_cons. cbn [validator_join Validate.error_count
    Validate.changed_count Validate.unchanged_count List.filter].
  rewrite IHe, IHc, IHu.
  pose proof (validator_entry_counts id_to_sv errors sv_to_root old_id) as He.
  fold found in He. cbv zeta in He.
  destruct (found old_id) as [root|] eqn:Hf.
  - destruct He as (-> & -> & ->).
    destruct (decide (py_str root = old_id)) as [Heq|Hne].
    + rewrite bool_decide_false by (intros Hn; by apply Hn).
      rewrite bool_decide_true by done. done.
    + rewrite bool_decide_true by done.
      rewrite bool_decide_false by done. done.
  - destruct He as (-> & -> & ->). done.
Qed.

Section CoordsRows.
Variable viewer_res : pynum * pynum * pynum.
Variable id_to_l2 : dict pystr N.
Variable errors : dict pystr (option pystr).
Variable l2_data : dict pystr Coords.l2_attrs.

Local Abbreviation entry := (coords_entry viewer_res id_to_l2 errors l2_data).
Local Abbreviation found := (coord_found id_to_l2 errors l2_data).

Lemma coords_entry_cases root_id :
  entry root_id
  = if dict_in root_id errors
    then Returned (Coords.add_fail coords_none root_id (lit "ERROR"))
    else match found root_id with
         | Some rep =>
             match Coords.convert viewer_res rep with
             | Returned (x, y, z) =>
                 Returned (Coords.add_coords coords_none root_id x y z)
             | Raised e => Raised e
             end
         | None => Returned (Coords.add_fail coords_none root_id (lit "N/A"))
         end.
Proof.
  unfold coords_entry, Coords.step3_body, coord_found.
  destruct (dict_in root_id errors); [done|].
  destruct (dict_get id_to_l2 root_id) as [l2_id|]; [|done].
  by destruct (dict_get l2_data (py_str l2_id)) as [[[rep|]]|].
Qed.

Lemma coords_loop_lookup ids r0 r' i root_id :
  Coords.step3_loop viewer_res id_to_l2 errors l2_data ids r0 = Returned r' →
  ids !! i = Some root_id →
  ∃ e, entry root_id = Returned e
       ∧ Coords.lines r' !! (length (Coords.lines r0) + i)%nat
         = Coords.lines e !! 0%nat.
Proof.
  revert r0 i. induction ids as [|a ids IH]; intros r0 i Hrun Hi; [done|].
  simpl in Hrun. rewrite coords_body_join in Hrun.
  destruct (entry a) as [e|m] eqn:He; [|done].
  destruct (coords_entry_shape viewer_res id_to_l2 errors l2_data a e He)
    as (line & Hl & _ & _).
  destruct i as [|i]; simpl in Hi.
  - injection Hi as <-. exists e. split; [done|].
    apply coords_loop_shape in Hrun as (t & -> & _ & _).
    simpl. rewrite Hl, Nat.add_0_r, <- app_assoc.
    rewrite lookup_app_r by lia. by rewrite Nat.sub_diag.
  - destruct (IH _ i Hrun Hi) as (e' & He' & Hlook).
    exists e'. split; [done|]. rewrite <- Hlook. f_equal.
    simpl. rewrite Hl, length_app. simpl. lia.
Qed.

Lemma coords_entry_counts root_id e :
  entry root_id = Returned e →
  Coords.success_count e = (if found root_id is Some _ then 1 else 0)%nat
  ∧ Coords.fail_count e = (if found root_id is Some _ then 0 else 1)%nat.
Proof.
  rewrite coords_entry_cases. unfold coord_found.
  destruct (dict_in root_id errors); [by intros [= <-]|].
  destruct (dict_get id_to_l2 root_id) as [l2_id|]; [|by intros [= <-]].
  destruct (dict_get l2_data (py_str l2_id)) as [[[rep|]]|];
    [|by intros [= <-]..].
  simpl. destruct (Coords.convert viewer_res rep) as [[[x y] z]|]; [|done].
  by intros [= <-].
Qed.

Lemma coords_loop_counts ids r0 r' :
  Coords.step3_loop viewer_res id_to_l2 errors l2_data ids r0 = Returned r' →
  Coords.success_count r'
  = (Coords.success_count r0
     + length (List.filter
                 (fun root_id => if found root_id is Some _ then true else false)
                 ids))%nat
  ∧ Coords.fail_count r'
    = (Coords.fail_count r0
       + length (List.filter
                   (fun root_id => if found root_id is Some _ then false else true)
                   ids))%nat.
Proof.
  revert r0. induction ids as [|a ids IH]; intros r0 Hrun.
  - simpl in Hrun. injection Hrun as <-. simpl. lia.
  - simpl in Hrun. rewrite coords_body_join in Hrun.
    destruct (entry a) as [e|m] eqn:He; [|done].
    destruct (coords_entry_counts a e He) as [Hs Hf].
    destruct (IH _ Hrun) as [-> ->]. simpl. rewrite Hs, Hf.
    destruct (found a); simpl; lia.
Qed.
End CoordsRows.

(** A row that was converted stood on a resolution without zero. *)
Lemma convert_nonzero res rep res_z v :
  stands_for3 res res_z → Coords.convert res rep = Returned v → nonzero3 res_z.
Proof.
  destruct v as [[x y] z]. intros ([H0 _] & [H1 _] & [H2 _]).
  intros (Hx & Hy & Hz)%convert_returned.
  repeat split; intros Hzero; rewrite Hzero in *.
  - destruct (to_voxel_zero rep.1.1 res.1.1 H0) as [e He]. congruence.
  - destruct (to_voxel_zero rep.1.2 res.1.2 H1) as [e He]. congruence.
  - destruct (to_voxel_zero rep.2 res.2 H2) as [e He]. congruence.
Qed.

(** X13: the rows of the coordinate report.  When step 3 returns, the row of
    an identifier of the error map is the [ERROR] row, whatever the other maps
    hold for it; the row of an identifier with a raw coordinate holds in
    decimal the three conversions of that coordinate, each the float quotient
    by the resolution with its fractional part dropped, which for numbers
    that hold integers below 2^53 is the quotient of the integers truncated
    toward zero, the resolution being then without zero; every other row is
    the [N/A] row. *)
Theorem coords_rows (viewer_res : pynum * pynum * pynum) (id_to_l2 : dict pystr N)
    (errors : dict pystr (option pystr)) (l2_data : dict pystr Coords.l2_attrs)
    (all_ids : list pystr) (r : Coords.report) (i : nat) (root_id : pystr) :
  Coords.step3 viewer_res id_to_l2 errors l2_data all_ids = Returned r →
  all_ids !! i = Some root_id →
  (dict_in root_id errors = true →
     Coords.lines r !! S i
     = Some (Coords.row root_id (lit "ERROR") (lit "ERROR") (lit "ERROR")))
  ∧ (dict_in root_id errors = false →
     coord_found id_to_l2 errors l2_data root_id = None →
     Coords.lines r !! S i
     = Some (Coords.row root_id (lit "N/A") (lit "N/A") (lit "N/A")))
  ∧ (∀ rep, coord_found id_to_l2 errors l2_data root_id = Some rep →
       ∃ x y z,
         Coords.convert viewer_res rep = Returned (x, y, z)
         ∧ Coords.lines r !! S i
           = Some (Coords.row root_id (py_str_Z x) (py_str_Z y) (py_str_Z z))
         ∧ float_truncation rep.1.1 viewer_res.1.1 x
         ∧ float_truncation rep.1.2 viewer_res.1.2 y
         ∧ float_truncation rep.2 viewer_res.2 z
         ∧ ∀ rep_z res_z,
             stands_for3 rep rep_z → stands_for3 viewer_res res_z →
             nonzero3 res_z
             ∧ (x, y, z) = (Z.quot rep_z.1.1 res_z.1.1, Z.quot rep_z.1.2 res_z.1.2,
                            Z.quot rep_z.2 res_z.2)).
Proof.
  intros Hrun Hi.
  destruct (coords_loop_lookup viewer_res id_to_l2 errors l2_data all_ids
              Coords.report_start r i root_id Hrun Hi) as (e & He & Hlook).
  change (length (Coords.lines Coords.report_start) + i)%nat with (S i) in Hlook.
  rewrite Hlook. rewrite coords_entry_cases in He.
  split; [|split].
  - intros Herr. rewrite Herr in He. by injection He as <-.
  - intros Herr Hnone. rewrite Herr, Hnone in He. by injection He as <-.
  - intros rep Hrep.
    assert (dict_in root_id errors = false) as Herr.
    { unfold coord_found in Hrep. by destruct (dict_in root_id errors). }
    rewrite Herr, Hrep in He.
    destruct (Coords.convert viewer_res rep) as [[[x y] z]|] eqn:Hc; [|done].
    injection He as <-. exists x, y, z. split; [done|]. split; [done|].
    pose proof (convert_returned _ _ _ _ _ Hc) as (Hx & Hy & Hz).
    repeat split; try by apply to_voxel_truncates.
    + by apply (convert_nonzero viewer_res rep res_z (x, y, z)).
    + by apply (convert_nonzero viewer_res rep res_z (x, y, z)).
    + by apply (convert_nonzero viewer_res rep res_z (x, y, z)).
    + assert (Hnz : nonzero3 res_z)
        by by apply (convert_nonzero viewer_res rep res_z (x, y, z)).
      rewrite (convert_quot viewer_res rep res_z rep_z) in Hc by done.
      by injection Hc as <- <- <-.
Qed.

Lemma coords_rows_witness :
  ∃ r,
    Coords.step3 (PyInt 4, PyInt 4, PyInt 40) [(lit "7", 70); (lit "8", 80)]
      [(lit "8", Some (lit "boom"))]
      [(lit "70", {| Coords.rep_coord_nm := Some (PyInt 400, PyInt 800, PyInt 1600) |})]
      [lit "8"; lit "7"] = Returned r
    ∧ Coords.lines r !! 2%nat
      = Some (Coords.row (lit "7") (lit "100") (lit "200") (lit "40")).
Proof.
  eexists. split; [reflexivity|].
  destruct (coords_rows (PyInt 4, PyInt 4, PyInt 40) [(lit "7", 70); (lit "8", 80)]
              [(lit "8", Some (lit "boom"))]
              [(lit "70", {| Coords.rep_coord_nm := Some (PyInt 400, PyInt 800, PyInt 1600) |})]
              [lit "8"; lit "7"] _ 1 (lit "7") eq_refl eq_refl) as (_ & _ & Hrow).
  destruct (Hrow (PyInt 400, PyInt 800, PyInt 1600) eq_refl)
    as (x & y & z & _ & Hline & _ & _ & _ & Hsmall).
  destruct (Hsmall (400, 800, 1600)%Z (4, 4, 40)%Z) as [_ [= -> -> ->]];
    [by apply stands_for3_ints..|].
  exact Hline.
Defined.

(** X14: when step 3 of the coordinate fetcher returns, [success_count] is
    the number of listed identifiers for which a raw coordinate was found and
    [fail_count] the number of the others. *)
Theorem coords_counters_count (viewer_res : pynum * pynum * pynum) (id_to_l2 : dict pystr N)
    (errors : dict pystr (option pystr)) (l2_data : dict pystr Coords.l2_attrs)
    (all_ids : list pystr) (r : Coords.report) :
  Coords.step3 viewer_res id_to_l2 errors l2_data all_ids = Returned r →
  Coords.success_count r
  = length (List.filter
              (fun root_id => if coord_found id_to_l2 errors l2_data root_id is Some _
                              then true else false) all_ids)
  ∧ Coords.fail_count r
    = length (List.filter
                (fun root_id => if coord_found id_to_l2 errors l2_data root_id is Some _
                                then false else true) all_ids).
Proof.
  intros Hrun.
  by destruct (coords_loop_counts viewer_res id_to_l2 errors l2_data all_ids
                 Coords.report_start r Hrun) as [-> ->].
Qed.

Lemma coords_counters_count_witness :
  ∃ r,
    Coords.step3 (PyInt 4, PyInt 4, PyInt 40) [(lit "7", 70); (lit "8", 80)]
      [(lit "8", Some (lit "boom"))]
      [(lit "70", {| Coords.rep_coord_nm := Some (PyInt 400, PyInt 800, PyInt 1600) |})]
      [lit "8"; lit "7"] = Returned r
    ∧ Coords.success_count r = 1%nat.
Proof.
  eexists. split; [reflexivity|].
  eapply (coords_counters_count (PyInt 4, PyInt 4, PyInt 40) [(lit "7", 70); (lit "8", 80)]
            [(lit "8", Some (lit "boom"))]
            [(lit "70", {| Coords.rep_coord_nm := Some (PyInt 400, PyInt 800, PyInt 1600) |})]
            [lit "8"; lit "7"] _ eq_refl).
Defined.
(** ** The files written and read back *)

Lemma lacks_app a s t : lacks a (s ++ t) = lacks a s && lacks a t.
Proof. apply forallb_app. Qed.

Lemma one_line_app s t : one_line (s ++ t) = one_line s && one_line t.
Proof.
  unfold one_line. rewrite !lacks_app.
  destruct (lacks 10 s), (lacks 10 t), (lacks 13 s), (lacks 13 t); done.
Qed.

Lemma lacks_join a sep parts :
  lacks a sep = true → Forall (fun p => lacks a p = true) parts →
  lacks a (py_join sep parts) = true.
Proof.
  intros Hsep. induction 1 as [|p parts Hp Hparts IH]; [done|].
  cbn [py_join]. destruct parts as [|q parts]; [done|].
  by rewrite !lacks_app, Hp, Hsep, IH.
Qed.

Lemma universal_newlines_id text :
  lacks 13 text = true → universal_newlines text = text.
Proof.
  induction text as [|c t IH]; [done|]. simpl.
  intros [Hc Ht]%andb_true_iff. destruct (c =? 13); [done|]. by rewrite IH.
Qed.

Lemma lines_go_app cur p rest :
  lacks 10 p = true → lines_go cur (p ++ rest) = lines_go (rev p ++ cur) rest.
Proof.
  revert cur. induction p as [|c p IH]; intros cur; [done|]. simpl.
  intros [Hc Hp]%andb_true_iff. destruct (c =? 10); [done|].
  by rewrite IH, <- app_assoc.
Qed.

Lemma lines_go_feed p rest :
  lacks 10 p = true → lines_go [] (p ++ 10 :: rest) = (p ++ [10]) :: lines_go [] rest.
Proof.
  intros Hp. rewrite lines_go_app, app_nil_r by done.
  simpl. by rewrite rev_involutive.
Qed.

Lemma lines_go_last p :
  lacks 10 p = true → lines_go [] p = match p with [] => [] | _ :: _ => [p] end.
Proof.
  intros Hp. rewrite <- (app_nil_r p) at 1. rewrite lines_go_app, app_nil_r by done.
  destruct p as [|c p]; [done|]. cbn [lines_go].
  destruct (rev (c :: p)) as [|c' p'] eqn:Hrev.
  - apply (f_equal (@rev codepoint)) in Hrev. by rewrite rev_involutive in Hrev.
  - by rewrite <- Hrev, rev_involutive.
Qed.

(** What a parser reads from the lines of a text depends on the trimmed
    lines only, so the line feeds that end them do not matter. *)
Section ReadLines.
Variable parse_line : list pystr -> pystr -> list pystr.
Hypothesis parse_line_strip : ∀ ids raw,
  parse_line ids (py_strip raw) = parse_line ids raw.
Hypothesis parse_fold : ∀ file ids,
  fold_left parse_line file ids = ids ++ fold_left parse_line file [].
Hypothesis parse_blank : parse_line [] [] = [].

Local Abbreviation parse_file := (fun file => fold_left parse_line file []).

Lemma read_lines_feed p rest :
  lacks 10 p = true →
  parse_file (lines_go [] (p ++ 10 :: rest))
  = parse_line [] p ++ parse_file (lines_go [] rest).
Proof.
  intros Hp. rewrite lines_go_feed by done. simpl. rewrite parse_fold.
  by rewrite <- parse_line_strip, strip_line_feed, parse_line_strip.
Qed.

Lemma read_lines_last p :
  lacks 10 p = true → parse_file (lines_go [] p) = parse_line [] p.
Proof.
  intros Hp. rewrite lines_go_last by done. by destruct p.
Qed.

Lemma read_joined parts :
  Forall (fun p => lacks 10 p = true) parts →
  parse_file (lines_go [] (py_join [10] parts)) = parse_file parts.
Proof.
  induction 1 as [|p parts Hp Hparts IH]; [done|].
  cbn [py_join]. destruct parts as [|q parts].
  - by rewrite read_lines_last.
  - change (p ++ [10] ++ py_join [10] (q :: parts))
      with (p ++ 10 :: py_join [10] (q :: parts)).
    rewrite read_lines_feed, IH by done. cbv beta. symmetry.
    change (fold_left parse_line (p :: q :: parts) [])
      with (fold_left parse_line (q :: parts) (parse_line [] p)).
    apply parse_fold.
Qed.

Lemma read_headed (heads : list pystr) rest :
  Forall (fun p => lacks 10 p = true) heads →
  parse_file (lines_go [] (concat ((fun p => p ++ [10]) <$> heads) ++ rest))
  = parse_file heads ++ parse_file (lines_go [] rest).
Proof.
  induction 1 as [|p heads Hp Hheads IH]; [done|].
  cbn [fmap list_fmap concat]. rewrite <- !app_assoc.
  change ([10] ++ ?x) with (10 :: x).
  rewrite read_lines_feed, IH by done. cbv beta. rewrite app_assoc. f_equal.
  symmetry.
  change (fold_left parse_line (p :: heads) [])
    with (fold_left parse_line heads (parse_line [] p)).
  apply parse_fold.
Qed.
End ReadLines.

Lemma validate_read_joined od parts :
  Forall (fun p => lacks 10 p = true) parts →
  Validate.parse_id_file od (lines_go [] (py_join [10] parts))
  = Validate.parse_id_file od parts.
Proof.
  apply (read_joined (Validate.parse_line od));
    auto using validate_parse_line_strip, validate_parse_fold.
Qed.

Lemma coords_read_joined od parts :
  Forall (fun p => lacks 10 p = true) parts →
  Coords.parse_id_file od (lines_go [] (py_join [10] parts))
  = Coords.parse_id_file od parts.
Proof.
  apply (read_joined (Coords.parse_line od));
    auto using coords_parse_line_strip, coords_parse_fold.
Qed.

(** No digit is a line break, a tabulation or a blank. *)
Lemma digits_lack od a s :
  isdigit_cp od a = false → forallb (isdigit_cp od) s = true → lacks a s = true.
Proof.
  intros Ha. induction s as [|c s IH]; [done|]. simpl.
  intros [Hc Hs]%andb_true_iff. rewrite (IH Hs), andb_true_r.
  destruct (N.eqb_spec c a) as [->|]; [congruence|done].
Qed.

Lemma id_lacks od a id :
  unicode_digits od → a < 128 → ascii_digit a = false →
  py_isdigit od id = true → lacks a id = true.
Proof.
  intros Hod Ha Hd Hid.
  apply (digits_lack od); [by apply unicode_digits_ascii|by apply isdigit_all].
Qed.

Lemma id_one_line od id :
  unicode_digits od → py_isdigit od id = true → one_line id = true.
Proof.
  intros Hod Hid. unfold one_line.
  by rewrite !(id_lacks od _ id Hod) by done.
Qed.

(** The clean list holds listed identifiers and decimal texts of roots. *)
Lemma validator_updated_digits od id_to_sv errors sv_to_root all_ids :
  Forall (fun id => py_isdigit od id = true ∧ py_strip id = id) all_ids →
  Forall (fun id => py_isdigit od id = true ∧ py_strip id = id)
    (Validate.updated_ids (Validate.step3 id_to_sv errors sv_to_root all_ids)).
Proof.
  induction 1 as [|old_id ids Hold Hids IH]; [constructor|].
  rewrite validator_step3_cons. simpl. apply Forall_app. split; [|done].
  unfold validator_entry, Validate.step3_body.
  destruct (dict_get errors old_id) as [err|]; [by apply Forall_singleton|].
  destruct (dict_get id_to_sv old_id) as [sv|]; [|by apply Forall_singleton].
  destruct (dict_get sv_to_root sv) as [root|]; [|by apply Forall_singleton].
  destruct (decide (py_str root ≠ old_id)); [|by apply Forall_singleton].
  apply Forall_singleton. split.
  - apply ascii_digits_isdigit, py_str_ascii_digits.
  - apply strip_digits, ascii_digits_all, py_str_ascii_digits.
Qed.

(** X15: the file of clean identifiers is read back whole.  Whatever the
    lookups gave, either parser reads from the clean file the validator
    writes exactly the clean list, one identifier for each identifier of the
    validator's input. *)
Theorem clean_file_read_back (od : codepoint -> bool) (file : list pystr)
    (id_to_sv : dict pystr N) (errors : dict pystr (option pystr))
    (sv_to_root : dict N N) :
  unicode_digits od →
  let all_ids := Validate.parse_id_file od file in
  let r := Validate.step3 id_to_sv errors sv_to_root all_ids in
  Coords.parse_id_file od (py_file_lines (validate_clean_text r))
  = Validate.updated_ids r
  ∧ Validate.parse_id_file od (py_file_lines (validate_clean_text r))
    = Validate.updated_ids r
  ∧ length (Validate.updated_ids r) = length all_ids.
Proof.
  intros Hod all_ids r.
  destruct (validate_parsed_digits od file) as [Hids _]. fold all_ids in Hids.
  pose proof (validator_updated_digits od id_to_sv errors sv_to_root all_ids Hids)
    as Hup. fold r in Hup.
  assert (Hline : Forall (fun p => one_line p = true) (Validate.updated_ids r)).
  { eapply Forall_impl; [exact Hup|]. intros id [Hd _]. by apply (id_one_line od). }
  assert (H10 : Forall (fun p => lacks 10 p = true) (Validate.updated_ids r)).
  { eapply Forall_impl; [exact Hline|]. by intros id [? _]%andb_true_iff. }
  assert (H13 : Forall (fun p => lacks 13 p = true) (Validate.updated_ids r)).
  { eapply Forall_impl; [exact Hline|]. by intros id [_ ?]%andb_true_iff. }
  unfold py_file_lines, validate_clean_text.
  rewrite universal_newlines_id by by apply lacks_join.
  rewrite coords_read_joined, validate_read_joined by done.
  rewrite coords_reads_list, validate_reads_list by done.
  split; [done|]. split; [done|].
  apply (validator_counts id_to_sv errors sv_to_root all_ids).
Qed.

Lemma clean_file_read_back_witness :
  Coords.parse_id_file ascii_only_digit
    (py_file_lines
       (validate_clean_text
          (Validate.step3 [(lit "7", 70)] [(lit "8", Some (lit "boom"))] [(70, 9)]
             (Validate.parse_id_file ascii_only_digit [lit "8"; lit "# x"; lit " 7 "]))))
  = [lit "8"; lit "9"].
Proof.
  destruct (clean_file_read_back ascii_only_digit [lit "8"; lit "# x"; lit " 7 "]
              [(lit "7", 70)] [(lit "8", Some (lit "boom"))] [(70, 9)]
              unicode_digits_ascii_only) as [H _].
  exact H.
Defined.
(** ** The validator's report read as a list of identifiers *)

Lemma stripped_head s :
  py_strip s = s → s ≠ [] → ∃ c r, s = c :: r ∧ py_isspace c = false.
Proof.
  unfold py_strip. intros Hs Hne.
  destruct (lstrip_head s) as [Hnil|(c & r & Hl & Hc)].
  - rewrite Hnil in Hs. by destruct s.
  - rewrite Hl in Hs. destruct (rstrip_keeps_head c r Hc) as [r' Hr].
    rewrite Hr in Hs. eauto.
Qed.

Lemma strip_ends c s d :
  py_isspace c = false → py_isspace d = false →
  py_strip (c :: s ++ [d]) = c :: s ++ [d].
Proof.
  intros Hc Hd. unfold py_strip. rewrite lstrip_fixed by done. unfold py_rstrip.
  assert (Hrev : rev (c :: s ++ [d]) = d :: rev (c :: s)).
  { by rewrite app_comm_cons, rev_app_distr. }
  by rewrite Hrev, lstrip_fixed, <- Hrev, rev_involutive.
Qed.

Lemma digits_last s :
  ascii_digits s = true → ∃ p d, s = p ++ [d] ∧ ascii_digit d = true.
Proof.
  unfold ascii_digits. intros [Hne Hall]%andb_true_iff.
  destruct (exists_last (l := s)) as (p & d & ->); [by destruct s|].
  exists p, d. split; [done|].
  rewrite forallb_app in Hall. apply andb_true_iff in Hall as [_ Hd].
  simpl in Hd. by rewrite andb_true_r in Hd.
Qed.

Lemma after_last_none_first a (sep s : pystr) :
  lacks a s = true → text_after_last (a :: sep) s = None.
Proof.
  induction s as [|c s IH]; [done|]. simpl.
  intros [Hc Hs]%andb_true_iff. rewrite (IH Hs).
  destruct (N.eqb_spec a c) as [->|]; [|done].
  by rewrite N.eqb_refl in Hc.
Qed.

Lemma after_last_none_second (a b : codepoint) (s : pystr) :
  lacks b s = true → text_after_last [a; b] s = None.
Proof.
  induction s as [|c s IH]; [done|]. simpl.
  intros [Hc Hs]%andb_true_iff. rewrite (IH Hs).
  destruct s as [|c' s]; [by rewrite andb_false_r|].
  simpl in Hs. apply andb_true_iff in Hs as [Hc' _].
  destruct (N.eqb_spec b c') as [->|]; [|by rewrite andb_false_r].
  by rewrite N.eqb_refl in Hc'.
Qed.

Lemma after_last_here (a b : codepoint) (t : pystr) :
  a ≠ b → lacks a t = true → text_after_last [a; b] (a :: b :: t) = Some t.
Proof.
  intros Hab Ht.
  change (text_after_last [a; b] (a :: b :: t))
    with (match text_after_last [a; b] (b :: t) with
          | Some x => Some x
          | None => if py_startswith [a; b] (a :: b :: t)
                    then Some (drop (length [a; b]) (a :: b :: t)) else None
          end).
  rewrite after_last_none_first.
  - simpl. by rewrite !N.eqb_refl.
  - simpl. rewrite Ht. by destruct (N.eqb_spec b a) as [->|].
Qed.

Lemma after_last_app (sep s t x : pystr) :
  text_after_last sep t = Some x → text_after_last sep (s ++ t) = Some x.
Proof.
  intros Ht. induction s as [|c s IH]; [done|]. simpl. by rewrite IH.
Qed.

Lemma not_digits od a s :
  isdigit_cp od a = false → lacks a s = false → py_isdigit od s = false.
Proof.
  intros Ha Hs. destruct (py_isdigit od s) eqn:Hd; [|done].
  rewrite (digits_lack od a s Ha (isdigit_all od s Hd)) in Hs. done.
Qed.

Lemma py_str_lacks a n : ascii_digit a = false → lacks a (py_str n) = true.
Proof.
  intros Ha. pose proof (uint_cps_digits (N.to_uint n)) as Hall.
  fold (py_str n) in Hall. induction (py_str n) as [|c s IH]; [done|].
  simpl in *. apply andb_true_iff in Hall as [Hc Hs]. rewrite (IH Hs), andb_true_r.
  destruct (N.eqb_spec c a) as [->|]; [congruence|done].
Qed.

Lemma py_str_Z_lacks a z :
  ascii_digit a = false → a ≠ 45 → lacks a (py_str_Z z) = true.
Proof.
  intros Ha H45. unfold py_str_Z.
  destruct z as [|p|p]; [by apply py_str_lacks..|].
  change (lacks a (45 :: py_str (N.pos p)))
    with (negb (45 =? a) && lacks a (py_str (N.pos p))).
  rewrite py_str_lacks by done. by destruct (N.eqb_spec 45 a) as [<-|].
Qed.

(** The grammar on a line that does not begin with [#]. *)
Lemma grammar_line_body od c line :
  head line = Some c → c ≠ 35 →
  grammar_line od line
  = match text_after_last [arrow] line with
    | Some t => if py_isdigit od (py_strip t) then Some (py_strip t) else None
    | None =>
        match text_after_last [45; 62] line with
        | Some t => if py_isdigit od (py_strip t) then Some (py_strip t) else None
        | None => if py_isdigit od line then Some line else None
        end
    end.
Proof.
  destruct line as [|c' line]; [done|]. intros [= ->] Hc. unfold grammar_line.
  destruct c as [|p]; [done|].
  do 6 (destruct p as [p|p|]; try done).
Qed.

(** The fetcher's parser skips every line that begins with [#]. *)
Lemma coords_skips_comment od ids s :
  head s = Some 35 → Coords.parse_line od ids s = ids.
Proof.
  destruct s as [|c s]; [done|]. intros [= ->].
  rewrite coords_parse_line_grammar. unfold py_strip.
  rewrite lstrip_fixed by done.
  destruct (rstrip_keeps_head 35 s eq_refl) as [r' ->]. simpl. apply app_nil_r.
Qed.

Section ReportLines.
Variable od : codepoint -> bool.
Hypothesis Hod : unicode_digits od.

Lemma id_head old_id :
  py_isdigit od old_id = true → py_strip old_id = old_id →
  ∃ c r, old_id = c :: r ∧ py_isspace c = false ∧ c ≠ 35.
Proof.
  intros Hd Hs.
  destruct (stripped_head old_id Hs) as (c & r & -> & Hc); [by destruct old_id|].
  exists c, r. split; [done|]. split; [done|]. intros ->.
  apply isdigit_head in Hd as (c' & r' & [= <- <-] & Hc').
  by rewrite (unicode_digits_ascii od 35 Hod) in Hc'.
Qed.

Lemma changed_line_trimmed old_id root :
  py_isdigit od old_id = true → py_strip old_id = old_id →
  py_strip (Validate.line_changed old_id (py_str root))
  = Validate.line_changed old_id (py_str root).
Proof.
  intros Hd Hs. destruct (id_head old_id Hd Hs) as (c & r & -> & Hc & _).
  destruct (digits_last (py_str root) (py_str_ascii_digits root))
    as (p & d & Hp & Hdig).
  unfold Validate.line_changed. rewrite Hp.
  replace ((c :: r) ++ lit "    ->    " ++ p ++ [d])
    with (c :: (r ++ lit "    ->    " ++ p) ++ [d]).
  - apply strip_ends; [done|by apply ascii_digit_not_space].
  - simpl. by rewrite <- !app_assoc.
Qed.

Lemma unchanged_line_trimmed old_id :
  py_isdigit od old_id = true → py_strip old_id = old_id →
  py_strip (Validate.line_unchanged old_id) = Validate.line_unchanged old_id.
Proof.
  intros Hd Hs. destruct (id_head old_id Hd Hs) as (c & r & -> & Hc & _).
  unfold Validate.line_unchanged.
  replace ((c :: r) ++ lit "    [OK - Current]")
    with (c :: (r ++ lit "    [OK - Current") ++ [93]).
  - by apply strip_ends.
  - simpl. by rewrite <- !app_assoc.
Qed.

(** A replaced identifier is read from its line: the text after the ASCII
    arrow. *)
Lemma coords_reads_changed old_id root :
  py_isdigit od old_id = true → py_strip old_id = old_id →
  Coords.parse_line od [] (Validate.line_changed old_id (py_str root))
  = [py_str root].
Proof.
  intros Hd Hs. rewrite coords_parse_line_grammar.
  rewrite changed_line_trimmed by done.
  destruct (id_head old_id Hd Hs) as (c & r & Hold & _ & H35).
  rewrite (grammar_line_body od c) by (by rewrite ?Hold).
  unfold Validate.line_changed.
  rewrite after_last_none_first.
  2:{ rewrite !lacks_app, (digits_lack od arrow old_id), py_str_lacks;
        auto using unicode_digits_arrow, isdigit_all. }
  assert (Hcut : old_id ++ lit "    ->    " ++ py_str root
                 = (old_id ++ lit "    ") ++ lit "->    " ++ py_str root).
  { by rewrite <- app_assoc. }
  rewrite Hcut. clear Hcut.
  rewrite (after_last_app [45; 62] (old_id ++ lit "    ")
             (lit "->    " ++ py_str root) (lit "    " ++ py_str root)).
  - change (py_strip (lit "    " ++ py_str root)) with (py_strip (py_str root)).
    rewrite strip_digits by apply ascii_digits_all, py_str_ascii_digits.
    by rewrite ascii_digits_isdigit by apply py_str_ascii_digits.
  - apply (after_last_here 45 62 (lit "    " ++ py_str root)); [done|].
    by rewrite lacks_app, py_str_lacks.
Qed.

(** A confirmed identifier is not read from its line: there is no arrow
    on it, and the line is not a run of digits. *)
Lemma coords_skips_unchanged old_id :
  py_isdigit od old_id = true → py_strip old_id = old_id →
  Coords.parse_line od [] (Validate.line_unchanged old_id) = [].
Proof.
  intros Hd Hs. rewrite coords_parse_line_grammar.
  rewrite unchanged_line_trimmed by done.
  destruct (id_head old_id Hd Hs) as (c & r & Hold & _ & H35).
  rewrite (grammar_line_body od c) by (by rewrite ?Hold).
  unfold Validate.line_unchanged.
  rewrite after_last_none_first.
  2:{ rewrite !lacks_app, (digits_lack od arrow old_id);
        auto using unicode_digits_arrow, isdigit_all. }
  rewrite after_last_none_second.
  2:{ by rewrite !lacks_app, (id_lacks od 62 old_id). }
  rewrite (not_digits od 32); [done|by apply unicode_digits_ascii|].
  rewrite lacks_app. apply andb_false_r.
Qed.

Lemma coords_skips_results ids :
  Coords.parse_line od ids (lit "---RESULTS---") = ids.
Proof.
  rewrite coords_parse_line_grammar.
  change (py_strip (lit "---RESULTS---")) with (lit "---RESULTS---").
  rewrite (grammar_line_body od 45) by done.
  change (text_after_last [arrow] (lit "---RESULTS---")) with (@None pystr).
  change (text_after_last [45; 62] (lit "---RESULTS---")) with (@None pystr).
  rewrite (not_digits od 45); [apply app_nil_r|by apply unicode_digits_ascii|done].
Qed.

(** The validator's own parser reads nothing from a line without the
    Unicode arrow that holds a character which is no digit. *)
Lemma validate_skips ids raw a :
  isdigit_cp od a = false → lacks arrow (py_strip raw) = true →
  lacks a (py_strip raw) = false → Validate.parse_line od ids raw = ids.
Proof.
  intros Ha Harrow Hlack. unfold Validate.parse_line.
  destruct (negb (nonempty (py_strip raw))); [done|].
  rewrite contains_after_last, after_last_none_first by done.
  by rewrite (not_digits od a).
Qed.
End ReportLines.

Lemma lacks_rev a s : lacks a (rev s) = lacks a s.
Proof.
  induction s as [|c s IH]; [done|]. simpl.
  rewrite lacks_app, IH. simpl. rewrite andb_true_r. apply andb_comm.
Qed.

Lemma lacks_lstrip a s : lacks a s = true → lacks a (py_lstrip s) = true.
Proof.
  induction s as [|c s IH]; [done|]. simpl. intros Hs.
  destruct (py_isspace c); [|done].
  apply andb_true_iff in Hs as [_ Hs]. by apply IH.
Qed.

Lemma lacks_strip a s : lacks a s = true → lacks a (py_strip s) = true.
Proof.
  intros Hs. unfold py_strip, py_rstrip. rewrite lacks_rev.
  apply lacks_lstrip. rewrite lacks_rev. by apply lacks_lstrip.
Qed.

Lemma validate_skips_comment od ids s :
  unicode_digits od → head s = Some 35 → lacks arrow s = true →
  Validate.parse_line od ids s = ids.
Proof.
  intros Hod Hhead Hs. apply (validate_skips od ids s 35).
  - by apply unicode_digits_ascii.
  - by apply lacks_strip.
  - destruct s as [|c s]; [done|]. injection Hhead as ->.
    unfold py_strip. rewrite lstrip_fixed by done.
    by destruct (rstrip_keeps_head 35 s eq_refl) as [r' ->].
Qed.
Lemma report_text_split total_time workers all_ids r :
  validate_report_text total_time workers all_ids r
  = concat ((fun p => p ++ [10]) <$> validate_report_head total_time workers all_ids r)
    ++ py_join [10] (Validate.lines r).
Proof.
  unfold validate_report_text, validate_report_head.
  cbn [fmap list_fmap concat]. rewrite <- !app_assoc. reflexivity.
Qed.

Lemma lacks_concat_feed a (heads : list pystr) :
  a ≠ 10 → Forall (fun p => lacks a p = true) heads →
  lacks a (concat ((fun p => p ++ [10]) <$> heads)) = true.
Proof.
  intros Ha. induction 1 as [|p heads Hp Hheads IH]; [done|].
  cbn [fmap list_fmap concat]. rewrite !lacks_app, Hp, IH.
  unfold lacks. cbn [forallb]. by destruct (N.eqb_spec 10 a) as [<-|].
Qed.

Lemma coords_parse_app od file1 file2 :
  Coords.parse_id_file od (file1 ++ file2)
  = Coords.parse_id_file od file1 ++ Coords.parse_id_file od file2.
Proof. unfold Coords.parse_id_file. by rewrite fold_left_app, coords_parse_fold. Qed.

Lemma validate_parse_app od file1 file2 :
  Validate.parse_id_file od (file1 ++ file2)
  = Validate.parse_id_file od file1 ++ Validate.parse_id_file od file2.
Proof. unfold Validate.parse_id_file. by rewrite fold_left_app, validate_parse_fold. Qed.

(** Line breaks and the Unicode arrow are found in a report only where an
    error message or the text of the elapsed time brings them. *)
Section Breaks.
Variable od : codepoint -> bool.
Hypothesis Hod : unicode_digits od.
Variable a : codepoint.
Hypothesis Ha : a = 10 ∨ a = 13 ∨ a = arrow.

Lemma break_not_digit : isdigit_cp od a = false.
Proof.
  destruct Ha as [-> | [-> | ->]];
    [by apply unicode_digits_ascii..|by apply unicode_digits_arrow].
Qed.

Lemma break_not_ascii : ascii_digit a = false ∧ a ≠ 45.
Proof. by destruct Ha as [-> | [-> | ->]]. Qed.

Lemma id_lacks_break id : py_isdigit od id = true → lacks a id = true.
Proof. intros Hd. apply (digits_lack od); [apply break_not_digit|by apply isdigit_all]. Qed.

Lemma head_lacks_break total_time workers all_ids r :
  lacks a total_time = true →
  Forall (fun p => lacks a p = true)
    (validate_report_head total_time workers all_ids r).
Proof.
  intros Ht. destruct break_not_ascii as [Hd H45].
  unfold validate_report_head.
  repeat apply Forall_cons_2; [..|apply Forall_nil_2];
    rewrite ?lacks_app, ?py_str_lacks, ?py_str_Z_lacks, ?Ht by done;
    by destruct Ha as [-> | [-> | ->]].
Qed.

Lemma rows_lack_break (id_to_sv : dict pystr N)
    (errors : dict pystr (option pystr)) (sv_to_root : dict N N) all_ids :
  Forall (fun id => py_isdigit od id = true ∧ py_strip id = id) all_ids →
  Forall (fun kv => lacks a (fmt_opt kv.2) = true) errors →
  Forall (fun p => lacks a p = true)
    (Validate.lines (Validate.step3 id_to_sv errors sv_to_root all_ids)).
Proof.
  intros Hids Herr. destruct break_not_ascii as [Hdig H45].
  induction Hids as [|old_id ids [Hd _] Hids IH]; [constructor|].
  rewrite validator_step3_cons. simpl. apply Forall_app. split; [|done].
  pose proof (id_lacks_break old_id Hd) as Hold.
  unfold validator_entry, Validate.step3_body.
  destruct (dict_get errors old_id) as [err|] eqn:He.
  { apply Forall_singleton. unfold Validate.line_error.
    apply dict_get_elem in He. rewrite Forall_forall in Herr.
    pose proof (Herr _ He) as Hreason. simpl in Hreason.
    rewrite !lacks_app, Hold, Hreason.
    by destruct Ha as [-> | [-> | ->]]. }
  assert (Hfail : lacks a (Validate.line_error old_id (lit "lookup failed")) = true).
  { unfold Validate.line_error. rewrite !lacks_app, Hold.
    by destruct Ha as [-> | [-> | ->]]. }
  destruct (dict_get id_to_sv old_id) as [sv|]; [|by apply Forall_singleton].
  destruct (dict_get sv_to_root sv) as [root|]; [|by apply Forall_singleton].
  destruct (decide (py_str root ≠ old_id)); apply Forall_singleton.
  - unfold Validate.line_changed.
    rewrite !lacks_app, Hold, py_str_lacks by done.
    by destruct Ha as [-> | [-> | ->]].
  - unfold Validate.line_unchanged. rewrite !lacks_app, Hold.
    by destruct Ha as [-> | [-> | ->]].
Qed.
End Breaks.

Section ReportRead.
Variable od : codepoint -> bool.
Hypothesis Hod : unicode_digits od.
Variable id_to_sv : dict pystr N.
Variable errors : dict pystr (option pystr).
Variable sv_to_root : dict N N.

Lemma coords_reads_rows all_ids :
  Forall (fun id => py_isdigit od id = true ∧ py_strip id = id) all_ids →
  Coords.parse_id_file od
    (Validate.lines (Validate.step3 id_to_sv errors sv_to_root all_ids))
  = replaced_ids id_to_sv errors sv_to_root all_ids.
Proof.
  induction 1 as [|old_id ids [Hd Hs] Hids IH]; [done|].
  rewrite validator_step3_cons. simpl Validate.lines.
  rewrite coords_parse_app, IH.
  change (old_id :: ids) with ([old_id] ++ ids) at 1.
  unfold replaced_ids at 2. rewrite omap_app. fold (replaced_ids id_to_sv errors sv_to_root ids).
  f_equal. unfold validator_entry, Validate.step3_body, root_found.
  cbn [omap list_omap].
  destruct (dict_get errors old_id) as [err|].
  { by apply (coords_skips_comment od []). }
  destruct (dict_get id_to_sv old_id) as [sv|];
    [|by apply (coords_skips_comment od [])].
  destruct (dict_get sv_to_root sv) as [root|];
    [|by apply (coords_skips_comment od [])].
  destruct (decide (py_str root ≠ old_id)).
  - by apply coords_reads_changed.
  - by apply coords_skips_unchanged.
Qed.

Lemma validate_reads_rows all_ids :
  Forall (fun id => py_isdigit od id = true ∧ py_strip id = id) all_ids →
  Forall (fun kv => lacks arrow (fmt_opt kv.2) = true) errors →
  Validate.parse_id_file od
    (Validate.lines (Validate.step3 id_to_sv errors sv_to_root all_ids))
  = [].
Proof.
  intros Hids Herr.
  pose proof (rows_lack_break od Hod arrow (or_intror (or_intror eq_refl))
                id_to_sv errors sv_to_root all_ids Hids Herr) as Hrows.
  induction Hids as [|old_id ids [Hd Hs] Hids IH]; [done|].
  rewrite validator_step3_cons in Hrows |- *. simpl Validate.lines in *.
  apply Forall_app in Hrows as [Hrow Hrows].
  rewrite validate_parse_app, (IH Hrows), app_nil_r. clear IH Hrows.
  revert Hrow. unfold validator_entry, Validate.step3_body.
  assert (Hfail : ∀ reason,
            Forall (fun p => lacks arrow p = true)
              [Validate.line_error old_id reason] →
            Validate.parse_id_file od [Validate.line_error old_id reason] = []).
  { intros reason Hrow%Forall_inv.
    change (Validate.parse_line od [] (Validate.line_error old_id reason) = []).
    apply validate_skips_comment; [exact Hod|reflexivity|exact Hrow]. }
  destruct (dict_get errors old_id) as [err|]; [apply Hfail|].
  destruct (dict_get id_to_sv old_id) as [sv|]; [|apply Hfail].
  destruct (dict_get sv_to_root sv) as [root|]; [|apply Hfail].
  destruct (decide (py_str root ≠ old_id)); intros Hrow%Forall_inv.
  - change (Validate.parse_line od []
              (Validate.line_changed old_id (py_str root)) = []).
    apply (validate_skips od [] _ 32).
    + by apply unicode_digits_ascii.
    + by rewrite (changed_line_trimmed od).
    + rewrite (changed_line_trimmed od) by done.
      unfold Validate.line_changed. rewrite !lacks_app. simpl. apply andb_false_r.
  - change (Validate.parse_line od [] (Validate.line_unchanged old_id) = []).
    apply (validate_skips od [] _ 32).
    + by apply unicode_digits_ascii.
    + by rewrite (unchanged_line_trimmed od).
    + rewrite (unchanged_line_trimmed od) by done.
      unfold Validate.line_unchanged. rewrite !lacks_app. apply andb_false_r.
Qed.

Lemma coords_reads_head total_time workers all_ids r :
  Coords.parse_id_file od (validate_report_head total_time workers all_ids r) = [].
Proof.
  unfold Coords.parse_id_file, validate_report_head. cbn [fold_left].
  rewrite !(coords_skips_comment od []) by done.
  by rewrite coords_skips_results.
Qed.

Lemma validate_reads_head total_time workers all_ids r :
  lacks arrow total_time = true →
  Validate.parse_id_file od (validate_report_head total_time workers all_ids r) = [].
Proof.
  intros Ht. unfold Validate.parse_id_file, validate_report_head. cbn [fold_left].
  rewrite !(validate_skips_comment od [])
    by (try done; rewrite ?lacks_app, ?py_str_lacks, ?py_str_Z_lacks, ?Ht; done).
  change (Validate.parse_line od [] []) with (@nil pystr).
  by rewrite (validate_skips od [] (lit "---RESULTS---") 45)
    by (try done; by apply unicode_digits_ascii).
Qed.
End ReportRead.
Lemma coords_read_headed od heads rest :
  Forall (fun p => lacks 10 p = true) heads →
  Coords.parse_id_file od
    (lines_go [] (concat ((fun p => p ++ [10]) <$> heads) ++ rest))
  = Coords.parse_id_file od heads ++ Coords.parse_id_file od (lines_go [] rest).
Proof.
  apply (read_headed (Coords.parse_line od));
    auto using coords_parse_line_strip, coords_parse_fold.
Qed.

Lemma validate_read_headed od heads rest :
  Forall (fun p => lacks 10 p = true) heads →
  Validate.parse_id_file od
    (lines_go [] (concat ((fun p => p ++ [10]) <$> heads) ++ rest))
  = Validate.parse_id_file od heads ++ Validate.parse_id_file od (lines_go [] rest).
Proof.
  apply (read_headed (Validate.parse_line od));
    auto using validate_parse_line_strip, validate_parse_fold.
Qed.

Lemma one_line_reasons (errors : dict pystr (option pystr)) :
  Forall (fun kv => one_line (fmt_opt kv.2) = true) errors →
  Forall (fun kv => lacks 10 (fmt_opt kv.2) = true) errors
  ∧ Forall (fun kv => lacks 13 (fmt_opt kv.2) = true) errors.
Proof.
  intros Herr. split; (eapply Forall_impl; [exact Herr|]); simpl;
    by intros kv [? ?]%andb_true_iff.
Qed.

(** The text of the report without carriage return: the reader leaves it
    as it was written. *)
Lemma report_text_as_written od all_ids id_to_sv errors sv_to_root total_time workers :
  unicode_digits od →
  Forall (fun id => py_isdigit od id = true ∧ py_strip id = id) all_ids →
  lacks 13 total_time = true →
  Forall (fun kv => lacks 13 (fmt_opt kv.2) = true) errors →
  universal_newlines
    (validate_report_text total_time workers all_ids
       (Validate.step3 id_to_sv errors sv_to_root all_ids))
  = validate_report_text total_time workers all_ids
      (Validate.step3 id_to_sv errors sv_to_root all_ids).
Proof.
  intros Hod Hids Ht Herr.
  apply universal_newlines_id. rewrite report_text_split, lacks_app.
  rewrite lacks_concat_feed; [|done|].
  - apply lacks_join; [done|]. apply (rows_lack_break od); auto.
  - apply head_lacks_break; auto.
Qed.

(** X16: the coordinate fetcher reads the validator's report as the list of
    the new identifiers.  When no error message and not the text of the
    elapsed time holds a line break, the fetcher's parser reads from the
    written report the identifiers that replace a listed one, in the order
    of the list, and nothing else: not the header, not the identifiers that
    are confirmed, not those that failed. *)
Theorem report_read_by_fetcher (od : codepoint -> bool) (file : list pystr)
    (id_to_sv : dict pystr N) (errors : dict pystr (option pystr))
    (sv_to_root : dict N N) (total_time : pystr) (workers : Z) :
  unicode_digits od →
  one_line total_time = true →
  Forall (fun kv => one_line (fmt_opt kv.2) = true) errors →
  let all_ids := Validate.parse_id_file od file in
  let r := Validate.step3 id_to_sv errors sv_to_root all_ids in
  Coords.parse_id_file od
    (py_file_lines (validate_report_text total_time workers all_ids r))
  = replaced_ids id_to_sv errors sv_to_root all_ids.
Proof.
  intros Hod [Ht10 Ht13]%andb_true_iff [He10 He13]%one_line_reasons all_ids r.
  destruct (validate_parsed_digits od file) as [Hids _]. fold all_ids in Hids.
  unfold py_file_lines.
  subst r. rewrite (report_text_as_written od all_ids) by done.
  rewrite report_text_split, coords_read_headed
    by (apply head_lacks_break; auto).
  rewrite coords_reads_head by done.
  rewrite coords_read_joined by (apply (rows_lack_break od); auto).
  by apply coords_reads_rows.
Qed.

Lemma report_read_by_fetcher_witness :
  Coords.parse_id_file ascii_only_digit
    (py_file_lines
       (validate_report_text (lit "1.5") 20
          (Validate.parse_id_file ascii_only_digit [lit "8"; lit "7"; lit "6"])
          (Validate.step3 [(lit "7", 70); (lit "6", 60)]
             [(lit "8", Some (lit "boom"))] [(70, 9); (60, 6)]
             (Validate.parse_id_file ascii_only_digit [lit "8"; lit "7"; lit "6"]))))
  = [lit "9"].
Proof.
  apply (report_read_by_fetcher ascii_only_digit [lit "8"; lit "7"; lit "6"]
           [(lit "7", 70); (lit "6", 60)] [(lit "8", Some (lit "boom"))]
           [(70, 9); (60, 6)] (lit "1.5") 20 unicode_digits_ascii_only).
  - reflexivity.
  - by repeat constructor.
Defined.

(** X17: the validator does not read its own report.  When in addition no
    error message and not the text of the elapsed time holds the Unicode
    arrow, the validator's parser reads no identifier at all from the report
    the validator writes. *)
Theorem report_unread_by_validator (od : codepoint -> bool) (file : list pystr)
    (id_to_sv : dict pystr N) (errors : dict pystr (option pystr))
    (sv_to_root : dict N N) (total_time : pystr) (workers : Z) :
  unicode_digits od →
  one_line total_time = true → lacks arrow total_time = true →
  Forall (fun kv => one_line (fmt_opt kv.2) = true) errors →
  Forall (fun kv => lacks arrow (fmt_opt kv.2) = true) errors →
  let all_ids := Validate.parse_id_file od file in
  let r := Validate.step3 id_to_sv errors sv_to_root all_ids in
  Validate.parse_id_file od
    (py_file_lines (validate_report_text total_time workers all_ids r))
  = [].
Proof.
  intros Hod [Ht10 Ht13]%andb_true_iff Hta [He10 He13]%one_line_reasons Hea
    all_ids r.
  destruct (validate_parsed_digits od file) as [Hids _]. fold all_ids in Hids.
  unfold py_file_lines.
  subst r. rewrite (report_text_as_written od all_ids) by done.
  rewrite report_text_split, validate_read_headed
    by (apply head_lacks_break; auto).
  rewrite validate_reads_head by done.
  rewrite validate_read_joined by (apply (rows_lack_break od); auto).
  by apply validate_reads_rows.
Qed.

Lemma report_unread_by_validator_witness :
  Validate.parse_id_file ascii_only_digit
    (py_file_lines
       (validate_report_text (lit "1.5") 20
          (Validate.parse_id_file ascii_only_digit [lit "8"; lit "7"; lit "6"])
          (Validate.step3 [(lit "7", 70); (lit "6", 60)]
             [(lit "8", Some (lit "boom"))] [(70, 9); (60, 6)]
             (Validate.parse_id_file ascii_only_digit [lit "8"; lit "7"; lit "6"]))))
  = [].
Proof.
  apply (report_unread_by_validator ascii_only_digit [lit "8"; lit "7"; lit "6"]
           [(lit "7", 70); (lit "6", 60)] [(lit "8", Some (lit "boom"))]
           [(70, 9); (60, 6)] (lit "1.5") 20 unicode_digits_ascii_only).
  - reflexivity.
  - reflexivity.
  - by repeat constructor.
  - by repeat constructor.
Defined.
(** ** The table of coordinates *)

Lemma split_go_app (a : codepoint) (cur p rest : pystr) :
  lacks a p = true →
  split_go [a] 0 cur (p ++ rest) = split_go [a] 0 (rev p ++ cur) rest.
Proof.
  revert cur. induction p as [|c p IH]; intros cur; [done|].
  intros [Hc Hp]%andb_true_iff.
  change ((c :: p) ++ rest) with (c :: (p ++ rest)). cbn [split_go].
  assert (py_startswith [a] (c :: p ++ rest) = false) as ->.
  { simpl. destruct (N.eqb_spec a c) as [->|]; [|done].
    by rewrite N.eqb_refl in Hc. }
  rewrite IH by done. simpl. by rewrite <- app_assoc.
Qed.

Lemma split_go_sep (a : codepoint) (cur rest : pystr) :
  split_go [a] 0 cur (a :: rest) = rev cur :: split_go [a] 0 [] rest.
Proof. simpl. by rewrite N.eqb_refl. Qed.

Lemma split_cell (a : codepoint) (p rest : pystr) :
  lacks a p = true →
  py_split [a] (p ++ [a] ++ rest) = p :: py_split [a] rest.
Proof.
  intros Hp. unfold py_split. rewrite split_go_app by done.
  change ([a] ++ rest) with (a :: rest).
  by rewrite split_go_sep, app_nil_r, rev_involutive.
Qed.

Lemma split_last_cell (a : codepoint) (p : pystr) :
  lacks a p = true → py_split [a] p = [p].
Proof.
  intros Hp. unfold py_split. rewrite <- (app_nil_r p) at 1.
  rewrite split_go_app by done. simpl. by rewrite app_nil_r, rev_involutive.
Qed.

(** A row splits at its tabulations into its four cells. *)
Lemma split_row (root_id x y z : pystr) :
  lacks 9 root_id = true → lacks 9 x = true → lacks 9 y = true → lacks 9 z = true →
  py_split [9] (Coords.row root_id x y z) = [root_id; x; y; z].
Proof.
  intros Hid Hx Hy Hz. unfold Coords.row.
  by rewrite !split_cell, split_last_cell.
Qed.

Lemma lines_joined_length parts :
  Forall (fun p => lacks 10 p = true ∧ p ≠ []) parts →
  length (lines_go [] (py_join [10] parts)) = length parts.
Proof.
  induction 1 as [|p parts [Hp Hne] Hparts IH]; [done|].
  cbn [py_join]. destruct parts as [|q parts].
  - rewrite lines_go_last by done. by destruct p.
  - change (p ++ [10] ++ py_join [10] (q :: parts))
      with (p ++ 10 :: py_join [10] (q :: parts)).
    rewrite lines_go_feed by done. cbn [length]. by rewrite IH.
Qed.

Section CoordsCells.
Variable viewer_res : pynum * pynum * pynum.
Variable id_to_l2 : dict pystr N.
Variable errors : dict pystr (option pystr).
Variable l2_data : dict pystr Coords.l2_attrs.
Variable a : codepoint.
Hypothesis Ha : a = 9 ∨ a = 10 ∨ a = 13.

Local Abbreviation entry := (coords_entry viewer_res id_to_l2 errors l2_data).

Lemma coords_entry_cells root_id e :
  entry root_id = Returned e →
  ∃ line, Coords.lines e = [line] ∧ coords_cells a root_id line.
Proof.
  assert (Hz : ∀ z, lacks a (py_str_Z z) = true).
  { intros z. apply py_str_Z_lacks; by destruct Ha as [-> | [-> | ->]]. }
  assert (Herror : lacks a (lit "ERROR") = true)
    by by destruct Ha as [-> | [-> | ->]].
  assert (Hna : lacks a (lit "N/A") = true)
    by by destruct Ha as [-> | [-> | ->]].
  rewrite coords_entry_cases. unfold coords_cells.
  destruct (dict_in root_id errors).
  { intros [= <-]. simpl. eauto 10. }
  destruct (coord_found id_to_l2 errors l2_data root_id) as [rep|].
  - destruct (Coords.convert viewer_res rep) as [[[x y] z]|m]; [|done].
    intros [= <-]. simpl. eauto 10.
  - intros [= <-]. simpl. eauto 10.
Qed.

Lemma coords_loop_cells ids r r' :
  Coords.step3_loop viewer_res id_to_l2 errors l2_data ids r = Returned r' →
  ∃ rows,
    Coords.lines r' = Coords.lines r ++ rows
    ∧ Forall2 (coords_cells a) ids rows.
Proof.
  revert r. induction ids as [|root_id ids IH]; intros r.
  - intros [= <-]. exists []. by rewrite app_nil_r.
  - simpl. rewrite coords_body_join.
    destruct (entry root_id) as [e|m] eqn:He; [|done].
    destruct (coords_entry_cells root_id e He) as (line & Hl & Hrow).
    intros (rows & -> & Hrows)%IH.
    exists (line :: rows). simpl. rewrite Hl, <- app_assoc.
    split; [done|by constructor].
Qed.
End CoordsCells.

Lemma cells_lack a root_id line :
  a ≠ 9 → lacks a root_id = true → coords_cells a root_id line →
  lacks a line = true.
Proof.
  intros Ha Hid (x & y & z & -> & Hx & Hy & Hz). unfold Coords.row.
  rewrite !lacks_app, Hid, Hx, Hy, Hz. unfold lacks. cbn [forallb].
  by destruct (N.eqb_spec 9 a) as [<-|].
Qed.

(** X18: the table of coordinates has four cells on every line.  When step 3
    of the fetcher returns, every line of its report splits at the
    tabulations into exactly four cells, the first of which is [root_id] on
    the first line and then each listed identifier in turn; and the file
    written has one line more than there are identifiers. *)
Theorem output_rows_four_cells (od : codepoint -> bool) (file : list pystr)
    (viewer_res : pynum * pynum * pynum) (id_to_l2 : dict pystr N)
    (errors : dict pystr (option pystr)) (l2_data : dict pystr Coords.l2_attrs)
    (r : Coords.report) :
  unicode_digits od →
  let all_ids := Coords.parse_id_file od file in
  Coords.step3 viewer_res id_to_l2 errors l2_data all_ids = Returned r →
  Forall2 (fun id line => ∃ x y z, py_split [9] line = [id; x; y; z])
    (lit "root_id" :: all_ids) (Coords.lines r)
  ∧ length (py_file_lines (coords_output_text r)) = S (length all_ids).
Proof.
  intros Hod all_ids Hrun.
  destruct (coords_parsed_digits od file) as [Hids _]. fold all_ids in Hids.
  assert (Hlack : ∀ a, a < 128 → ascii_digit a = false →
            Forall (fun id => lacks a id = true) all_ids).
  { intros a Ha Hd. eapply Forall_impl; [exact Hids|].
    intros id [Hid _]. by apply (id_lacks od). }
  assert (Hrows : ∀ a, a = 9 ∨ a = 10 ∨ a = 13 →
            ∃ rows, Coords.lines r = Coords.header :: rows
                    ∧ Forall2 (coords_cells a) all_ids rows).
  { intros a Ha.
    by apply (coords_loop_cells viewer_res id_to_l2 errors l2_data a Ha
                all_ids Coords.report_start r). }
  split.
  - destruct (Hrows 9) as (rows & -> & Hcells); [auto|].
    constructor; [by exists (lit "x"), (lit "y"), (lit "z")|].
    specialize (Hlack 9 eq_refl eq_refl).
    clear Hrun Hrows Hids. revert Hlack.
    induction Hcells as [|id line ids rows (x & y & z & -> & Hx & Hy & Hz) _ IH];
      [constructor|].
    intros [Hid Hl]%Forall_cons_1. constructor; [|by apply IH].
    exists x, y, z. by apply split_row.
  - destruct (Hrows 10) as (rows & Hl10 & Hc10); [auto|].
    destruct (Hrows 13) as (rows' & Hl13 & Hc13); [auto|].
    rewrite Hl10 in Hl13. injection Hl13 as <-.
    assert (H10 : Forall (fun p => lacks 10 p = true ∧ p ≠ []) (Coords.lines r)).
    { rewrite Hl10. constructor; [done|].
      specialize (Hlack 10 eq_refl eq_refl).
      clear Hrun Hrows Hids Hl10 Hc13. revert Hlack.
      induction Hc10 as [|id line ids rows Hcell _ IH]; [constructor|].
      intros [Hid Hl]%Forall_cons_1. constructor; [|by apply IH].
      split; [by apply (cells_lack 10 id)|].
      destruct Hcell as (x & y & z & -> & _). unfold Coords.row.
      intros Hnil%(f_equal length). rewrite !length_app in Hnil. simpl in Hnil. lia. }
    assert (H13 : Forall (fun p => lacks 13 p = true) (Coords.lines r)).
    { rewrite Hl10. constructor; [done|].
      specialize (Hlack 13 eq_refl eq_refl).
      clear Hrun Hrows Hids Hl10 Hc10 H10. revert Hlack.
      induction Hc13 as [|id line ids rows Hcell _ IH]; [constructor|].
      intros [Hid Hl]%Forall_cons_1. constructor; [|by apply IH].
      by apply (cells_lack 13 id). }
    unfold py_file_lines, coords_output_text.
    rewrite universal_newlines_id by by apply lacks_join.
    rewrite lines_joined_length by done. rewrite Hl10. simpl. f_equal.
    symmetry. by eapply Forall2_length.
Qed.

Lemma output_rows_four_cells_witness :
  ∃ r,
    Coords.step3 (PyInt 4, PyInt 4, PyInt 40) [(lit "7", 70); (lit "8", 80)]
      [(lit "8", Some (lit "boom"))]
      [(lit "70", {| Coords.rep_coord_nm := Some (PyInt 400, PyInt 800, PyInt 1600) |})]
      (Coords.parse_id_file ascii_only_digit [lit "8"; lit "old -> 7"]) = Returned r
    ∧ length (py_file_lines (coords_output_text r)) = 3%nat.
Proof.
  eexists. split; [reflexivity|].
  eapply (output_rows_four_cells ascii_only_digit [lit "8"; lit "old -> 7"]
            (PyInt 4, PyInt 4, PyInt 40) [(lit "7", 70); (lit "8", 80)]
            [(lit "8", Some (lit "boom"))]
            [(lit "70", {| Coords.rep_coord_nm := Some (PyInt 400, PyInt 800, PyInt 1600) |})]
            _ unicode_digits_ascii_only eq_refl).
Defined.
(** ** The summary *)

Lemma share_bounds (a b : Z) :
  (0 <= a <= b)%Z → (0 < b)%Z →
  (0 <= inject_Z a / inject_Z b * 100)%Q ∧ (inject_Z a / inject_Z b * 100 <= 100)%Q.
Proof.
  intros Ha Hb. destruct b as [|p|p]; [lia| |lia].
  unfold Qle, Qdiv, Qmult, Qinv, inject_Z. simpl. split; nia.
Qed.

(** X19: the percentages of the summary.  The two divisions of the summary
    raise exactly when the list of identifiers is empty, the case in which
    [main] has left before; otherwise each percentage lies between 0 and
    100. *)
Theorem summary_percentages (all_ids : list pystr)
    (id_to_sv : dict pystr N) (errors : dict pystr (option pystr))
    (sv_to_root : dict N N) :
  match validate_summary all_ids
          (Validate.step3 id_to_sv errors sv_to_root all_ids) with
  | Returned (c, u) =>
      all_ids ≠ [] ∧ (0 <= c)%Q ∧ (c <= 100)%Q ∧ (0 <= u)%Q ∧ (u <= 100)%Q
  | Raised _ => all_ids = []
  end.
Proof.
  destruct (validator_counts id_to_sv errors sv_to_root all_ids) as (Hsum & _ & _).
  unfold validate_summary, exact_truediv.
  destruct all_ids as [|id ids]; [done|].
  set (r := Validate.step3 id_to_sv errors sv_to_root (id :: ids)) in *.
  destruct (Z.eqb_spec (Z.of_nat (length (id :: ids))) 0) as [Hz|Hz];
    [simpl in Hz; lia|].
  destruct (share_bounds (Z.of_nat (Validate.changed_count r))
              (Z.of_nat (length (id :: ids)))) as [Hc0 Hc1]; [lia|simpl; lia|].
  destruct (share_bounds (Z.of_nat (Validate.unchanged_count r))
              (Z.of_nat (length (id :: ids)))) as [Hu0 Hu1]; [lia|simpl; lia|].
  done.
Qed.
(** ** When the coordinate fetcher writes its table *)

Section CoordsReturns.
Variable viewer_res : pynum * pynum * pynum.
Variable id_to_l2 : dict pystr N.
Variable errors : dict pystr (option pystr).
Variable l2_data : dict pystr Coords.l2_attrs.

Local Abbreviation entry := (coords_entry viewer_res id_to_l2 errors l2_data).
Local Abbreviation found := (coord_found id_to_l2 errors l2_data).
Local Abbreviation converts :=
  (fun root_id => ∀ rep, found root_id = Some rep →
                         ∃ v, Coords.convert viewer_res rep = Returned v).

Lemma coords_entry_returns_iff root_id :
  (∃ e, entry root_id = Returned e) ↔ converts root_id.
Proof.
  rewrite coords_entry_cases. split.
  - intros [e He] rep Hrep. rewrite Hrep in He.
    assert (dict_in root_id errors = false) as Herr.
    { unfold coord_found in Hrep. by destruct (dict_in root_id errors). }
    rewrite Herr in He.
    destruct (Coords.convert viewer_res rep) as [v|]; [by exists v|done].
  - intros Hconv. destruct (dict_in root_id errors); [by eexists|].
    destruct (found root_id) as [rep|]; [|by eexists].
    destruct (Hconv rep eq_refl) as [[[x y] z] ->]. by eexists.
Qed.

Lemma coords_loop_returns_iff ids r :
  (∃ r', Coords.step3_loop viewer_res id_to_l2 errors l2_data ids r = Returned r')
  ↔ Forall converts ids.
Proof.
  split.
  - revert r. induction ids as [|a ids IH]; intros r [r' Hrun]; [done|].
    simpl in Hrun. rewrite coords_body_join in Hrun.
    destruct (entry a) as [e|m] eqn:He; [|done].
    constructor; [|by apply (IH _ (ex_intro _ r' Hrun))].
    apply coords_entry_returns_iff. by exists e.
  - intros Hall. revert r. induction Hall as [|a ids Ha _ IH]; intros r; [by eexists|].
    simpl. rewrite coords_body_join.
    apply coords_entry_returns_iff in Ha as [e ->]. apply IH.
Qed.

(** A coordinate that is found is one of the cache. *)
Lemma found_in_cache root_id rep :
  found root_id = Some rep →
  ∃ key attrs, (key, attrs) ∈ l2_data ∧ Coords.rep_coord_nm attrs = Some rep.
Proof.
  unfold coord_found. destruct (dict_in root_id errors); [done|].
  destruct (dict_get id_to_l2 root_id) as [l2_id|]; [|done].
  destruct (dict_get l2_data (py_str l2_id)) as [attrs|] eqn:Hget; [|done].
  intros Hrep. apply dict_get_elem in Hget. eauto.
Qed.

Variable res : Z * Z * Z.
Hypothesis res_holds : stands_for3 viewer_res res.
Hypothesis data_small : small_coords l2_data.

Lemma converts_small ids :
  Forall converts ids
  ↔ nonzero3 res ∨ Forall (fun root_id => found root_id = None) ids.
Proof.
  split.
  - induction 1 as [|a ids Ha _ IH]; [by right|].
    destruct IH as [Hnz|Hnone]; [by left|].
    destruct (found a) as [rep|] eqn:Hrep; [left|right; by constructor].
    destruct (Ha rep eq_refl) as [v Hv].
    by apply (convert_nonzero viewer_res rep res v).
  - intros [Hnz|Hnone].
    + apply Forall_forall. intros a _ rep Hrep.
      destruct (found_in_cache a rep Hrep) as (key & attrs & Hin & Hattrs).
      destruct (data_small key attrs rep Hin Hattrs) as [rep_z Hz].
      rewrite (convert_quot viewer_res rep res rep_z) by done. eauto.
    + eapply Forall_impl; [exact Hnone|]. intros a Ha rep Hrep. congruence.
Qed.
End CoordsReturns.

(** X20: when the coordinate fetcher writes its table.  Whatever the cache
    answers in step 2, faults included, the run ends with a report, of one
    line more than there are identifiers, exactly when the conversion of every
    coordinate found for a listed identifier returns; when the resolution and
    the coordinates of the cache hold integers below 2^53, that is exactly
    when the resolution has no zero component or no listed identifier has a
    raw coordinate.  In the other case a conversion raises and nothing is
    written. *)
Theorem fetcher_writes_iff {St : Type}
    (get_l2data : list N -> St -> outcome (dict pystr Coords.l2_attrs) * St)
    (viewer_res : pynum * pynum * pynum) (all_ids : list pystr)
    (completed : list task_result) (s : St) :
  let id_to_l2 := (collect completed).1 in
  let errors := (collect completed).2 in
  let l2_data := (Coords.step2 get_l2data id_to_l2 s).1 in
  let written :=
    ∃ r, (Coords.finish get_l2data viewer_res all_ids completed s).1 = Returned r
         ∧ length (Coords.lines r) = S (length all_ids) in
  (written
   ↔ Forall (fun root_id =>
               ∀ rep, coord_found id_to_l2 errors l2_data root_id = Some rep →
                      ∃ v, Coords.convert viewer_res rep = Returned v) all_ids)
  ∧ (∀ res,
       stands_for3 viewer_res res → small_coords l2_data →
       (written
        ↔ nonzero3 res
          ∨ Forall (fun root_id =>
                      coord_found id_to_l2 errors l2_data root_id = None) all_ids)).
Proof.
  intros id_to_l2 errors l2_data written.
  assert (Hfin : (Coords.finish get_l2data viewer_res all_ids completed s).1
                 = Coords.step3 viewer_res id_to_l2 errors l2_data all_ids).
  { subst id_to_l2 errors l2_data. unfold Coords.finish.
    destruct (collect completed) as [m e]. cbn [fst snd].
    by destruct (Coords.step2 get_l2data m s) as [d s']. }
  assert (Hwritten : written
            ↔ ∃ r, Coords.step3_loop viewer_res id_to_l2 errors l2_data all_ids
                     Coords.report_start = Returned r).
  { unfold written. rewrite Hfin. split.
    - intros (r & Hrun & _). by exists r.
    - intros [r Hrun]. exists r. split; [done|].
      destruct (coords_step3_shape viewer_res id_to_l2 errors l2_data all_ids r Hrun)
        as (rows & -> & Hrows & _).
      simpl. f_equal. symmetry. by eapply Forall2_length. }
  split.
  - rewrite Hwritten. apply coords_loop_returns_iff.
  - intros res Hres Hsmall. rewrite Hwritten, coords_loop_returns_iff.
    by apply converts_small.
Qed.

Lemma fetcher_writes_iff_witness :
  ∃ r,
    (Coords.finish
       (stateless (fun _ : list N =>
                     @Raised (dict pystr Coords.l2_attrs) (lit "504")))
       (PyInt 0, PyInt 4, PyInt 40) [lit "7"] [(lit "7", Some 70, None)] tt).1
    = Returned r
    ∧ length (Coords.lines r) = 2%nat.
Proof.
  destruct (fetcher_writes_iff
              (stateless (fun _ : list N =>
                            @Raised (dict pystr Coords.l2_attrs) (lit "504")))
              (PyInt 0, PyInt 4, PyInt 40) [lit "7"] [(lit "7", Some 70, None)] tt)
    as [_ Hsmall].
  apply (Hsmall (0, 4, 40)%Z).
  - by apply stands_for3_ints.
  - apply small_coords_nil.
  - right. by repeat constructor.
Defined.
